(** * PPE detection pipeline: tracking, compliance evaluation, alerting, logging

    A shallow embedding of [06_roi_email_logging_ppe_detection.py]:
    the [PersonTracker] class, the compliance evaluator
    ([check_violations], [_check_proximity]), the cooldown-gated alerts
    ([trigger_alert], [send_email_notification]), the [Database] writer and
    the per-frame step [update_frame] with its session counters.

    Conventions of the embedding.
    - A coordinate of a detection's box is a [numpy.float32]; it is carried
      as the rational it stands for ([Q]), on which [max], [min] and the
      comparisons of two coordinates are exact.  The arithmetic done on the
      coordinates (the differences, products and the quotient of
      [_check_proximity], the differences of the width and height handed to
      the tracker) is IEEE 754 binary32 arithmetic, rounded to nearest even,
      taken from [SpecFloat].  The sign of a zero is not carried by a
      coordinate; no result below depends on it.
    - The comparison of the float32 ratio with the Python float [0.3] is
      made as NumPy makes it, which differs between NumPy 1 and NumPy 2:
      the rule is the parameter [NumPy] of the evaluator.
    - Python [int]s are [Z]; [//] is [Z.div] (floor), [int(x)] truncates.
    - A Euclidean distance is represented by its square: [x ** 0.5] is
      strictly increasing, so distances compare as their squares do.
    - The tracker's [dict] is an association list in insertion order, since
      the matching loop breaks ties by iteration order.
    - Sets ([logged_person_ids], [used_tracked_ids]) are [gset Z].
    - A raised exception is a value of the step's result; the state reached
      when it was raised is kept, as the object's mutations are.
    - Times are seconds as rationals; the readings of the clock made within
      one frame are one value [now]. *)

From Stdlib Require Import ZArith QArith Qminmax Qround Sorted Lia Lqa.
From Stdlib Require SpecFloat.
From stdpp Require Import base gmap sets list strings.

Local Open Scope string_scope.
Local Open Scope list_scope.
Local Open Scope Z_scope.

(** ** Configuration *)

Definition CAMERA_ZONE_NAME : string := "Main Entrance".
Definition ALERT_COOLDOWN : Q := 3.
Definition EMAIL_COOLDOWN : Q := 30.
Definition VIOLATION_MODE : Z := 1.
Definition PERSON_TRACKING_ENABLED : bool := true.
Definition TRACKING_DISTANCE_THRESHOLD : Z := 50.
Definition TRACKING_MEMORY_FRAMES : Z := 30.
Definition PPE_PROPER : list string := ["helmet"; "gloves"; "vest"; "boots"; "goggles"].
Definition PPE_VIOLATIONS : list string :=
  ["no_helmet"; "no_goggle"; "no_gloves"; "no_boots"; "none"].
Definition PERSON_CLASS : string := "Person".
Definition REQUIRED_PPE : list string := ["helmet"; "vest"].

(** ** Compliance evaluator *)

(** A bounding box [(x1, y1, x2, y2)]. *)
Definition BBox : Type := Q * Q * Q * Q.

(** One entry of [detection_data]. *)
Record Detection := mkDetection {
  det_class : string;
  det_confidence : Q;
  det_bbox : BBox
}.

(** [a < b] on rationals, as a test. *)
Definition Qltb (a b : Q) : bool := negb (Qle_bool b a).

(** *** float32 and float64 values

    [numpy.float32] is IEEE 754 binary32 (precision 24, [emax = 128]) and a
    Python float is binary64 (precision 53, [emax = 1024]); both round to
    nearest, ties to even.  A value is a [SpecFloat.spec_float] in canonical
    form: a zero, an infinity, NaN, or [m * 2 ^ e] with a sign. *)
Definition float32 : Type := SpecFloat.spec_float.
Definition float64 : Type := SpecFloat.spec_float.

Definition f32_sub : float32 → float32 → float32 := SpecFloat.SFsub 24 128.
Definition f32_mul : float32 → float32 → float32 := SpecFloat.SFmul 24 128.
Definition f32_div : float32 → float32 → float32 := SpecFloat.SFdiv 24 128.

(** The float32 nearest to a rational: the quotient of its numerator by its
    denominator, rounded once.  A coordinate of a box is a float32 already
    and is read back as it is. *)
Definition f32_of_Q (x : Q) : float32 :=
  let x := Qred x in
  match Qnum x with
  | Z0 => SpecFloat.S754_zero false
  | Zpos n =>
      f32_div (SpecFloat.S754_finite false n 0) (SpecFloat.S754_finite false (Qden x) 0)
  | Zneg n =>
      f32_div (SpecFloat.S754_finite true n 0) (SpecFloat.S754_finite false (Qden x) 0)
  end.

(** The float64 nearest to a rational: what a literal such as [0.3] denotes. *)
Definition f64_of_Q (x : Q) : float64 :=
  let x := Qred x in
  match Qnum x with
  | Z0 => SpecFloat.S754_zero false
  | Zpos n =>
      SpecFloat.SFdiv 53 1024
        (SpecFloat.S754_finite false n 0) (SpecFloat.S754_finite false (Qden x) 0)
  | Zneg n =>
      SpecFloat.SFdiv 53 1024
        (SpecFloat.S754_finite true n 0) (SpecFloat.S754_finite false (Qden x) 0)
  end.

(** The rational a finite float stands for.  An infinity and NaN stand for
    none; they are read as [0] here, and arise from box coordinates only
    beyond [2 ^ 127], where [int()] would raise. *)
Definition f32_value (x : float32) : Q :=
  match x with
  | SpecFloat.S754_finite s m e =>
      (inject_Z (SpecFloat.cond_Zopp s (Z.pos m)) * Qpower 2 e)%Q
  | _ => 0%Q
  end.

(** Conversions between the two formats: exact from float32 to float64,
    rounded from float64 to float32. *)
Definition f64_of_f32 (x : float32) : float64 :=
  match x with
  | SpecFloat.S754_finite s m e =>
      SpecFloat.binary_normalize 53 1024 (SpecFloat.cond_Zopp s (Z.pos m)) e false
  | _ => x
  end.

Definition f32_of_f64 (x : float64) : float32 :=
  match x with
  | SpecFloat.S754_finite s m e =>
      SpecFloat.binary_normalize 24 128 (SpecFloat.cond_Zopp s (Z.pos m)) e false
  | _ => x
  end.

(** [x > 0] for a float32 [x] and the Python int [0]. *)
Definition f32_gt_zero (x : float32) : bool :=
  SpecFloat.SFltb (SpecFloat.S754_zero false) x.

(** [(x_max - x_min) * (y_max - y_min)] on float32 coordinates. *)
Definition f32_area (x_min y_min x_max y_max : Q) : float32 :=
  f32_mul (f32_sub (f32_of_Q x_max) (f32_of_Q x_min))
          (f32_sub (f32_of_Q y_max) (f32_of_Q y_min)).

(** How NumPy compares a [numpy.float32] with a Python float.  NumPy 1
    converts the float32 to a float64 and compares two float64; NumPy 2
    (NEP 50) takes the Python float as a weak scalar, rounds it to float32
    and compares two float32.  The repository fixes no version. *)
Class NumPy := { numpy_weak_scalars : bool }.

Definition numpy_1 : NumPy := {| numpy_weak_scalars := false |}.
Definition numpy_2 : NumPy := {| numpy_weak_scalars := true |}.

Section Evaluator.
Context {numpy : NumPy}.

(** [x > y] for a float32 [x] and a Python float [y]. *)
Definition f32_gt_python_float (x : float32) (y : float64) : bool :=
  if numpy_weak_scalars then SpecFloat.SFltb (f32_of_f64 y) x
  else SpecFloat.SFltb y (f64_of_f32 x).

(** [_check_proximity(bbox1, bbox2, threshold)].  When [bbox1_area > 0]
    fails, [overlap_ratio] is the Python int [0], compared with the
    threshold as it is. *)
Definition _check_proximity_thr (bbox1 bbox2 : BBox) (threshold : float64) : bool :=
  let '(x1_min, y1_min, x1_max, y1_max) := bbox1 in
  let '(x2_min, y2_min, x2_max, y2_max) := bbox2 in
  let x_inter_min := Qmax x1_min x2_min in
  let y_inter_min := Qmax y1_min y2_min in
  let x_inter_max := Qmin x1_max x2_max in
  let y_inter_max := Qmin y1_max y2_max in
  if Qltb x_inter_max x_inter_min || Qltb y_inter_max y_inter_min then false
  else
    let inter_area := f32_area x_inter_min y_inter_min x_inter_max y_inter_max in
    let bbox1_area := f32_area x1_min y1_min x1_max y1_max in
    if f32_gt_zero bbox1_area
    then f32_gt_python_float (f32_div inter_area bbox1_area) threshold
    else SpecFloat.SFltb threshold (SpecFloat.S754_zero false).

(** The call with the default [threshold=0.3], the only one in the file. *)
Definition _check_proximity (bbox1 bbox2 : BBox) : bool :=
  _check_proximity_thr bbox1 bbox2 (f64_of_Q (3 # 10)).

(** Python truthiness of a value that is [None] or a string. *)
Definition truthy (o : option string) : bool :=
  match o with
  | None => false
  | Some s => negb (String.eqb s "")
  end.

(** The [ppe_status] dict of one person, with its five keys. *)
Definition ppe_status_init : gmap string bool :=
  <["goggles" := false]> (<["boots" := false]> (<["gloves" := false]>
    (<["vest" := false]> (<["helmet" := false]> ∅)))).

(** [ppe_status.get(ppe, False)] *)
Definition status_get (ppe_status : gmap string bool) (ppe : string) : bool :=
  default false (ppe_status !! ppe).

(** The test made on one detection by the loop "Check for proper PPE near
    person", for the item [ppe_item]. *)
Definition mark_item (person_bbox : BBox) (ppe_item : string)
    (ppe_status : gmap string bool) (det : Detection) : gmap string bool :=
  if String.eqb (det_class det) ppe_item
  then if _check_proximity person_bbox (det_bbox det)
       then <[ppe_item := true]> ppe_status
       else ppe_status
  else ppe_status.

(** The loop over the items, each with its loop over [detection_data]. *)
Definition mark_items (person_bbox : BBox) (detection_data : list Detection)
    (items : list string) (ppe_status : gmap string bool) : gmap string bool :=
  fold_left (fun ppe_status ppe_item =>
    if String.eqb ppe_item "Person" then ppe_status
    else fold_left (mark_item person_bbox ppe_item) detection_data ppe_status)
    items ppe_status.

Definition mark_proper_ppe (person_bbox : BBox) (detection_data : list Detection)
    : gmap string bool :=
  mark_items person_bbox detection_data PPE_PROPER ppe_status_init.

(** The inner loop over [detection_data] for one violation class, up to its
    [break]. *)
Fixpoint scan_detections (violation : string) (person_bbox : BBox)
    (detection_data : list Detection) : option string :=
  match detection_data with
  | [] => None
  | det :: rest =>
      if String.eqb (det_class det) violation && _check_proximity person_bbox (det_bbox det)
      then Some violation
      else scan_detections violation person_bbox rest
  end.

(** The outer loop over the violation classes; [violation_detected] is
    [None] until an inner loop sets it, and the outer loop then breaks. *)
Fixpoint scan_violations (violations : list string) (person_bbox : BBox)
    (detection_data : list Detection) : option string :=
  match violations with
  | [] => None
  | violation :: rest =>
      let violation_detected := scan_detections violation person_bbox detection_data in
      if truthy violation_detected then violation_detected
      else scan_violations rest person_bbox detection_data
  end.

(** One entry of [results_list]. *)
Record PersonResult := mkPersonResult {
  has_violation : bool;
  violation_message : option string;
  ppe_status : gmap string bool;
  confidence : Q;
  bbox : BBox
}.

(** [', '.join(items)] *)
Definition join_comma (items : list string) : string := String.concat ", " items.

(** The body of the loop over [person_detections]. *)
Definition check_person (violation_mode : Z) (detection_data : list Detection)
    (person_det : Detection) : PersonResult :=
  let person_bbox := det_bbox person_det in
  let person_confidence := det_confidence person_det in
  let ppe_status := mark_proper_ppe person_bbox detection_data in
  let violation_detected := scan_violations PPE_VIOLATIONS person_bbox detection_data in
  let '(is_compliant, violation_message) :=
    if (violation_mode =? 1)%Z then
      if truthy violation_detected then
        (false, Some ("Violation detected: " +:+ default "" violation_detected))
      else
        let missing_ppe := filter (fun ppe => status_get ppe_status ppe = false) PPE_PROPER in
        if negb (length missing_ppe =? 0)%nat
        then (false, Some ("Missing PPE: " +:+ join_comma missing_ppe))
        else (true, None)
    else
      if truthy violation_detected &&
         bool_decide (default "" violation_detected ∈ map (fun ppe => "no_" +:+ ppe) REQUIRED_PPE)
      then (false, Some ("Required PPE violation: " +:+ default "" violation_detected))
      else
        let missing_required :=
          filter (fun ppe => status_get ppe_status ppe = false) REQUIRED_PPE in
        if negb (length missing_required =? 0)%nat
        then (false, Some ("Missing required PPE: " +:+ join_comma missing_required))
        else (true, None) in
  {| has_violation := negb is_compliant;
     violation_message := violation_message;
     ppe_status := ppe_status;
     confidence := person_confidence;
     bbox := person_bbox |}.

(** [check_violations]: [detection_data] is the list collected from the
    detector's boxes; one result per detection of class [PERSON_CLASS]. *)
Definition check_violations (violation_mode : Z) (detection_data : list Detection)
    : list PersonResult :=
  let person_detections :=
    filter (fun d => det_class d = PERSON_CLASS) detection_data in
  map (check_person violation_mode detection_data) person_detections.

End Evaluator.

(** ** Identity tracker *)

(** A Python [dict] with integer keys, in insertion order: assigning to a
    present key keeps its place, a new key goes last. *)
Section Dict.
Context {V : Type}.

Fixpoint dict_get (k : Z) (d : list (Z * V)) : option V :=
  match d with
  | [] => None
  | (k', v) :: rest => if (k' =? k)%Z then Some v else dict_get k rest
  end.

Fixpoint dict_set (k : Z) (v : V) (d : list (Z * V)) : list (Z * V) :=
  match d with
  | [] => [(k, v)]
  | (k', v') :: rest =>
      if (k' =? k)%Z then (k, v) :: rest else (k', v') :: dict_set k v rest
  end.

(** [d[k][field] = ...]: the value under a present key is changed in place. *)
Definition dict_alter (f : V → V) (k : Z) (d : list (Z * V)) : list (Z * V) :=
  map (fun kv => if (kv.1 =? k)%Z then (kv.1, f kv.2) else kv) d.

Definition dict_del (k : Z) (d : list (Z * V)) : list (Z * V) :=
  filter (fun kv => kv.1 ≠ k) d.

Definition dict_keys (d : list (Z * V)) : list Z := map fst d.
End Dict.

(** The value stored per tracked person. *)
Record Track := mkTrack {
  centroid : Z * Z;
  frames_missing : Z;
  logged : bool
}.

Record PersonTracker := mkPersonTracker {
  next_id : Z;
  tracked_persons : list (Z * Track);
  max_distance : Z;
  memory_frames : Z
}.

(** [PersonTracker.__init__] *)
Definition PersonTracker_init (max_distance memory_frames : Z) : PersonTracker :=
  {| next_id := 1; tracked_persons := [];
     max_distance := max_distance; memory_frames := memory_frames |}.

Definition set_tracked_persons (d : list (Z * Track)) (t : PersonTracker) : PersonTracker :=
  {| next_id := next_id t; tracked_persons := d;
     max_distance := max_distance t; memory_frames := memory_frames t |}.

(** [_register]: returns the new identity and the tracker after the call. *)
Definition _register (c : Z * Z) (t : PersonTracker) : Z * PersonTracker :=
  let person_id := next_id t in
  (person_id,
   {| next_id := next_id t + 1;
      tracked_persons :=
        dict_set person_id {| centroid := c; frames_missing := 0; logged := false |}
          (tracked_persons t);
      max_distance := max_distance t; memory_frames := memory_frames t |}).

(** [_calculate_distance], as the square of the distance. *)
Definition _calculate_distance (centroid1 centroid2 : Z * Z) : Z :=
  (centroid1.1 - centroid2.1) ^ 2 + (centroid1.2 - centroid2.2) ^ 2.

(** [distance < min_distance], where [None] is [float('inf')]. *)
Definition below_min (distance : Z) (min_distance : option Z) : bool :=
  match min_distance with
  | None => true
  | Some m => distance <? m
  end.

(** [distance < self.max_distance] for a distance given by its square: a
    distance is never negative, so nothing is below a limit of zero or less. *)
Definition below_max (distance : Z) (max_distance : Z) : bool :=
  (0 <? max_distance) && (distance <? max_distance * max_distance).

(** [mark_logged], [is_logged], [get_unique_count], [reset] *)
Definition mark_logged (person_id : Z) (t : PersonTracker) : PersonTracker :=
  set_tracked_persons
    (dict_alter (fun tr => {| centroid := centroid tr; frames_missing := frames_missing tr;
                              logged := true |}) person_id (tracked_persons t)) t.

Definition is_logged (person_id : Z) (t : PersonTracker) : bool :=
  match dict_get person_id (tracked_persons t) with
  | Some tr => logged tr
  | None => false
  end.

Definition get_unique_count (t : PersonTracker) : nat := length (tracked_persons t).

Definition reset (t : PersonTracker) : PersonTracker :=
  {| next_id := 1; tracked_persons := [];
     max_distance := max_distance t; memory_frames := memory_frames t |}.

(** The centroid of an [(x, y, w, h)] box. *)
Definition centroid_of (det : Z * Z * Z * Z) : Z * Z :=
  let '(x, y, w, h) := det in (x + w / 2, y + h / 2).

(** [frames_missing += 1] for one tracked person, then its removal when it
    has been missing for too long, on the dict.  The identities given to it
    are keys of the dict, so the lookup does not fail. *)
Definition age_dict (memory_frames : Z) (person_id : Z) (d : list (Z * Track))
    : list (Z * Track) :=
  let d := dict_alter (fun tr => {| centroid := centroid tr;
                                    frames_missing := frames_missing tr + 1;
                                    logged := logged tr |}) person_id d in
  match dict_get person_id d with
  | Some tr => if memory_frames <? frames_missing tr then dict_del person_id d else d
  | None => d
  end.

Definition age_person (person_id : Z) (t : PersonTracker) : PersonTracker :=
  set_tracked_persons (age_dict (memory_frames t) person_id (tracked_persons t)) t.

(** The inner loop over [enumerate(tracked_ids)]: the running
    [(min_distance, best_match_id)]. *)
Definition best_match (max_distance : Z) (used_tracked_ids : gset Z)
    (tracked_ids : list Z) (tracked_centroids : list (Z * Z))
    (current_centroid : Z * Z) : option Z :=
  snd (fold_left (fun '(min_distance, best_match_id) '(tracked_id, tracked_centroid) =>
         if bool_decide (tracked_id ∈ used_tracked_ids)
         then (min_distance, best_match_id)
         else
           let distance := _calculate_distance current_centroid tracked_centroid in
           if below_min distance min_distance && below_max distance max_distance
           then (Some distance, Some tracked_id)
           else (min_distance, best_match_id))
       (zip tracked_ids tracked_centroids) (None, None)).

(** How an identity of the returned list was obtained: from an existing
    track, or from [_register]. *)
Inductive Assignment :=
  | Matched (person_id : Z)
  | Registered (person_id : Z).

Definition assignment_id (a : Assignment) : Z :=
  match a with Matched i | Registered i => i end.

(** The body of the loop over [current_centroids] in the general case. *)
Definition match_centroid (tracked_ids : list Z) (tracked_centroids : list (Z * Z))
    (acc : list Assignment * gset Z * PersonTracker) (current_centroid : Z * Z)
    : list Assignment * gset Z * PersonTracker :=
  let '(matched_ids, used_tracked_ids, t) := acc in
  match best_match (max_distance t) used_tracked_ids tracked_ids tracked_centroids
          current_centroid with
  | Some best_match_id =>
      (matched_ids ++ [Matched best_match_id],
       {[best_match_id]} ∪ used_tracked_ids,
       set_tracked_persons
         (dict_alter (fun tr => {| centroid := current_centroid; frames_missing := 0;
                                   logged := logged tr |})
            best_match_id (tracked_persons t)) t)
  | None =>
      let '(new_id, t') := _register current_centroid t in
      (matched_ids ++ [Registered new_id], used_tracked_ids, t')
  end.

(** [update], keeping for each returned identity which branch produced it. *)
Definition update_assignments (detections : list (Z * Z * Z * Z)) (t : PersonTracker)
    : list Assignment * PersonTracker :=
  let current_centroids := map centroid_of detections in
  if (length current_centroids =? 0)%nat then
    ([], fold_left (fun t person_id => age_person person_id t)
           (dict_keys (tracked_persons t)) t)
  else if (length (tracked_persons t) =? 0)%nat then
    fold_left (fun '(person_ids, t) c =>
                 let '(new_id, t') := _register c t in
                 (person_ids ++ [Registered new_id], t'))
      current_centroids ([], t)
  else
    let tracked_ids := dict_keys (tracked_persons t) in
    let tracked_centroids :=
      map (fun pid => from_option centroid (0, 0) (dict_get pid (tracked_persons t)))
        tracked_ids in
    let '(matched_ids, used_tracked_ids, t1) :=
      fold_left (match_centroid tracked_ids tracked_centroids) current_centroids
        ([], ∅, t) in
    (matched_ids,
     fold_left (fun t person_id =>
                  if bool_decide (person_id ∈ used_tracked_ids) then t
                  else age_person person_id t)
       tracked_ids t1).

(** [update]: the identities, one per detection. *)
Definition update (detections : list (Z * Z * Z * Z)) (t : PersonTracker)
    : list Z * PersonTracker :=
  let '(assignments, t') := update_assignments detections t in
  (map assignment_id assignments, t').

(** ** Exceptions and state *)

(** The exception followed here: an error of [sqlite3], which no handler
    of the file catches. *)
Inductive Exn :=
  | sqlite3_Error.

(** A computation on a mutable object of type [S]: it ends with a value or
    with a raised exception, and in both cases leaves the object as it was
    at that point. *)
Definition SE (S A : Type) : Type := S → (A + Exn) * S.

Definition se_ret {S A} (a : A) : SE S A := fun s => (inl a, s).

Definition se_bind {S A B} (m : SE S A) (k : A → SE S B) : SE S B :=
  fun s => match m s with
           | (inl a, s') => k a s'
           | (inr e, s') => (inr e, s')
           end.

(** A statement that cannot raise. *)
Definition se_do {S} (f : S → S) : SE S unit := fun s => (inl tt, f s).

Definition se_get {S} : SE S S := fun s => (inl s, s).

#[global] Instance se_mret {S} : MRet (SE S) := fun A => se_ret.
#[global] Instance se_mbind {S} : MBind (SE S) := fun A B k m => se_bind m k.

(** [for x in items: body(x)] *)
Fixpoint se_for {S A} (items : list A) (body : A → SE S unit) : SE S unit :=
  match items with
  | [] => mret tt
  | x :: rest => body x ;; se_for rest body
  end.

(** ** Persistence *)

(** A stored picture: which camera frame it shows, with the detector's
    boxes drawn on it or not. *)
Record Image := mkImage {
  image_frame : Z;
  image_annotated : bool
}.

(** The path built by [save_violation_image]: date directory, person, time. *)
Record ImagePath := mkImagePath {
  path_date : Z;
  path_person_id : Z;
  path_time : Q
}.

(** Rows of the tables [violations], [detections] and [daily_stats]. *)
Record ViolationRow := mkViolationRow {
  v_timestamp : Q;
  v_zone_name : string;
  v_violation_type : option string;
  v_person_id : Z;
  v_confidence : Q;
  v_image_path : ImagePath
}.

Record DetectionRow := mkDetectionRow {
  d_timestamp : Q;
  d_zone_name : string;
  d_person_id : Z;
  d_has_helmet : bool;
  d_has_vest : bool;
  d_has_gloves : bool;
  d_has_boots : bool;
  d_has_goggles : bool;
  d_is_compliant : bool
}.

Record DailyRow := mkDailyRow {
  s_date : Z;
  s_zone_name : string;
  s_total_people : Z;
  s_compliant_people : Z;
  s_violation_people : Z;
  s_compliance_rate : Q
}.

(** The database file.  [storage_faults] scripts the storage: its head tells
    whether the next call of a [Database] method fails ([true]) or goes
    through; once it is used up every call goes through. *)
Record Database := mkDatabase {
  storage_faults : list bool;
  violations : list ViolationRow;
  detections : list DetectionRow;
  daily_stats : list DailyRow
}.

(** The local date of a time in seconds. *)
Definition date_of (now : Q) : Z := Qfloor (now / 86400).

(** [sqlite3.connect] up to [conn.commit()]: the statement [write] is
    applied, or the call raises and the file is as before. *)
Definition db_transaction (write : Database → Database) : SE Database unit :=
  fun d =>
    match storage_faults d with
    | true :: rest =>
        (inr sqlite3_Error,
         {| storage_faults := rest; violations := violations d;
            detections := detections d; daily_stats := daily_stats d |})
    | false :: rest =>
        (inl tt,
         write {| storage_faults := rest; violations := violations d;
                  detections := detections d; daily_stats := daily_stats d |})
    | [] => (inl tt, write d)
    end.

(** [Database.log_violation] *)
Definition log_violation (now : Q) (zone_name : string) (violation_type : option string)
    (person_id : Z) (confidence : Q) (image_path : ImagePath) : SE Database unit :=
  db_transaction (fun d =>
    {| storage_faults := storage_faults d;
       violations := violations d ++
         [{| v_timestamp := now; v_zone_name := zone_name;
             v_violation_type := violation_type; v_person_id := person_id;
             v_confidence := confidence; v_image_path := image_path |}];
       detections := detections d; daily_stats := daily_stats d |}).

(** [Database.log_detection] *)
Definition log_detection (now : Q) (zone_name : string) (person_id : Z)
    (ppe_status : gmap string bool) (is_compliant : bool) : SE Database unit :=
  db_transaction (fun d =>
    {| storage_faults := storage_faults d;
       violations := violations d;
       detections := detections d ++
         [{| d_timestamp := now; d_zone_name := zone_name; d_person_id := person_id;
             d_has_helmet := status_get ppe_status "helmet";
             d_has_vest := status_get ppe_status "vest";
             d_has_gloves := status_get ppe_status "gloves";
             d_has_boots := status_get ppe_status "boots";
             d_has_goggles := status_get ppe_status "goggles";
             d_is_compliant := is_compliant |}];
       daily_stats := daily_stats d |}).

(** [Database.update_daily_stats]: [INSERT OR REPLACE] under the key
    [(date, zone_name)]. *)
Definition update_daily_stats (now : Q) (zone_name : string)
    (total_people compliant_people violation_people : Z) : SE Database unit :=
  let today := date_of now in
  let compliance_rate :=
    if 0 <? total_people
    then (inject_Z compliant_people / inject_Z total_people * 100)%Q
    else 0%Q in
  db_transaction (fun d =>
    {| storage_faults := storage_faults d;
       violations := violations d;
       detections := detections d;
       daily_stats :=
         filter (fun r => ¬ (s_date r = today ∧ s_zone_name r = zone_name)) (daily_stats d) ++
         [{| s_date := today; s_zone_name := zone_name; s_total_people := total_people;
             s_compliant_people := compliant_people;
             s_violation_people := violation_people;
             s_compliance_rate := compliance_rate |}] |}).

(** ** The application object *)

(** [EmailNotifier]: whether its credentials were accepted, and the jobs
    submitted to its thread pool, oldest first. *)
Record EmailJob := mkEmailJob {
  job_time : Q;
  job_violation_message : option string;
  job_session_stats : Z * Z * Z;
  job_image : Image
}.

Record EmailNotifier := mkEmailNotifier {
  enabled : bool;
  executor : list EmailJob
}.

(** [send_email_async] *)
Definition send_email_async (job : EmailJob) (n : EmailNotifier) : EmailNotifier :=
  if negb (enabled n) then n
  else {| enabled := enabled n; executor := executor n ++ [job] |}.

(** A line of the alert log. *)
Inductive LogLine :=
  | AlertLine (timestamp : Q) (violation_message : option string)
  | EmailSentLine (timestamp : Q).

Record App := mkApp {
  timer_active : bool;  (* the [QTimer] that drives [update_frame] is running *)
  last_alert_time : option Q;
  last_email_time : option Q;
  violation_mode : Z;
  current_frame : option Image;  (* the annotated frame kept for notifications *)
  frame_count : Z;
  session_total_people : Z;
  session_compliant : Z;
  session_violations : Z;
  logged_person_ids : gset Z;
  db : Database;
  person_tracker : option PersonTracker;
  email_notifier : EmailNotifier;
  audio_enabled : bool;
  email_enabled_checkbox : bool;
  alert_log : list LogLine;  (* lines of the alert log widget, oldest first *)
  status_label : string * string;  (* text and style sheet of the status line *)
  mixer_played : list Q;  (* times at which the alert sound was started *)
  saved_images : list (ImagePath * Image)  (* files written by [save_violation_image] *)
}.

(** Assignments to one attribute of [self]. *)
Definition set_timer_active (v : bool) (s : App) : App :=
  {| timer_active := v; last_alert_time := last_alert_time s;
     last_email_time := last_email_time s; violation_mode := violation_mode s;
     current_frame := current_frame s; frame_count := frame_count s;
     session_total_people := session_total_people s;
     session_compliant := session_compliant s;
     session_violations := session_violations s;
     logged_person_ids := logged_person_ids s; db := db s;
     person_tracker := person_tracker s; email_notifier := email_notifier s;
     audio_enabled := audio_enabled s;
     email_enabled_checkbox := email_enabled_checkbox s; alert_log := alert_log s;
     status_label := status_label s; mixer_played := mixer_played s;
     saved_images := saved_images s |}.

Definition set_last_alert_time (v : option Q) (s : App) : App :=
  {| timer_active := timer_active s; last_alert_time := v;
     last_email_time := last_email_time s; violation_mode := violation_mode s;
     current_frame := current_frame s; frame_count := frame_count s;
     session_total_people := session_total_people s;
     session_compliant := session_compliant s;
     session_violations := session_violations s;
     logged_person_ids := logged_person_ids s; db := db s;
     person_tracker := person_tracker s; email_notifier := email_notifier s;
     audio_enabled := audio_enabled s;
     email_enabled_checkbox := email_enabled_checkbox s; alert_log := alert_log s;
     status_label := status_label s; mixer_played := mixer_played s;
     saved_images := saved_images s |}.

Definition set_last_email_time (v : option Q) (s : App) : App :=
  {| timer_active := timer_active s; last_alert_time := last_alert_time s;
     last_email_time := v; violation_mode := violation_mode s;
     current_frame := current_frame s; frame_count := frame_count s;
     session_total_people := session_total_people s;
     session_compliant := session_compliant s;
     session_violations := session_violations s;
     logged_person_ids := logged_person_ids s; db := db s;
     person_tracker := person_tracker s; email_notifier := email_notifier s;
     audio_enabled := audio_enabled s;
     email_enabled_checkbox := email_enabled_checkbox s; alert_log := alert_log s;
     status_label := status_label s; mixer_played := mixer_played s;
     saved_images := saved_images s |}.

Definition set_current_frame (v : option Image) (s : App) : App :=
  {| timer_active := timer_active s; last_alert_time := last_alert_time s;
     last_email_time := last_email_time s; violation_mode := violation_mode s;
     current_frame := v; frame_count := frame_count s;
     session_total_people := session_total_people s;
     session_compliant := session_compliant s;
     session_violations := session_violations s;
     logged_person_ids := logged_person_ids s; db := db s;
     person_tracker := person_tracker s; email_notifier := email_notifier s;
     audio_enabled := audio_enabled s;
     email_enabled_checkbox := email_enabled_checkbox s; alert_log := alert_log s;
     status_label := status_label s; mixer_played := mixer_played s;
     saved_images := saved_images s |}.

Definition set_frame_count (v : Z) (s : App) : App :=
  {| timer_active := timer_active s; last_alert_time := last_alert_time s;
     last_email_time := last_email_time s; violation_mode := violation_mode s;
     current_frame := current_frame s; frame_count := v;
     session_total_people := session_total_people s;
     session_compliant := session_compliant s;
     session_violations := session_violations s;
     logged_person_ids := logged_person_ids s; db := db s;
     person_tracker := person_tracker s; email_notifier := email_notifier s;
     audio_enabled := audio_enabled s;
     email_enabled_checkbox := email_enabled_checkbox s; alert_log := alert_log s;
     status_label := status_label s; mixer_played := mixer_played s;
     saved_images := saved_images s |}.

Definition set_session_total_people (v : Z) (s : App) : App :=
  {| timer_active := timer_active s; last_alert_time := last_alert_time s;
     last_email_time := last_email_time s; violation_mode := violation_mode s;
     current_frame := current_frame s; frame_count := frame_count s;
     session_total_people := v; session_compliant := session_compliant s;
     session_violations := session_violations s;
     logged_person_ids := logged_person_ids s; db := db s;
     person_tracker := person_tracker s; email_notifier := email_notifier s;
     audio_enabled := audio_enabled s;
     email_enabled_checkbox := email_enabled_checkbox s; alert_log := alert_log s;
     status_label := status_label s; mixer_played := mixer_played s;
     saved_images := saved_images s |}.

Definition set_session_compliant (v : Z) (s : App) : App :=
  {| timer_active := timer_active s; last_alert_time := last_alert_time s;
     last_email_time := last_email_time s; violation_mode := violation_mode s;
     current_frame := current_frame s; frame_count := frame_count s;
     session_total_people := session_total_people s; session_compliant := v;
     session_violations := session_violations s;
     logged_person_ids := logged_person_ids s; db := db s;
     person_tracker := person_tracker s; email_notifier := email_notifier s;
     audio_enabled := audio_enabled s;
     email_enabled_checkbox := email_enabled_checkbox s; alert_log := alert_log s;
     status_label := status_label s; mixer_played := mixer_played s;
     saved_images := saved_images s |}.

Definition set_session_violations (v : Z) (s : App) : App :=
  {| timer_active := timer_active s; last_alert_time := last_alert_time s;
     last_email_time := last_email_time s; violation_mode := violation_mode s;
     current_frame := current_frame s; frame_count := frame_count s;
     session_total_people := session_total_people s;
     session_compliant := session_compliant s; session_violations := v;
     logged_person_ids := logged_person_ids s; db := db s;
     person_tracker := person_tracker s; email_notifier := email_notifier s;
     audio_enabled := audio_enabled s;
     email_enabled_checkbox := email_enabled_checkbox s; alert_log := alert_log s;
     status_label := status_label s; mixer_played := mixer_played s;
     saved_images := saved_images s |}.

Definition set_logged_person_ids (v : gset Z) (s : App) : App :=
  {| timer_active := timer_active s; last_alert_time := last_alert_time s;
     last_email_time := last_email_time s; violation_mode := violation_mode s;
     current_frame := current_frame s; frame_count := frame_count s;
     session_total_people := session_total_people s;
     session_compliant := session_compliant s;
     session_violations := session_violations s; logged_person_ids := v; db := db s;
     person_tracker := person_tracker s; email_notifier := email_notifier s;
     audio_enabled := audio_enabled s;
     email_enabled_checkbox := email_enabled_checkbox s; alert_log := alert_log s;
     status_label := status_label s; mixer_played := mixer_played s;
     saved_images := saved_images s |}.

Definition set_db (v : Database) (s : App) : App :=
  {| timer_active := timer_active s; last_alert_time := last_alert_time s;
     last_email_time := last_email_time s; violation_mode := violation_mode s;
     current_frame := current_frame s; frame_count := frame_count s;
     session_total_people := session_total_people s;
     session_compliant := session_compliant s;
     session_violations := session_violations s;
     logged_person_ids := logged_person_ids s; db := v;
     person_tracker := person_tracker s; email_notifier := email_notifier s;
     audio_enabled := audio_enabled s;
     email_enabled_checkbox := email_enabled_checkbox s; alert_log := alert_log s;
     status_label := status_label s; mixer_played := mixer_played s;
     saved_images := saved_images s |}.

Definition set_person_tracker (v : option PersonTracker) (s : App) : App :=
  {| timer_active := timer_active s; last_alert_time := last_alert_time s;
     last_email_time := last_email_time s; violation_mode := violation_mode s;
     current_frame := current_frame s; frame_count := frame_count s;
     session_total_people := session_total_people s;
     session_compliant := session_compliant s;
     session_violations := session_violations s;
     logged_person_ids := logged_person_ids s; db := db s; person_tracker := v;
     email_notifier := email_notifier s; audio_enabled := audio_enabled s;
     email_enabled_checkbox := email_enabled_checkbox s; alert_log := alert_log s;
     status_label := status_label s; mixer_played := mixer_played s;
     saved_images := saved_images s |}.

Definition set_email_notifier (v : EmailNotifier) (s : App) : App :=
  {| timer_active := timer_active s; last_alert_time := last_alert_time s;
     last_email_time := last_email_time s; violation_mode := violation_mode s;
     current_frame := current_frame s; frame_count := frame_count s;
     session_total_people := session_total_people s;
     session_compliant := session_compliant s;
     session_violations := session_violations s;
     logged_person_ids := logged_person_ids s; db := db s;
     person_tracker := person_tracker s; email_notifier := v;
     audio_enabled := audio_enabled s;
     email_enabled_checkbox := email_enabled_checkbox s; alert_log := alert_log s;
     status_label := status_label s; mixer_played := mixer_played s;
     saved_images := saved_images s |}.

Definition set_alert_log (v : list LogLine) (s : App) : App :=
  {| timer_active := timer_active s; last_alert_time := last_alert_time s;
     last_email_time := last_email_time s; violation_mode := violation_mode s;
     current_frame := current_frame s; frame_count := frame_count s;
     session_total_people := session_total_people s;
     session_compliant := session_compliant s;
     session_violations := session_violations s;
     logged_person_ids := logged_person_ids s; db := db s;
     person_tracker := person_tracker s; email_notifier := email_notifier s;
     audio_enabled := audio_enabled s;
     email_enabled_checkbox := email_enabled_checkbox s; alert_log := v;
     status_label := status_label s; mixer_played := mixer_played s;
     saved_images := saved_images s |}.

Definition set_status_label (v : string * string) (s : App) : App :=
  {| timer_active := timer_active s; last_alert_time := last_alert_time s;
     last_email_time := last_email_time s; violation_mode := violation_mode s;
     current_frame := current_frame s; frame_count := frame_count s;
     session_total_people := session_total_people s;
     session_compliant := session_compliant s;
     session_violations := session_violations s;
     logged_person_ids := logged_person_ids s; db := db s;
     person_tracker := person_tracker s; email_notifier := email_notifier s;
     audio_enabled := audio_enabled s;
     email_enabled_checkbox := email_enabled_checkbox s; alert_log := alert_log s;
     status_label := v; mixer_played := mixer_played s;
     saved_images := saved_images s |}.

Definition set_mixer_played (v : list Q) (s : App) : App :=
  {| timer_active := timer_active s; last_alert_time := last_alert_time s;
     last_email_time := last_email_time s; violation_mode := violation_mode s;
     current_frame := current_frame s; frame_count := frame_count s;
     session_total_people := session_total_people s;
     session_compliant := session_compliant s;
     session_violations := session_violations s;
     logged_person_ids := logged_person_ids s; db := db s;
     person_tracker := person_tracker s; email_notifier := email_notifier s;
     audio_enabled := audio_enabled s;
     email_enabled_checkbox := email_enabled_checkbox s; alert_log := alert_log s;
     status_label := status_label s; mixer_played := v;
     saved_images := saved_images s |}.

Definition set_saved_images (v : list (ImagePath * Image)) (s : App) : App :=
  {| timer_active := timer_active s; last_alert_time := last_alert_time s;
     last_email_time := last_email_time s; violation_mode := violation_mode s;
     current_frame := current_frame s; frame_count := frame_count s;
     session_total_people := session_total_people s;
     session_compliant := session_compliant s;
     session_violations := session_violations s;
     logged_person_ids := logged_person_ids s; db := db s;
     person_tracker := person_tracker s; email_notifier := email_notifier s;
     audio_enabled := audio_enabled s;
     email_enabled_checkbox := email_enabled_checkbox s; alert_log := alert_log s;
     status_label := status_label s; mixer_played := mixer_played s;
     saved_images := v |}.
(** [PPEDetectionApp.__init__], for the attributes kept here. *)
Definition App_init (storage : Database) (notifier_enabled audio email_checkbox : bool) : App :=
  {| timer_active := false; last_alert_time := None; last_email_time := None;
     violation_mode := VIOLATION_MODE; current_frame := None; frame_count := 0;
     session_total_people := 0; session_compliant := 0; session_violations := 0;
     logged_person_ids := ∅; db := storage;
     person_tracker :=
       if PERSON_TRACKING_ENABLED
       then Some (PersonTracker_init TRACKING_DISTANCE_THRESHOLD TRACKING_MEMORY_FRAMES)
       else None;
     email_notifier := {| enabled := notifier_enabled; executor := [] |};
     audio_enabled := audio; email_enabled_checkbox := email_checkbox;
     alert_log := []; status_label := ("", ""); mixer_played := [];
     saved_images := [] |}.

(** A call of a [Database] method on [self.db]. *)
Definition on_db {A} (m : SE Database A) : SE App A :=
  fun s => let '(r, d) := m (db s) in (r, set_db d s).

(** ** Alerts *)

(** The cooldown test of both channels: [last] is the time of the last
    alert if there was one, and the test is [time_diff < cooldown]. *)
Definition in_cooldown (last : option Q) (current_time cooldown : Q) : bool :=
  match last with
  | Some last_time =>
      let time_diff := (current_time - last_time)%Q in
      Qltb time_diff cooldown
  | None => false
  end.

(** "Send email asynchronously (non-blocking) with image", the end of
    [send_email_notification]. *)
Definition dispatch_email (current_time : Q) (violation_message : option string)
    (s : App) : App :=
  match current_frame s with
  | Some frame =>
      let job := {| job_time := current_time;
                    job_violation_message := violation_message;
                    job_session_stats :=
                      (session_total_people s, session_compliant s, session_violations s);
                    job_image := frame |} in
      let s := set_email_notifier (send_email_async job (email_notifier s)) s in
      set_alert_log (alert_log s ++ [EmailSentLine current_time]) s
  | None => s
  end.

(** [send_email_notification]; [now] is the value of [get_local_now()]. *)
Definition send_email_notification (now : Q) (violation_message : option string)
    (s : App) : App :=
  if negb (email_enabled_checkbox s) then s
  else
    let current_time := now in
    if in_cooldown (last_email_time s) current_time EMAIL_COOLDOWN then s
    else
      let s := set_last_email_time (Some current_time) s in
      dispatch_email current_time violation_message s.

(** "Play audio alert" *)
Definition play_alert (current_time : Q) (s : App) : App :=
  if audio_enabled s
  then set_mixer_played (mixer_played s ++ [current_time]) s
  else s.

(** [trigger_alert]; both it and the nested [send_email_notification] read
    the clock, and get the same [now] here. *)
Definition trigger_alert (now : Q) (violation_message : option string) (s : App) : App :=
  let current_time := now in
  if in_cooldown (last_alert_time s) current_time ALERT_COOLDOWN then s
  else
    let s := set_last_alert_time (Some current_time) s in
    let s := set_alert_log (alert_log s ++ [AlertLine current_time violation_message]) s in
    let s := play_alert current_time s in
    let s := send_email_notification now violation_message s in
    set_status_label
      ("Status: VIOLATION DETECTED - " +:+ default "None" violation_message,
       "color: red; font-weight: bold;") s.

(** ** Session start and stop *)

(** [start_detection]; [opened] is [self.cap.isOpened()] after the capture
    was created. *)
Definition start_detection (opened : bool) (s : App) : App :=
  if negb opened
  then set_status_label ("Status: Error - Cannot open video source", (status_label s).2) s
  else
    let s := set_session_total_people 0 s in
    let s := set_session_compliant 0 s in
    let s := set_session_violations 0 s in
    let s := set_logged_person_ids ∅ s in
    let s := match person_tracker s with
             | Some t => set_person_tracker (Some (reset t)) s
             | None => s
             end in
    let s := set_status_label ("Status: Detection running...", (status_label s).2) s in
    set_timer_active true s.

(** [stop_detection] *)
Definition stop_detection (now : Q) : SE App unit :=
  se_do (set_timer_active false) ;;
  se_do (fun s => set_status_label ("Status: Detection stopped", (status_label s).2) s) ;;
  s ← se_get;
  if 0 <? session_total_people s
  then on_db (update_daily_stats now CAMERA_ZONE_NAME (session_total_people s)
                (session_compliant s) (session_violations s))
  else mret tt.

(** ** The frame step *)

(** What one tick of the timer reads from outside: the capture's
    [(ret, frame)], whether the frame handed to the detector has pixels, the
    detector's boxes, and the clock. *)
Record FrameInput := mkFrameInput {
  ret : bool;
  frame : Z;
  detection_frame_nonempty : bool;
  detection_data : list Detection;
  now : Q
}.

(** [int(x)] of a float: rounding toward zero. *)
Definition int_of (x : Q) : Z := Z.quot (Qnum x) (Z.pos (Qden x)).

(** "Convert to x, y, w, h format" *)
Definition to_xywh (v_result : PersonResult) : Z * Z * Z * Z :=
  let '(x1, y1, x2, y2) := bbox v_result in
  (int_of x1, int_of y1,
   int_of (f32_value (f32_sub (f32_of_Q x2) (f32_of_Q x1))),
   int_of (f32_value (f32_sub (f32_of_Q y2) (f32_of_Q y1)))).

(** [save_violation_image] *)
Definition save_violation_image (now : Q) (picture : Image) (person_id : Z)
    : SE App ImagePath :=
  let filepath := {| path_date := date_of now; path_person_id := person_id;
                     path_time := now |} in
  se_do (fun s => set_saved_images (saved_images s ++ [(filepath, picture)]) s) ;;
  mret filepath.

(** "Update person tracker": the identities of this frame's persons. *)
Definition assign_person_ids (person_bboxes : list (Z * Z * Z * Z)) (s : App)
    : list Z * App :=
  match person_tracker s with
  | Some t =>
      if (0 <? length person_bboxes)%nat
      then let '(person_ids, t') := update person_bboxes t in
           (person_ids, set_person_tracker (Some t') s)
      else (map Z.of_nat (seq 0 (length person_bboxes)), s)
  | None => (map Z.of_nat (seq 0 (length person_bboxes)), s)
  end.

(** The body of the loop "Process each detected person". *)
Definition process_person (now : Q) (original_frame : Image) (person_ids : list Z)
    (entry : nat * PersonResult) : SE App unit :=
  let '(i, v_result) := entry in
  let person_id := default (Z.of_nat i) (person_ids !! i) in
  s ← se_get;
  if bool_decide (person_id ∈ logged_person_ids s) then mret tt
  else
    se_do (fun s => set_logged_person_ids ({[person_id]} ∪ logged_person_ids s) s) ;;
    se_do (fun s => set_session_total_people (session_total_people s + 1) s) ;;
    (if has_violation v_result then
       se_do (fun s => set_session_violations (session_violations s + 1) s) ;;
       image_path ← save_violation_image now original_frame person_id;
       on_db (log_violation now CAMERA_ZONE_NAME (violation_message v_result) person_id
                (confidence v_result) image_path) ;;
       se_do (trigger_alert now (violation_message v_result))
     else
       se_do (fun s => set_session_compliant (session_compliant s + 1) s)) ;;
    on_db (log_detection now CAMERA_ZONE_NAME person_id (ppe_status v_result)
             (negb (has_violation v_result))).

(** [enumerate(items)] *)
Definition enumerate {A} (items : list A) : list (nat * A) :=
  zip (seq 0 (length items)) items.

Section FrameStep.
Context {numpy : NumPy}.

(** [update_frame], without the drawing and the display of the picture. *)
Definition update_frame (inp : FrameInput) : SE App unit :=
  if negb (ret inp) then stop_detection (now inp)
  else
    se_do (fun s => set_frame_count (frame_count s + 1) s) ;;
    let original_frame := {| image_frame := frame inp; image_annotated := false |} in
    if detection_frame_nonempty inp then
      s ← se_get;
      let violation_results := check_violations (violation_mode s) (detection_data inp) in
      let person_bboxes := map to_xywh violation_results in
      person_ids ← (fun s => let '(ids, s') := assign_person_ids person_bboxes s in
                             (inl ids, s'));
      let annotated_frame := {| image_frame := frame inp; image_annotated := true |} in
      se_do (set_current_frame (Some annotated_frame)) ;;
      se_for (enumerate violation_results)
        (process_person (now inp) original_frame person_ids) ;;
      (if forallb (fun v => negb (has_violation v)) violation_results
       then se_do (set_status_label ("Status: Detection running... No violations", ""))
       else mret tt)
    else mret tt.

End FrameStep.


(** ** Reading the daily statistics *)

(** The dict returned by [get_today_stats], with its keys [total_people],
    [compliant], [violations] and [compliance_rate]. *)
Record TodayStats := mkTodayStats {
  ts_total_people : Z;
  ts_compliant : Z;
  ts_violations : Z;
  ts_compliance_rate : Q
}.

(** [sqlite3.connect] up to [conn.close()] around a [SELECT]: the query
    [read] is answered, or the call raises; the tables are as before. *)
Definition db_query {A} (read : Database → A) : SE Database A :=
  fun d =>
    match storage_faults d with
    | true :: rest =>
        (inr sqlite3_Error,
         {| storage_faults := rest; violations := violations d;
            detections := detections d; daily_stats := daily_stats d |})
    | false :: rest =>
        let d := {| storage_faults := rest; violations := violations d;
                    detections := detections d; daily_stats := daily_stats d |} in
        (inl (read d), d)
    | [] => (inl (read d), d)
    end.

(** [Database.get_today_stats]: [fetchone()] gives the first row of the
    day and zone, or [None]. *)
Definition get_today_stats (now : Q) (zone_name : string) : SE Database TodayStats :=
  let today := date_of now in
  db_query (fun d =>
    match filter (fun r => s_date r = today ∧ s_zone_name r = zone_name) (daily_stats d) with
    | result :: _ =>
        {| ts_total_people := s_total_people result;
           ts_compliant := s_compliant_people result;
           ts_violations := s_violation_people result;
           ts_compliance_rate := s_compliance_rate result |}
    | [] =>
        {| ts_total_people := 0; ts_compliant := 0; ts_violations := 0;
           ts_compliance_rate := 0 |}
    end).

(** ** Region of interest *)

(** The exception of a division by zero. *)
Inductive ArithExn :=
  | ZeroDivisionError.

Section Roi.

(** The truth value of a [QPoint], which the binding decides. *)
Variable QPoint_bool : Z * Z → bool.

(** [roi_start] and [roi_end] are [None] or a point. *)
Definition roi_point_truthy (p : option (Z * Z)) : bool :=
  match p with
  | None => false
  | Some q => QPoint_bool q
  end.

(** [VideoLabel.get_roi_coordinates]; [label_width] and [label_height] are
    [self.width()] and [self.height()]. *)
Definition get_roi_coordinates (roi_start roi_end : option (Z * Z))
    (label_width label_height frame_width frame_height : Z)
    : option (Z * Z * Z * Z) + ArithExn :=
  if negb (roi_point_truthy roi_start && roi_point_truthy roi_end) then inl None
  else
    match roi_start, roi_end with
    | Some roi_start, Some roi_end =>
        if (label_width =? 0)%Z then inr ZeroDivisionError
        else
          let scale_x := (inject_Z frame_width / inject_Z label_width)%Q in
          if (label_height =? 0)%Z then inr ZeroDivisionError
          else
            let scale_y := (inject_Z frame_height / inject_Z label_height)%Q in
            let x1 := int_of (inject_Z (Z.min roi_start.1 roi_end.1) * scale_x) in
            let y1 := int_of (inject_Z (Z.min roi_start.2 roi_end.2) * scale_y) in
            let x2 := int_of (inject_Z (Z.max roi_start.1 roi_end.1) * scale_x) in
            let y2 := int_of (inject_Z (Z.max roi_start.2 roi_end.2) * scale_y) in
            let x1 := Z.max 0 (Z.min x1 frame_width) in
            let y1 := Z.max 0 (Z.min y1 frame_height) in
            let x2 := Z.max 0 (Z.min x2 frame_width) in
            let y2 := Z.max 0 (Z.min y2 frame_height) in
            inl (Some (x1, y1, x2, y2))
    | _, _ => inl None
    end.

End Roi.

(** * Properties *)

#[local] Set Warnings "-clear-no-such-hyp".

(** ** Vocabulary of the compliance properties *)

(** The area of a box and the area two boxes share. *)
Definition bbox_area (b : BBox) : Q :=
  let '(x_min, y_min, x_max, y_max) := b in ((x_max - x_min) * (y_max - y_min))%Q.

Definition intersection_area (b1 b2 : BBox) : Q :=
  let '(x1_min, y1_min, x1_max, y1_max) := b1 in
  let '(x2_min, y2_min, x2_max, y2_max) := b2 in
  (Qmax 0 (Qmin x1_max x2_max - Qmax x1_min x2_min) *
   Qmax 0 (Qmin y1_max y2_max - Qmax y1_min y2_min))%Q.

(** Intersection over the person's box. *)
Definition overlap_ratio (person other : BBox) : Q :=
  (intersection_area person other / bbox_area person)%Q.

(** The two boxes meet: their ranges overlap, or touch, on both axes. *)
Definition boxes_meet (b1 b2 : BBox) : Prop :=
  let '(x1_min, y1_min, x1_max, y1_max) := b1 in
  let '(x2_min, y2_min, x2_max, y2_max) := b2 in
  (Qmax x1_min x2_min <= Qmin x1_max x2_max ∧
   Qmax y1_min y2_min <= Qmin y1_max y2_max)%Q.

(** The corners [_check_proximity] takes for the intersection. *)
Definition intersection_box (b1 b2 : BBox) : BBox :=
  let '(x1_min, y1_min, x1_max, y1_max) := b1 in
  let '(x2_min, y2_min, x2_max, y2_max) := b2 in
  (Qmax x1_min x2_min, Qmax y1_min y2_min, Qmin x1_max x2_max, Qmin y1_max y2_max).

(** The area of a box as float32 arithmetic gives it, and the float32
    quotient of the two computed areas. *)
Definition computed_area (b : BBox) : float32 :=
  let '(x_min, y_min, x_max, y_max) := b in f32_area x_min y_min x_max y_max.

Definition computed_ratio (person other : BBox) : float32 :=
  f32_div (computed_area (intersection_box person other)) (computed_area person).

(** A float32 that is a number, not an infinity or NaN. *)
Definition f32_finite (x : float32) : Prop :=
  match x with
  | SpecFloat.S754_zero _ | SpecFloat.S754_finite _ _ _ => True
  | _ => False
  end.

(** A float32 that is a zero or NaN. *)
Definition f32_null (x : float32) : Prop :=
  match x with
  | SpecFloat.S754_zero _ | SpecFloat.S754_nan => True
  | _ => False
  end.

(** The Python float [0.3] and the float32 nearest to it. *)
Definition threshold_f64 : float64 := f64_of_Q (3 # 10).
Definition threshold_f32 : float32 := f32_of_f64 threshold_f64.

(** A box without interior: of zero area, or with a corner pair out of order. *)
Definition degenerate (b : BBox) : Prop :=
  let '(x_min, y_min, x_max, y_max) := b in (x_max <= x_min ∨ y_max <= y_min)%Q.

Section EvaluatorVocabulary.
Context {numpy : NumPy}.

(** The detection [d] is associated with the person whose box is given. *)
Definition associated (person_bbox : BBox) (d : Detection) : Prop :=
  _check_proximity person_bbox (det_bbox d) = true.

(** Some detection of class [class_name] is associated with the person. *)
Definition class_associated (person_bbox : BBox) (detection_data : list Detection)
    (class_name : string) : Prop :=
  ∃ d, d ∈ detection_data ∧ det_class d = class_name ∧ associated person_bbox d.

(** [v] is the first class of [classes] with an associated detection. *)
Definition first_associated_class (person_bbox : BBox) (detection_data : list Detection)
    (classes : list string) (v : string) : Prop :=
  ∃ pre post, classes = pre ++ v :: post ∧
    class_associated person_bbox detection_data v ∧
    Forall (fun u => ¬ class_associated person_bbox detection_data u) pre.

(** The detections of class [PERSON_CLASS] of a frame. *)
Definition persons (detection_data : list Detection) : list Detection :=
  filter (fun d => det_class d = PERSON_CLASS) detection_data.

(** The reading of the association rule over exact areas: the ratio of the
    exact intersection area to the exact person area is above 3/10. *)
Definition association_by_exact_ratio : Prop :=
  ∀ (p : BBox) (d : Detection),
    associated p d ↔ (3 # 10 < overlap_ratio p (det_bbox d))%Q.

(** The reading of the Mode A precedence rule under which every associated
    violation class would be the reason given. *)
Definition every_associated_violation_is_reason : Prop :=
  ∀ dets p d,
    p ∈ dets → det_class p = PERSON_CLASS →
    d ∈ dets → det_class d ∈ PPE_VIOLATIONS → associated (det_bbox p) d →
    has_violation (check_person 1 dets p) = true ∧
    violation_message (check_person 1 dets p) =
      Some ("Violation detected: " +:+ det_class d).

(** The rule that a detection with a degenerate box is left out of the
    evaluation, whatever its class. *)
Definition degenerate_detection_dropped : Prop :=
  ∀ mode pre d post,
    degenerate (det_bbox d) →
    check_violations mode (pre ++ d :: post) = check_violations mode (pre ++ post).

End EvaluatorVocabulary.

(** Sample detections. *)
Definition sample_person : Detection := mkDetection "Person" (9 # 10) (0, 0, 100, 200)%Q.
Definition sample_helmet : Detection := mkDetection "helmet" (9 # 10) (10, 10, 90, 60)%Q.
Definition sample_no_gloves : Detection :=
  mkDetection "no_gloves" (8 # 10) (0, 0, 100, 200)%Q.
Definition sample_no_helmet : Detection :=
  mkDetection "no_helmet" (8 # 10) (0, 0, 100, 100)%Q.
Definition sample_flat_person : Detection :=
  mkDetection "Person" (9 # 10) (10, 10, 10, 50)%Q.
Definition sample_flat_helmet : Detection :=
  mkDetection "helmet" (9 # 10) (20, 20, 20, 40)%Q.

(** Boxes at the threshold: the exact ratio is 3/10 for the first two pairs
    and above it for the third. *)
Definition sample_tie_person : BBox := (0, 0, 10, 10)%Q.
Definition sample_tie_other : BBox := (0, 0, 3, 10)%Q.
Definition sample_rounded_up_person : BBox := (0, 0, 3310, 16947)%Q.
Definition sample_rounded_up_other : BBox := (0, 0, 2317, 7263)%Q.
Definition sample_rounded_down_person : BBox := (0, 0, 4923 # 2, 3529 # 2)%Q.
Definition sample_rounded_down_other : BBox := (0, 0, 5459 # 4, 3819 # 4)%Q.


(** ** Vocabulary of the tracker properties *)

(** The identities that [_register] handed out, in order. *)
Definition registered (assignments : list Assignment) : list Z :=
  omap (fun a => match a with Registered i => Some i | Matched _ => None end) assignments.

(** The operations made on a tracker during the life of the process. *)
Inductive TrackerOp :=
  | OpUpdate (detections : list (Z * Z * Z * Z))
  | OpReset.

(** The identities assigned to new tracks by a sequence of operations, and
    the tracker after it. *)
Fixpoint run_tracker (ops : list TrackerOp) (t : PersonTracker) : list Z * PersonTracker :=
  match ops with
  | [] => ([], t)
  | OpUpdate detections :: rest =>
      let '(assignments, t') := update_assignments detections t in
      let '(ids, t'') := run_tracker rest t' in
      (registered assignments ++ ids, t'')
  | OpReset :: rest => run_tracker rest (reset t)
  end.

Definition strictly_increasing (ids : list Z) : Prop := StronglySorted Z.lt ids.

(** Identities never repeat over the life of the process, resets included. *)
Definition identities_never_reused : Prop :=
  ∀ (max_distance memory_frames : Z) (ops : list TrackerOp),
    let ids := (run_tracker ops (PersonTracker_init max_distance memory_frames)).1 in
    strictly_increasing ids ∧ NoDup ids.

(** The state a tracker object is kept in: its keys are distinct and below
    the next identity, its counters within the memory window, which is not
    negative. *)
Record tracker_wf (t : PersonTracker) : Prop := {
  wf_keys_nodup : NoDup (dict_keys (tracked_persons t));
  wf_keys_below : Forall (fun k => k < next_id t) (dict_keys (tracked_persons t));
  wf_memory : 0 ≤ memory_frames t
}.

(** *** The greedy matching, in the words of its description *)

(** A track that this frame has not used yet: none of the identities
    already given out in the frame is its own. *)
Definition unused_track (given : list Z) (t : PersonTracker) (pid : Z) (tr : Track) : Prop :=
  (pid, tr) ∈ tracked_persons t ∧ pid ∉ given.

(** The distance from [c] to the track is strictly below the threshold. *)
Definition within_threshold (t : PersonTracker) (c : Z * Z) (tr : Track) : Prop :=
  below_max (_calculate_distance c (centroid tr)) (max_distance t) = true.

(** A matched track takes the centroid and has its counter reset. *)
Definition rematch (c : Z * Z) (pid : Z) (t : PersonTracker) : PersonTracker :=
  set_tracked_persons
    (dict_alter (fun tr => {| centroid := c; frames_missing := 0; logged := logged tr |})
       pid (tracked_persons t)) t.

(** One centroid: it goes to a nearest unused track within the threshold, or
    else to a new track. *)
Inductive greedy_step (given : list Z) (t : PersonTracker) (c : Z * Z)
    : Z → PersonTracker → Prop :=
  | greedy_match pid tr :
      unused_track given t pid tr →
      within_threshold t c tr →
      (∀ pid' tr', unused_track given t pid' tr' → within_threshold t c tr' →
         _calculate_distance c (centroid tr) ≤ _calculate_distance c (centroid tr')) →
      greedy_step given t c pid (rematch c pid t)
  | greedy_register :
      (∀ pid' tr', unused_track given t pid' tr' → ¬ within_threshold t c tr') →
      greedy_step given t c (next_id t) (_register c t).2.

(** The centroids in order; [given] collects the identities. *)
Inductive greedy_run : list Z → PersonTracker → list (Z * Z) → list Z → PersonTracker → Prop :=
  | greedy_done given t : greedy_run given t [] given t
  | greedy_next given t c cs pid t1 given' t' :
      greedy_step given t c pid t1 →
      greedy_run (given ++ [pid]) t1 cs given' t' →
      greedy_run given t (c :: cs) given' t'.

Definition missing_once (tr : Track) : Track :=
  {| centroid := centroid tr; frames_missing := frames_missing tr + 1; logged := logged tr |}.

(** After the matching: the counter of each track whose identity was not
    given out goes up by one, and the tracks whose counter exceeds the
    memory window go. *)
Definition age_unmatched (given : list Z) (t : PersonTracker) : PersonTracker :=
  set_tracked_persons
    (filter (fun kv => frames_missing kv.2 ≤ memory_frames t)
       (map (fun kv => if bool_decide (kv.1 ∈ given) then kv else (kv.1, missing_once kv.2))
          (tracked_persons t))) t.


(** Sample trackers. *)
Definition sample_tracker : PersonTracker :=
  (update [(0, 0, 10, 10); (100, 100, 10, 10)]
     (PersonTracker_init TRACKING_DISTANCE_THRESHOLD TRACKING_MEMORY_FRAMES)).2.

(** The last of the three cases of [update], which the first two are
    instances of. *)
Definition update_general (detections : list (Z * Z * Z * Z)) (t : PersonTracker)
    : list Assignment * PersonTracker :=
  let current_centroids := map centroid_of detections in
  let tracked_ids := dict_keys (tracked_persons t) in
  let tracked_centroids :=
    map (fun pid => from_option centroid (0, 0) (dict_get pid (tracked_persons t)))
      tracked_ids in
  let '(matched_ids, used_tracked_ids, t1) :=
    fold_left (match_centroid tracked_ids tracked_centroids) current_centroids
      ([], ∅, t) in
  (matched_ids,
   fold_left (fun t person_id =>
                if bool_decide (person_id ∈ used_tracked_ids) then t
                else age_person person_id t)
     tracked_ids t1).

(** Identities in increasing order, all in [[lo, hi)]. *)
Definition ids_between (lo hi : Z) (ids : list Z) : Prop :=
  strictly_increasing ids ∧ Forall (fun i => lo ≤ i < hi) ids.

(** The identities given out so far in a frame. *)
Definition given_ids (ms : list Assignment) : list Z := map assignment_id ms.

(** The pairs that the inner loop enumerates. *)
Definition snapshot (t : PersonTracker) : list (Z * (Z * Z)) :=
  map (fun kv => (kv.1, centroid kv.2)) (tracked_persons t).

(** What holds between the tracker [t0] at the start of [update] and the
    state of the matching loop. *)
Record match_inv (t0 : PersonTracker) (ms : list Assignment) (used : gset Z)
    (t : PersonTracker) : Prop := {
  inv_nodup : NoDup (dict_keys (tracked_persons t));
  inv_below : Forall (fun k => k < next_id t) (dict_keys (tracked_persons t));
  inv_next : next_id t0 ≤ next_id t;
  inv_max : max_distance t = max_distance t0;
  inv_mem : memory_frames t = memory_frames t0;
  inv_given : ∀ k, k ∈ given_ids ms ↔ k ∈ used ∨ next_id t0 ≤ k < next_id t;
  inv_used : ∀ k, k ∈ used → k ∈ dict_keys (tracked_persons t0);
  inv_keys : ∀ k, k ∈ dict_keys (tracked_persons t) ↔
                  k ∈ dict_keys (tracked_persons t0) ∨ next_id t0 ≤ k < next_id t;
  inv_same : ∀ k, k ∈ dict_keys (tracked_persons t0) → k ∉ used →
                  dict_get k (tracked_persons t) = dict_get k (tracked_persons t0);
  inv_zero : ∀ k tr, dict_get k (tracked_persons t) = Some tr → k ∈ given_ids ms →
                     frames_missing tr = 0
}.

(** What the ageing loop does to one entry of the dict, for the keys that
    [sel] picks. *)
Definition age_entry (mem : Z) (sel : Z → bool) (kv : Z * Track) : option (Z * Track) :=
  if sel kv.1
  then if mem <? frames_missing kv.2 + 1 then None else Some (kv.1, missing_once kv.2)
  else Some kv.

(** The inner loop of the matching, for the centroid [c]: a pair the loop may
    pick, its body, and what its running minimum stands for after the pairs
    [seen]. *)
Definition match_candidate (md : Z) (used : gset Z) (c : Z * Z) (z : Z * (Z * Z)) : Prop :=
  (fst z ∉ used) ∧ below_max (_calculate_distance c (snd z)) md = true.

Definition match_step (md : Z) (used : gset Z) (c : Z * Z)
    : option Z * option Z → Z * (Z * Z) → option Z * option Z :=
  fun '(min_distance, best_match_id) '(tracked_id, tracked_centroid) =>
    if bool_decide (tracked_id ∈ used) then (min_distance, best_match_id)
    else
      let distance := _calculate_distance c tracked_centroid in
      if below_min distance min_distance && below_max distance md
      then (Some distance, Some tracked_id)
      else (min_distance, best_match_id).

Definition match_good (md : Z) (used : gset Z) (c : Z * Z)
    (seen : list (Z * (Z * Z))) (acc : option Z * option Z) : Prop :=
  match acc with
  | (None, None) => ∀ z, z ∈ seen → ¬ match_candidate md used c z
  | (Some dm, Some pid) =>
      ∃ cz, (pid, cz) ∈ seen ∧ match_candidate md used c (pid, cz) ∧
            dm = _calculate_distance c cz ∧
            ∀ z, z ∈ seen → match_candidate md used c z →
                 dm ≤ _calculate_distance c (snd z)
  | _ => False
  end.

(** ** Vocabulary of the alert properties *)

(** The two alert channels: the sound, and the email. *)
Inductive Channel :=
  | Audio
  | Email.

Definition last_fired (ch : Channel) (s : App) : option Q :=
  match ch with
  | Audio => last_alert_time s
  | Email => last_email_time s
  end.

Definition set_last_fired (ch : Channel) (now : Q) (s : App) : App :=
  match ch with
  | Audio => set_last_alert_time (Some now) s
  | Email => set_last_email_time (Some now) s
  end.

Definition cooldown (ch : Channel) : Q :=
  match ch with
  | Audio => ALERT_COOLDOWN
  | Email => EMAIL_COOLDOWN
  end.

(** The function that fires a channel. *)
Definition trigger (ch : Channel) (now : Q) (violation_message : option string)
    (s : App) : App :=
  match ch with
  | Audio => trigger_alert now violation_message s
  | Email => send_email_notification now violation_message s
  end.

(** What a firing channel does once its last-fired time is set. *)
Definition dispatch (ch : Channel) (now : Q) (violation_message : option string)
    (s : App) : App :=
  match ch with
  | Audio =>
      let s := set_alert_log (alert_log s ++ [AlertLine now violation_message]) s in
      let s := play_alert now s in
      let s := send_email_notification now violation_message s in
      set_status_label
        ("Status: VIOLATION DETECTED - " +:+ default "None" violation_message,
         "color: red; font-weight: bold;") s
  | Email => dispatch_email now violation_message s
  end.

(** The number of dispatches made on a channel so far: sounds started,
    jobs submitted to the thread pool. *)
Definition dispatched (ch : Channel) (s : App) : nat :=
  match ch with
  | Audio => length (mixer_played s)
  | Email => length (executor (email_notifier s))
  end.

(** The channel is switched on and has what it needs to dispatch. *)
Definition operational (ch : Channel) (s : App) : Prop :=
  match ch with
  | Audio => audio_enabled s = true
  | Email => email_enabled_checkbox s = true ∧ enabled (email_notifier s) = true ∧
             is_Some (current_frame s)
  end.

(** The channel never fired, or at least its cooldown ago. *)
Definition ready (ch : Channel) (now : Q) (s : App) : Prop :=
  match last_fired ch s with
  | None => True
  | Some last => (cooldown ch <= now - last)%Q
  end.

(** The email channel taken as gated by its own cooldown only, whatever the
    audio channel's state. *)
Definition email_independent_of_audio : Prop :=
  ∀ s now violation_message,
    operational Email s → ready Email now s →
    dispatched Email (trigger_alert now violation_message s) = S (dispatched Email s).

(** A running application with a stored frame and both channels on. *)
Definition sample_app : App :=
  set_current_frame (Some {| image_frame := 1; image_annotated := true |})
    (start_detection true (App_init (mkDatabase [] [] [] []) true true true)).
Section SessionVocabulary.
Context {numpy : NumPy}.

(** ** Vocabulary of the session properties *)

(** The session counters agree with each other and with the logged set. *)
Definition ledger_inv (s : App) : Prop :=
  session_total_people s = session_compliant s + session_violations s ∧
  session_total_people s = Z.of_nat (size (logged_person_ids s)).

(** What happens to the application: the start button, a tick of the timer
    while it runs, the stop button. *)
Inductive AppEvent :=
  | EvStart (opened : bool)
  | EvFrame (inp : FrameInput)
  | EvStop (now : Q).

(** An exception that leaves a slot is reported by the event loop, which
    goes on with the object as the slot left it. *)
Definition app_step (ev : AppEvent) (s : App) : App :=
  match ev with
  | EvStart opened => start_detection opened s
  | EvFrame inp => if timer_active s then (update_frame inp s).2 else s
  | EvStop now => (stop_detection now s).2
  end.

Definition run_app (evs : list AppEvent) (s : App) : App :=
  fold_left (fun s ev => app_step ev s) evs s.

(** The identity under which the [i]-th person of a frame is processed. *)
Definition person_id_at (person_ids : list Z) (i : nat) : Z :=
  default (Z.of_nat i) (person_ids !! i).

(** The identities that "Update person tracker" produces for a frame. *)
Definition frame_person_ids (inp : FrameInput) (s : App) : list Z :=
  if ret inp && detection_frame_nonempty inp
  then (assign_person_ids
          (map to_xywh (check_violations (violation_mode s) (detection_data inp))) s).1
  else [].

(** The application when the loop over the persons of a frame starts, and
    the body of that loop. *)
Definition frame_loop_start (inp : FrameInput) (s : App) : App :=
  set_current_frame (Some {| image_frame := frame inp; image_annotated := true |})
    (assign_person_ids
       (map to_xywh (check_violations (violation_mode s) (detection_data inp)))
       (set_frame_count (frame_count s + 1) s)).2.

Definition frame_body (inp : FrameInput) (s : App) : nat * PersonResult → SE App unit :=
  process_person (now inp) {| image_frame := frame inp; image_annotated := false |}
    (frame_person_ids inp s).

(** The frames of a session in order: all identities produced for them,
    and the application after the last. *)
Fixpoint run_frames (inps : list FrameInput) (s : App) : list Z * App :=
  match inps with
  | [] => ([], s)
  | inp :: rest =>
      let '(ids, s') := run_frames rest (update_frame inp s).2 in
      (frame_person_ids inp s ++ ids, s')
  end.

(** The counting of a newly seen person. *)
Definition count_person (person_id : Z) (violating : bool) (s : App) : App :=
  let s := set_logged_person_ids ({[person_id]} ∪ logged_person_ids s) s in
  let s := set_session_total_people (session_total_people s + 1) s in
  if violating
  then set_session_violations (session_violations s + 1) s
  else set_session_compliant (session_compliant s + 1) s.

(** The part of the application that the alerts write. *)
Definition alert_state (s : App)
    : option Q * option Q * list LogLine * list Q * list EmailJob * (string * string) :=
  (last_alert_time s, last_email_time s, alert_log s, mixer_played s,
   executor (email_notifier s), status_label s).

(** The rows written for a newly seen person. *)
Definition detection_row (now : Q) (person_id : Z) (v_result : PersonResult) : DetectionRow :=
  {| d_timestamp := now; d_zone_name := CAMERA_ZONE_NAME; d_person_id := person_id;
     d_has_helmet := status_get (ppe_status v_result) "helmet";
     d_has_vest := status_get (ppe_status v_result) "vest";
     d_has_gloves := status_get (ppe_status v_result) "gloves";
     d_has_boots := status_get (ppe_status v_result) "boots";
     d_has_goggles := status_get (ppe_status v_result) "goggles";
     d_is_compliant := negb (has_violation v_result) |}.

Definition violation_row (now : Q) (person_id : Z) (v_result : PersonResult) : ViolationRow :=
  {| v_timestamp := now; v_zone_name := CAMERA_ZONE_NAME;
     v_violation_type := violation_message v_result; v_person_id := person_id;
     v_confidence := confidence v_result;
     v_image_path := {| path_date := date_of now; path_person_id := person_id;
                        path_time := now |} |}.

(** The picture saved for a violating person. *)
Definition violation_image (now : Q) (orig : Image) (person_id : Z) : ImagePath * Image :=
  ({| path_date := date_of now; path_person_id := person_id; path_time := now |}, orig).

(** The tables of [d'] are those of [d]. *)
Definition tables_unchanged (d d' : Database) : Prop :=
  violations d' = violations d ∧ detections d' = detections d ∧
  daily_stats d' = daily_stats d.

(** What a session has reached, with [d0] and [v0] the tables at its start
    and [ids] the identities produced so far. *)
Record session_inv (d0 : list DetectionRow) (v0 : list ViolationRow) (ids : list Z)
    (s : App) : Prop := {
  si_ledger : ledger_inv s;
  si_logged : ∀ k, k ∈ logged_person_ids s → k ∈ ids;
  si_detections : ∃ rows, detections (db s) = d0 ++ rows ∧
                          NoDup (map d_person_id rows) ∧
                          ∀ r, r ∈ rows → d_person_id r ∈ logged_person_ids s;
  si_violations : ∃ rows, violations (db s) = v0 ++ rows ∧
                          NoDup (map v_person_id rows) ∧
                          ∀ r, r ∈ rows → v_person_id r ∈ logged_person_ids s
}.

(** No storage error leaves the frame step. *)
Definition storage_errors_contained : Prop :=
  ∀ inp s, ∃ s', update_frame inp s = (inl tt, s').

(** A frame with one person without a helmet, and an application whose
    storage fails at the next call. *)
Definition sample_frame : FrameInput :=
  {| ret := true; frame := 1; detection_frame_nonempty := true;
     detection_data := [sample_person; sample_no_helmet]; now := 0 |}.

Definition sample_app_failing : App :=
  start_detection true (App_init (mkDatabase [true] [] [] []) true true true).

(** An application whose storage fails at the second call from now. *)
Definition sample_app_failing_second : App :=
  start_detection true (App_init (mkDatabase [false; true] [] [] []) true true true).

(** A newly seen person has been counted, whatever became of its records. *)
Record person_counted (person_id : Z) (violating : bool) (s s' : App) : Prop := {
  pc_logged : logged_person_ids s' = {[person_id]} ∪ logged_person_ids s;
  pc_total : session_total_people s' = session_total_people s + 1;
  pc_compliant : session_compliant s' = session_compliant s + (if violating then 0 else 1);
  pc_violations : session_violations s' = session_violations s + (if violating then 1 else 0);
  pc_timer : timer_active s' = timer_active s;
  pc_tracker : person_tracker s' = person_tracker s;
  pc_mode : violation_mode s' = violation_mode s;
  pc_daily : daily_stats (db s') = daily_stats (db s)
}.

(** The part of the application that the session properties speak of. *)
Definition session_view (s : App)
    : Z * Z * Z * gset Z * list DetectionRow * list ViolationRow :=
  (session_total_people s, session_compliant s, session_violations s,
   logged_person_ids s, detections (db s), violations (db s)).

End SessionVocabulary.


(** ** Vocabulary of the further properties *)

(** A box with its corners in order. *)
Definition ordered (b : BBox) : Prop :=
  let '(x_min, y_min, x_max, y_max) := b in (x_min <= x_max ∧ y_min <= y_max)%Q.

(** The box [outer] covers the box [inner]. *)
Definition covers (outer inner : BBox) : Prop :=
  let '(a_min, b_min, a_max, b_max) := outer in
  let '(x_min, y_min, x_max, y_max) := inner in
  (a_min <= x_min ∧ b_min <= y_min ∧ x_max <= a_max ∧ y_max <= b_max)%Q.

(** The track of [person_id] sits at the centroid [c] and was seen in the
    last frame. *)
Definition tracked_at (t : PersonTracker) (person_id : Z) (c : Z * Z) : Prop :=
  ∃ tr, dict_get person_id (tracked_persons t) = Some tr ∧
        centroid tr = c ∧ frames_missing tr = 0.

(** A track that went unseen for [n] more frames. *)
Definition missing_for (n : Z) (tr : Track) : Track :=
  {| centroid := centroid tr; frames_missing := frames_missing tr + n; logged := logged tr |}.

(** [n] calls of [update] in a row without any box. *)
Definition empty_frames (n : nat) (t : PersonTracker) : PersonTracker :=
  Nat.iter n (fun t => (update [] t).2) t.

(** No two tracks sit at the same centroid. *)
Definition separated (t : PersonTracker) : Prop :=
  NoDup (map (fun kv => centroid kv.2) (tracked_persons t)).

(** What holds during the matching of a frame, between the tracker [t0] at
    the start of [update] and the tracker [t] after the centroids [done],
    which were given the identities [given]. *)
Record frame_inv (t0 : PersonTracker) (given : list Z) (done : list (Z * Z))
    (t : PersonTracker) : Prop := {
  fi_nodup : NoDup (dict_keys (tracked_persons t));
  fi_below : Forall (fun k => k < next_id t) (dict_keys (tracked_persons t));
  fi_next : next_id t0 ≤ next_id t;
  fi_max : max_distance t = max_distance t0;
  fi_mem : memory_frames t = memory_frames t0;
  fi_given : NoDup given;
  fi_at : Forall2 (fun pid c => ∃ tr, (pid, tr) ∈ tracked_persons t ∧
                                      centroid tr = c ∧ frames_missing tr = 0) given done;
  fi_logged : ∀ k tr, (k, tr) ∈ tracked_persons t → logged tr = is_logged k t0;
  fi_count : (length (tracked_persons t) ≤ length (tracked_persons t0) + length given)%nat
}.

(** A property of the application that no assignment to a field other
    than those of the alerts breaks, nor the storing of an annotated frame,
    nor an alert. *)
Record step_closed (P : App → Prop) : Prop := {
  sc_timer_active : ∀ v s, P s → P (set_timer_active v s);
  sc_frame_count : ∀ v s, P s → P (set_frame_count v s);
  sc_session_total_people : ∀ v s, P s → P (set_session_total_people v s);
  sc_session_compliant : ∀ v s, P s → P (set_session_compliant v s);
  sc_session_violations : ∀ v s, P s → P (set_session_violations v s);
  sc_logged_person_ids : ∀ v s, P s → P (set_logged_person_ids v s);
  sc_db : ∀ v s, P s → P (set_db v s);
  sc_person_tracker : ∀ v s, P s → P (set_person_tracker v s);
  sc_status_label : ∀ v s, P s → P (set_status_label v s);
  sc_saved_images : ∀ v s, P s → P (set_saved_images v s);
  sc_current_frame : ∀ f s, P s → P (set_current_frame (Some f) s);
  sc_trigger_alert : ∀ now msg s, P s → P (trigger_alert now msg s)
}.

(** The times of the alert lines of the log, of the sounds, and of the
    email jobs. *)
Definition alert_times (s : App) : list Q :=
  omap (fun l => match l with AlertLine t _ => Some t | EmailSentLine _ => None end)
    (alert_log s).

Definition job_times (s : App) : list Q := map job_time (executor (email_notifier s)).

(** Consecutive times are at least [gap] apart. *)
Fixpoint spaced (gap : Q) (times : list Q) : Prop :=
  match times with
  | [] => True
  | t1 :: rest =>
      match rest with [] => True | t2 :: _ => (gap <= t2 - t1)%Q end ∧ spaced gap rest
  end.

(** The record of a channel: its dispatches are spaced, and as soon as
    there is one the channel is [live] and its last-fired time is the time
    of the last dispatch. *)
Definition channel_record (gap : Q) (live : Prop) (last : option Q) (times : list Q)
    : Prop :=
  spaced gap times ∧ ∀ t, list.last times = Some t → live ∧ last = Some t.

Record alerts_inv (s : App) : Prop := {
  ai_log : channel_record ALERT_COOLDOWN True (last_alert_time s) (alert_times s);
  ai_sound : channel_record ALERT_COOLDOWN (audio_enabled s = true) (last_alert_time s)
               (mixer_played s);
  ai_email : channel_record EMAIL_COOLDOWN
               (enabled (email_notifier s) = true ∧ is_Some (current_frame s))
               (last_email_time s) (job_times s)
}.

(** What the alerts have written so far. *)
Definition alert_history (s : App)
    : option Q * option Q * list LogLine * list Q * list EmailJob :=
  (last_alert_time s, last_email_time s, alert_log s, mixer_played s,
   executor (email_notifier s)).

(** Sounds and email jobs come with an alert line of the same time, and a
    channel that is switched off has dispatched nothing. *)
Record dispatch_inv (s : App) : Prop := {
  di_sound : mixer_played s `sublist_of` alert_times s;
  di_email : job_times s `sublist_of` alert_times s;
  di_audio_off : audio_enabled s = false → mixer_played s = [];
  di_notifier_off : enabled (email_notifier s) = false → executor (email_notifier s) = [];
  di_checkbox_off : email_enabled_checkbox s = false → executor (email_notifier s) = []
}.

(** The counters of a session agree, and none is negative. *)
Definition counters_ok (s : App) : Prop :=
  ledger_inv s ∧ 0 ≤ session_compliant s ∧ 0 ≤ session_violations s.

(** A row of the daily statistics as a session with consistent counters
    writes it. *)
Definition daily_row_ok (r : DailyRow) : Prop :=
  s_zone_name r = CAMERA_ZONE_NAME ∧ 0 < s_total_people r ∧
  s_total_people r = s_compliant_people r + s_violation_people r ∧
  0 ≤ s_compliant_people r ∧ 0 ≤ s_violation_people r ∧
  s_compliance_rate r =
    (inject_Z (s_compliant_people r) / inject_Z (s_total_people r) * 100)%Q ∧
  (0 <= s_compliance_rate r <= 100)%Q.

(** A frame with one person wearing all five items. *)
Definition sample_frame_compliant : FrameInput :=
  {| ret := true; frame := 2; detection_frame_nonempty := true;
     detection_data :=
       sample_person ::
       map (fun item => mkDetection item (9 # 10) (0, 0, 100, 200)%Q) PPE_PROPER;
     now := 10 |}.

(** With the storage working, the tables have grown since the start of the
    session by what its counters say: [d0] and [v0] are the numbers of rows
    at the start. *)
Definition rows_inv (d0 v0 : nat) (s : App) : Prop :=
  storage_faults (db s) = [] ∧
  Z.of_nat (length (detections (db s))) = Z.of_nat d0 + session_total_people s ∧
  Z.of_nat (length (violations (db s))) = Z.of_nat v0 + session_violations s.

(** The rows of the daily statistics are those of [rows0] or agree with a
    session's counters; the counters agree. *)
Definition daily_inv (rows0 : list DailyRow) (s : App) : Prop :=
  counters_ok s ∧ ∀ r, r ∈ daily_stats (db s) → r ∈ rows0 ∨ daily_row_ok r.
(** * Proofs *)

(** A decidable closed fact, by evaluation. *)
Ltac by_compute := apply (bool_decide_unpack _); vm_compute; exact I.

(** ** float32 arithmetic *)

(** Equal rationals are read as the same float32. *)
Lemma f32_of_Q_proper (a b : Q) : (a == b)%Q → f32_of_Q a = f32_of_Q b.
Proof. intros E. unfold f32_of_Q. by rewrite (Qred_complete a b E). Qed.

(** The difference of a float32 with itself is a zero, or NaN for an
    infinity; a zero or NaN stays one through a product, and through a
    quotient by a positive float32. *)
Lemma f32_sub_diag (x : float32) : f32_null (f32_sub x x).
Proof.
  destruct x as [[]|[]| |s m e]; try exact I.
  unfold f32_sub, SpecFloat.SFsub. rewrite Z.sub_diag. exact I.
Qed.

Lemma f32_mul_null_l (x y : float32) : f32_null x → f32_null (f32_mul x y).
Proof. destruct x as [[]|[]| |[] m e], y as [[]|[]| |[] m' e']; simpl; done. Qed.

Lemma f32_mul_null_r (x y : float32) : f32_null y → f32_null (f32_mul x y).
Proof. destruct x as [[]|[]| |[] m e], y as [[]|[]| |[] m' e']; simpl; done. Qed.

Lemma f32_div_null (x y : float32) :
  f32_null x → f32_gt_zero y = true → f32_null (f32_div x y).
Proof. destruct x as [[]|[]| |[] m e], y as [[]|[]| |[] m' e']; simpl; done. Qed.

(** Neither a zero nor NaN is above the threshold, under either rule. *)
Lemma f32_gt_python_float_null {numpy : NumPy} (x : float32) :
  f32_null x → f32_gt_python_float x threshold_f64 = false.
Proof.
  intros Hx. destruct x as [s|s| |s m e]; try (by destruct Hx);
    destruct numpy as [[]]; try destruct s; vm_compute; reflexivity.
Qed.

Lemma threshold_not_negative :
  SpecFloat.SFltb threshold_f64 (SpecFloat.S754_zero false) = false.
Proof. reflexivity. Qed.

(** The quotient of a positive float32 by itself is [1.0]. *)
Lemma f32_div_diag (m : positive) (e : Z) :
  f32_div (SpecFloat.S754_finite false m e) (SpecFloat.S754_finite false m e)
  = SpecFloat.S754_finite false 8388608 (-23).
Proof.
  unfold f32_div, SpecFloat.SFdiv, SpecFloat.SFdiv_core_binary.
  rewrite !Z.sub_diag.
  change (Z.min (SpecFloat.fexp 24 128 0) 0) with (-24).
  change (0 - -24) with 24.
  cbv beta iota zeta.
  assert (E : Z.div_eucl (Z.shiftl (Z.pos m) 24) (Z.pos m) = (16777216, 0)).
  { pose proof (Z.div_eucl_eq (Z.shiftl (Z.pos m) 24) (Z.pos m)) as H1.
    pose proof (Z.mod_pos_bound (Z.shiftl (Z.pos m) 24) (Z.pos m)) as H2.
    unfold Z.modulo in H2.
    destruct (Z.div_eucl _ _) as [q r]. rewrite Z.shiftl_mul_pow2 in H1 by lia.
    change (2 ^ 24) with 16777216 in H1.
    assert (q = 16777216) by nia. subst q. f_equal. lia. }
  rewrite E. unfold SpecFloat.new_location.
  destruct (Z.even (Z.pos m)); reflexivity.
Qed.

(** [1.0] is above the threshold, under either rule. *)
Lemma f32_one_gt_threshold {numpy : NumPy} :
  f32_gt_python_float (SpecFloat.S754_finite false 8388608 (-23)) threshold_f64 = true.
Proof. destruct numpy as [[]]; vm_compute; reflexivity. Qed.

Section EvaluatorFacts.
Context {numpy : NumPy}.

(** ** Compliance evaluator *)

Lemma Qltb_lt (a b : Q) : Qltb a b = true ↔ (a < b)%Q.
Proof.
  unfold Qltb. rewrite negb_true_iff. split.
  - intros H. apply Qnot_le_lt. intros Hle. apply Qle_bool_iff in Hle. congruence.
  - intros H. destruct (Qle_bool b a) eqn:E; [|done].
    apply Qle_bool_iff in E. exfalso. eapply Qlt_not_le; eauto.
Qed.

Lemma Qltb_ge (a b : Q) : Qltb a b = false ↔ (b <= a)%Q.
Proof. unfold Qltb. rewrite negb_false_iff. apply Qle_bool_iff. Qed.

(** The test of [_check_proximity]: the boxes meet, the computed area of the
    person's box is positive, and the computed ratio is above the threshold
    as NumPy compares them. *)
Lemma check_proximity_iff (p d : BBox) :
  _check_proximity p d = true ↔
  boxes_meet p d ∧ f32_gt_zero (computed_area p) = true ∧
  f32_gt_python_float (computed_ratio p d) threshold_f64 = true.
Proof.
  destruct p as [[[x1 y1] x2] y2], d as [[[a1 b1] a2] b2].
  unfold _check_proximity, _check_proximity_thr, boxes_meet, computed_ratio,
    computed_area, intersection_box. fold threshold_f64.
  destruct (Qltb (Qmin x2 a2) (Qmax x1 a1)) eqn:Ex; cbn [orb].
  { apply Qltb_lt in Ex. split; [done|]. intros [[Hx _] _]. lra. }
  destruct (Qltb (Qmin y2 b2) (Qmax y1 b1)) eqn:Ey; cbn [orb].
  { apply Qltb_lt in Ey. split; [done|]. intros [[_ Hy] _]. lra. }
  apply Qltb_ge in Ex, Ey.
  destruct (f32_gt_zero (f32_area x1 y1 x2 y2)) eqn:EA.
  - tauto.
  - rewrite threshold_not_negative. split; [done|]. intros (_ & HA & _). done.
Qed.

(** Two boxes of which one is degenerate share no area. *)
Lemma intersection_area_degenerate (p d : BBox) :
  degenerate p ∨ degenerate d → (intersection_area p d == 0)%Q.
Proof.
  destruct p as [[[x1 y1] x2] y2], d as [[[a1 b1] a2] b2].
  unfold intersection_area, degenerate.
  pose proof (Q.le_min_l x2 a2). pose proof (Q.le_max_l x1 a1).
  pose proof (Q.le_min_r x2 a2). pose proof (Q.le_max_r x1 a1).
  pose proof (Q.le_min_l y2 b2). pose proof (Q.le_max_l y1 b1).
  pose proof (Q.le_min_r y2 b2). pose proof (Q.le_max_r y1 b1).
  intros [[Hd|Hd]|[Hd|Hd]].
  - assert (Qmax 0 (Qmin x2 a2 - Qmax x1 a1) == 0)%Q as ->; [apply Q.max_l; lra|ring].
  - assert (Qmax 0 (Qmin y2 b2 - Qmax y1 b1) == 0)%Q as ->; [apply Q.max_l; lra|ring].
  - assert (Qmax 0 (Qmin x2 a2 - Qmax x1 a1) == 0)%Q as ->; [apply Q.max_l; lra|ring].
  - assert (Qmax 0 (Qmin y2 b2 - Qmax y1 b1) == 0)%Q as ->; [apply Q.max_l; lra|ring].
Qed.

(** The computed area of the intersection with a degenerate box, when the
    boxes meet at all, is a zero or NaN: one of its sides is the difference
    of a float32 with itself. *)
Lemma computed_area_degenerate (p d : BBox) :
  degenerate p ∨ degenerate d → boxes_meet p d →
  f32_null (computed_area (intersection_box p d)).
Proof.
  destruct p as [[[x1 y1] x2] y2], d as [[[a1 b1] a2] b2].
  unfold degenerate, boxes_meet, computed_area, intersection_box, f32_area.
  pose proof (Q.le_min_l x2 a2). pose proof (Q.le_max_l x1 a1).
  pose proof (Q.le_min_r x2 a2). pose proof (Q.le_max_r x1 a1).
  pose proof (Q.le_min_l y2 b2). pose proof (Q.le_max_l y1 b1).
  pose proof (Q.le_min_r y2 b2). pose proof (Q.le_max_r y1 b1).
  intros Hd [Hx Hy].
  assert (Hside : (Qmin x2 a2 == Qmax x1 a1 ∨ Qmin y2 b2 == Qmax y1 b1)%Q).
  { destruct Hd as [[Hd|Hd]|[Hd|Hd]]; [left|right|left|right]; lra. }
  destruct Hside as [E|E]; rewrite (f32_of_Q_proper _ _ E).
  - apply f32_mul_null_l, f32_sub_diag.
  - apply f32_mul_null_r, f32_sub_diag.
Qed.

Lemma check_proximity_degenerate (p d : BBox) :
  degenerate p ∨ degenerate d → _check_proximity p d = false.
Proof.
  intros Hd. destruct (_check_proximity p d) eqn:E; [|done]. exfalso.
  apply check_proximity_iff in E as (Hm & HA & Hr).
  rewrite f32_gt_python_float_null in Hr; [done|].
  apply f32_div_null; [|done]. by apply computed_area_degenerate.
Qed.

(** *** The status map *)

Lemma mark_item_get p item st dets x :
  status_get (fold_left (mark_item p item) dets st) x = true ↔
  status_get st x = true ∨ (x = item ∧ class_associated p dets item).
Proof.
  revert st. induction dets as [|d dets IH]; intros st; simpl.
  - split; [auto|]. intros [H|[_ (d & Hd & _)]]; [done|]. by apply elem_of_nil in Hd.
  - rewrite IH. unfold mark_item, class_associated, associated.
    destruct (String.eqb (det_class d) item) eqn:Ec.
    + apply String.eqb_eq in Ec.
      destruct (_check_proximity p (det_bbox d)) eqn:Ep.
      * unfold status_get. destruct (decide (x = item)) as [->|Hne].
        -- rewrite lookup_insert_eq. simpl. split; [|auto].
           intros _. right. split; [done|]. exists d. set_solver.
        -- rewrite lookup_insert_ne by done. split.
           ++ intros [H|[H _]]; [auto|done].
           ++ intros [H|[H _]]; [auto|done].
      * split.
        -- intros [H|[H (d' & Hd' & Hc & Ha)]]; [auto|]. right. split; [done|].
           exists d'. set_solver.
        -- intros [H|[H (d' & Hd' & Hc & Ha)]]; [auto|]. right. split; [done|].
           exists d'. apply elem_of_cons in Hd' as [->|Hd']; [congruence|]. auto.
    + apply String.eqb_neq in Ec. split.
      * intros [H|[H (d' & Hd' & Hc & Ha)]]; [auto|]. right. split; [done|].
        exists d'. set_solver.
      * intros [H|[H (d' & Hd' & Hc & Ha)]]; [auto|]. right. split; [done|].
        exists d'. apply elem_of_cons in Hd' as [->|Hd']; [congruence|]. auto.
Qed.

Lemma mark_items_get p dets items st x :
  status_get (mark_items p dets items st) x = true ↔
  status_get st x = true ∨ (x ∈ items ∧ x ≠ "Person" ∧ class_associated p dets x).
Proof.
  unfold mark_items. revert st. induction items as [|it items IH]; intros st; simpl.
  - split; [auto|]. intros [H|[H _]]; [done|]. by apply elem_of_nil in H.
  - rewrite IH. destruct (String.eqb it "Person") eqn:Ep.
    + apply String.eqb_eq in Ep. subst it. split.
      * intros [H|(H1 & H2 & H3)]; [auto|]. right. set_solver.
      * intros [H|(H1 & H2 & H3)]; [auto|]. right. set_solver.
    + apply String.eqb_neq in Ep. rewrite mark_item_get. split.
      * intros [[H|[-> H]]|(H1 & H2 & H3)]; [auto| |].
        -- right. set_solver.
        -- right. set_solver.
      * intros [H|(H1 & H2 & H3)]; [auto|].
        apply elem_of_cons in H1 as [->|H1]; [left; right; done|]. right. done.
Qed.

(** A flag of the status map is set exactly for the proper-PPE classes with
    an associated detection. *)
Lemma mark_proper_ppe_get p dets x :
  status_get (mark_proper_ppe p dets) x = true ↔
  x ∈ PPE_PROPER ∧ class_associated p dets x.
Proof.
  unfold mark_proper_ppe. rewrite mark_items_get. split.
  - intros [H|(H1 & H2 & H3)]; [|done]. exfalso. revert H.
    unfold status_get, ppe_status_init.
    repeat (rewrite lookup_insert; case_decide; [simpl; done|]).
    rewrite lookup_empty. done.
  - intros [H1 H2]. right. split; [done|]. split; [|done].
    intros ->. revert H1. unfold PPE_PROPER. set_solver.
Qed.

(** *** The violation scan *)

Lemma scan_detections_cases v p dets :
  (scan_detections v p dets = Some v ∧ class_associated p dets v) ∨
  (scan_detections v p dets = None ∧ ¬ class_associated p dets v).
Proof.
  induction dets as [|d dets IH]; simpl.
  - right. split; [done|]. intros (d & Hd & _). by apply elem_of_nil in Hd.
  - destruct (String.eqb (det_class d) v && _check_proximity p (det_bbox d)) eqn:E.
    + apply andb_true_iff in E as [Ec Ep]. apply String.eqb_eq in Ec.
      left. split; [done|]. exists d. split; [set_solver|]. done.
    + destruct IH as [[-> Ha]|[-> Hn]].
      * left. split; [done|]. destruct Ha as (d' & Hd' & Hc'). exists d'. set_solver.
      * right. split; [done|]. intros (d' & Hd' & Hc' & Ha').
        apply elem_of_cons in Hd' as [->|Hd'].
        -- apply andb_false_iff in E as [E|E].
           ++ apply String.eqb_neq in E. done.
           ++ unfold associated in Ha'. congruence.
        -- apply Hn. exists d'. done.
Qed.

Lemma scan_violations_first vs p dets :
  Forall (fun v => v ≠ "") vs →
  (∃ v, scan_violations vs p dets = Some v ∧ first_associated_class p dets vs v) ∨
  (scan_violations vs p dets = None ∧ Forall (fun u => ¬ class_associated p dets u) vs).
Proof.
  induction 1 as [|v vs Hv Hvs IH]; simpl.
  - right. split; [done|]. constructor.
  - destruct (scan_detections_cases v p dets) as [[-> Ha]|[-> Hn]]; simpl.
    + destruct (String.eqb v "") eqn:E; [apply String.eqb_eq in E; done|]. simpl.
      left. exists v. split; [done|]. exists [], vs. split; [done|]. split; [done|constructor].
    + destruct IH as [(u & -> & pre & post & -> & Hu & Hpre)|[-> Hall]].
      * left. exists u. split; [done|]. exists (v :: pre), post.
        split; [done|]. split; [done|]. by constructor.
      * right. split; [done|]. by constructor.
Qed.

Lemma PPE_VIOLATIONS_nonempty : Forall (fun v => v ≠ "") PPE_VIOLATIONS.
Proof. unfold PPE_VIOLATIONS. repeat constructor; done. Qed.

Lemma first_associated_class_unique p dets vs v w :
  first_associated_class p dets vs v →
  (∀ u, u ∈ vs → class_associated p dets u → u = w) → v = w.
Proof.
  intros (pre & post & -> & Ha & _) Huniq. apply Huniq; [set_solver|done].
Qed.

Lemma check_person_in_results mode dets p :
  p ∈ dets → det_class p = PERSON_CLASS →
  check_person mode dets p ∈ check_violations mode dets.
Proof.
  intros Hin Hc. unfold check_violations. apply list_elem_of_fmap.
  exists p. split; [done|]. apply list_elem_of_filter. done.
Qed.

End EvaluatorFacts.

Section EvaluatorResults.
Context {numpy : NumPy}.

(** *** A detection that is associated with nobody *)

Lemma mark_item_inert p item st d :
  _check_proximity p (det_bbox d) = false → mark_item p item st d = st.
Proof. intros H. unfold mark_item. rewrite H. by destruct (String.eqb _ _). Qed.

Lemma mark_items_insert p pre d post items st :
  _check_proximity p (det_bbox d) = false →
  mark_items p (pre ++ d :: post) items st = mark_items p (pre ++ post) items st.
Proof.
  intros H. unfold mark_items. revert st.
  induction items as [|it items IH]; intros st; simpl; [done|].
  rewrite !fold_left_app. simpl. rewrite (mark_item_inert _ _ _ _ H). apply IH.
Qed.

Lemma scan_detections_insert v p pre d post :
  _check_proximity p (det_bbox d) = false →
  scan_detections v p (pre ++ d :: post) = scan_detections v p (pre ++ post).
Proof.
  intros H. induction pre as [|x pre IH]; simpl.
  - rewrite H, andb_false_r. done.
  - rewrite IH. done.
Qed.

Lemma scan_violations_insert vs p pre d post :
  _check_proximity p (det_bbox d) = false →
  scan_violations vs p (pre ++ d :: post) = scan_violations vs p (pre ++ post).
Proof.
  intros H. induction vs as [|v vs IH]; simpl; [done|].
  rewrite (scan_detections_insert _ _ _ _ _ H), IH. done.
Qed.

Lemma check_person_insert mode pre d post p :
  _check_proximity (det_bbox p) (det_bbox d) = false →
  check_person mode (pre ++ d :: post) p = check_person mode (pre ++ post) p.
Proof.
  intros H. unfold check_person, mark_proper_ppe.
  rewrite (mark_items_insert _ _ _ _ _ _ H), (scan_violations_insert _ _ _ _ _ H). done.
Qed.

(** A person with no associated detection at all. *)
Lemma mark_items_none p dets items st :
  (∀ d, d ∈ dets → _check_proximity p (det_bbox d) = false) →
  mark_items p dets items st = st.
Proof.
  intros H. unfold mark_items. revert st.
  induction items as [|it items IH]; intros st; simpl; [done|].
  rewrite IH. destruct (String.eqb it "Person"); [done|].
  clear IH. revert st. induction dets as [|d dets IHd]; intros st; simpl; [done|].
  rewrite mark_item_inert by (apply H; set_solver). apply IHd. intros; apply H; set_solver.
Qed.

Lemma scan_violations_none vs p dets :
  (∀ d, d ∈ dets → _check_proximity p (det_bbox d) = false) →
  scan_violations vs p dets = None.
Proof.
  intros H. induction vs as [|v vs IH]; simpl; [done|].
  assert (scan_detections v p dets = None) as ->; [|done].
  clear IH. induction dets as [|d dets IHd]; simpl; [done|].
  rewrite (H d) by set_solver. rewrite andb_false_r. apply IHd. intros; apply H; set_solver.
Qed.

Lemma check_person_degenerate mode dets p :
  degenerate (det_bbox p) →
  has_violation (check_person mode dets p) = true ∧
  ppe_status (check_person mode dets p) = ppe_status_init ∧
  bbox (check_person mode dets p) = det_bbox p.
Proof.
  intros Hd.
  assert (Hnone : ∀ d, d ∈ dets → _check_proximity (det_bbox p) (det_bbox d) = false).
  { intros d _. apply check_proximity_degenerate. by left. }
  unfold check_person, mark_proper_ppe.
  rewrite (mark_items_none _ _ _ _ Hnone), (scan_violations_none _ _ _ Hnone).
  simpl. destruct (mode =? 1); done.
Qed.

Lemma persons_app l1 l2 : persons (l1 ++ l2) = persons l1 ++ persons l2.
Proof. unfold persons. apply filter_app. Qed.

Lemma check_violations_app mode pre post :
  check_violations mode (pre ++ post) =
  map (check_person mode (pre ++ post)) (persons pre) ++
  map (check_person mode (pre ++ post)) (persons post).
Proof.
  unfold check_violations. fold (persons (pre ++ post)).
  rewrite persons_app, map_app. done.
Qed.

(** ** Main results on the evaluator *)

Lemma check_person_ppe_status mode dets p :
  ppe_status (check_person mode dets p) = mark_proper_ppe (det_bbox p) dets.
Proof. unfold check_person. by case_match. Qed.

(** In Mode A a person without an associated helmet is reported: by the
    missing-item list when no violation class is associated. *)
Lemma mode_a_missing_helmet dets p :
  ¬ class_associated (det_bbox p) dets "helmet" →
  status_get (ppe_status (check_person 1 dets p)) "helmet" = false ∧
  has_violation (check_person 1 dets p) = true ∧
  ((∀ v, v ∈ PPE_VIOLATIONS → ¬ class_associated (det_bbox p) dets v) →
   ∃ missing, "helmet" ∈ missing ∧
     violation_message (check_person 1 dets p) = Some ("Missing PPE: " +:+ join_comma missing)).
Proof.
  intros Hno.
  assert (Hst : status_get (mark_proper_ppe (det_bbox p) dets) "helmet" = false).
  { destruct (status_get _ _) eqn:E; [|done].
    apply mark_proper_ppe_get in E as [_ E]. done. }
  assert (Hin : "helmet" ∈ filter (fun ppe =>
            status_get (mark_proper_ppe (det_bbox p) dets) ppe = false) PPE_PROPER).
  { apply list_elem_of_filter. split; [done|]. unfold PPE_PROPER. left. }
  assert (Hlen : (length (filter (fun ppe =>
            status_get (mark_proper_ppe (det_bbox p) dets) ppe = false) PPE_PROPER) =? 0)%nat
            = false).
  { apply Nat.eqb_neq. intros Hz. apply length_zero_iff_nil in Hz.
    rewrite Hz in Hin. by apply elem_of_nil in Hin. }
  split; [by rewrite check_person_ppe_status|]. unfold check_person. cbn [Z.eqb Pos.eqb].
  destruct (truthy (scan_violations PPE_VIOLATIONS (det_bbox p) dets)) eqn:Et.
  - split; [done|]. intros Hnone. exfalso.
    destruct (scan_violations_first PPE_VIOLATIONS (det_bbox p) dets PPE_VIOLATIONS_nonempty)
      as [(v & Hs & pre & post & Heq & Ha & _)|[Hs _]].
    + apply (Hnone v); [|done]. rewrite Heq. set_solver.
    + by rewrite Hs in Et.
  - rewrite Hlen. cbn [negb has_violation violation_message]. split; [done|].
    intros _. eexists. split; [exact Hin|done].
Qed.

(** C4, as the code has it.  In Mode A a person with an associated detection
    of a violation class is marked violating, whatever proper PPE is
    associated too, and the reason names the first class of
    [PPE_VIOLATIONS] that has an associated detection; it is the class of
    the given detection when no other violation class is associated. *)
Theorem mode_a_violation_class_first dets p d :
  p ∈ dets → det_class p = PERSON_CLASS →
  d ∈ dets → det_class d ∈ PPE_VIOLATIONS → associated (det_bbox p) d →
  check_person 1 dets p ∈ check_violations 1 dets ∧
  has_violation (check_person 1 dets p) = true ∧
  ∃ v, first_associated_class (det_bbox p) dets PPE_VIOLATIONS v ∧
       violation_message (check_person 1 dets p) = Some ("Violation detected: " +:+ v) ∧
       ((∀ u, u ∈ PPE_VIOLATIONS → class_associated (det_bbox p) dets u → u = det_class d) →
        v = det_class d).
Proof.
  intros Hp Hpc Hd Hv Ha. split; [by apply check_person_in_results|].
  destruct (scan_violations_first PPE_VIOLATIONS (det_bbox p) dets PPE_VIOLATIONS_nonempty)
    as [(v & Hs & Hfirst)|[_ Hall]].
  - assert (Hne : v ≠ "").
    { destruct Hfirst as (pre & post & Heq & _).
      pose proof PPE_VIOLATIONS_nonempty as Hall. rewrite Heq in Hall.
      apply Forall_app in Hall as [_ Hall]. by inversion Hall. }
    unfold check_person. rewrite Hs. simpl.
    destruct (String.eqb v "") eqn:E; [apply String.eqb_eq in E; done|]. simpl.
    split; [done|]. exists v. split; [done|]. split; [done|].
    intros Huniq. eapply first_associated_class_unique; eauto.
  - exfalso. rewrite Forall_forall in Hall. apply (Hall (det_class d) Hv).
    exists d. done.
Qed.

(** C9, as the code has it.  A detection with a degenerate box that is not a
    person is associated with nobody, and the frame's results are those of
    the frame without it.  A person with a degenerate box is still
    evaluated: it gets a result of its own, with no PPE flag set and marked
    violating, between the unchanged results of the other persons. *)
Theorem degenerate_detection_evaluation mode pre d post :
  degenerate (det_bbox d) →
  (det_class d ≠ PERSON_CLASS →
     check_violations mode (pre ++ d :: post) = check_violations mode (pre ++ post)) ∧
  (det_class d = PERSON_CLASS →
     ∃ r, check_violations mode (pre ++ d :: post) =
            map (check_person mode (pre ++ post)) (persons pre) ++
            r :: map (check_person mode (pre ++ post)) (persons post) ∧
          has_violation r = true ∧ ppe_status r = ppe_status_init ∧
          bbox r = det_bbox d).
Proof.
  intros Hd.
  assert (Hins : ∀ p, check_person mode (pre ++ d :: post) p =
                      check_person mode (pre ++ post) p).
  { intros p. apply check_person_insert, check_proximity_degenerate. by right. }
  split; intros Hc.
  - rewrite check_violations_app. unfold check_violations at 1.
    fold (persons (pre ++ d :: post)). rewrite persons_app, map_app.
    unfold persons at 2. rewrite filter_cons_False by done. fold (persons post).
    f_equal; apply map_ext; intros; apply Hins.
  - exists (check_person mode (pre ++ d :: post) d). split.
    + unfold check_violations at 1.
      fold (persons (pre ++ d :: post)). rewrite persons_app, map_app.
      unfold persons at 2. rewrite filter_cons_True by done. fold (persons post).
      simpl. f_equal; [|f_equal]; apply map_ext; intros; apply Hins.
    + by apply check_person_degenerate.
Qed.

End EvaluatorResults.

(** ** Results that evaluate sample boxes, under either rule of NumPy *)

(** The sample boxes of the association rule, evaluated. *)
Lemma sample_boxes_evaluated {numpy : NumPy} :
  _check_proximity (det_bbox sample_person) (det_bbox sample_helmet) = false ∧
  _check_proximity (det_bbox sample_helmet) (det_bbox sample_person) = true ∧
  _check_proximity sample_rounded_up_person sample_rounded_up_other = true ∧
  _check_proximity sample_rounded_down_person sample_rounded_down_other = false ∧
  _check_proximity sample_tie_person sample_tie_other = negb numpy_weak_scalars.
Proof. destruct numpy as [[]]; repeat split; vm_compute; reflexivity. Qed.

(** C5, as the code has it.  A detection is associated with a person
    exactly when the two boxes meet, the area of the person's box computed
    in float32 is positive, and the float32 quotient of the computed
    intersection area by the computed person area is above 0.3 as NumPy
    compares a float32 with the Python float 0.3: with 0.3 rounded to
    float32 under NumPy 2, with the quotient widened to float64 under
    NumPy 1.  The test is made on the person's box and is not symmetric.
    For the person box (0,0,100,200) and the helmet box (10,10,90,60) the
    computed areas are 20000 and 4000 and the computed ratio is the float32
    nearest to 0.2: the helmet is not associated, although the person is
    associated with the helmet when the roles are exchanged, and in Mode A
    the person is reported with the helmet among the missing items, as is
    any person with no associated helmet and no associated violation
    class.  Near the threshold the rounding decides: a pair of exact ratio
    3/10 is associated, a pair of exact ratio above 3/10 is not, and a pair
    whose computed ratio is the float32 nearest to 0.3 is associated under
    NumPy 1 only. *)
Theorem association_by_computed_ratio {numpy : NumPy} :
  (∀ (p : BBox) (d : Detection),
     associated p d ↔
     boxes_meet p (det_bbox d) ∧
     f32_gt_zero (computed_area p) = true ∧
     f32_gt_python_float (computed_ratio p (det_bbox d)) threshold_f64 = true) ∧
  (∀ r : float32,
     f32_gt_python_float r threshold_f64 =
     if numpy_weak_scalars then SpecFloat.SFltb threshold_f32 r
     else SpecFloat.SFltb threshold_f64 (f64_of_f32 r)) ∧
  (threshold_f64 = SpecFloat.S754_finite false 5404319552844595 (-54) ∧
   threshold_f32 = SpecFloat.S754_finite false 10066330 (-25)) ∧
  (f32_value (computed_area (det_bbox sample_person)) == 20000 ∧
   f32_value (computed_area
     (intersection_box (det_bbox sample_person) (det_bbox sample_helmet))) == 4000 ∧
   computed_ratio (det_bbox sample_person) (det_bbox sample_helmet) = f32_of_Q (2 # 10) ∧
   f32_value (f32_of_Q (2 # 10)) == 13421773 # 67108864)%Q ∧
  (¬ associated (det_bbox sample_person) sample_helmet ∧
   associated (det_bbox sample_helmet) sample_person) ∧
  (∀ c1 c2 : Q,
     let frame := [mkDetection "Person" c1 (0, 0, 100, 200)%Q;
                   mkDetection "helmet" c2 (10, 10, 90, 60)%Q] in
     ∃ r, check_violations 1 frame = [r] ∧
          has_violation r = true ∧
          status_get (ppe_status r) "helmet" = false ∧
          violation_message r = Some "Missing PPE: helmet, gloves, vest, boots, goggles") ∧
  ((overlap_ratio sample_rounded_up_person sample_rounded_up_other == 3 # 10)%Q ∧
   _check_proximity sample_rounded_up_person sample_rounded_up_other = true) ∧
  ((3 # 10 < overlap_ratio sample_rounded_down_person sample_rounded_down_other)%Q ∧
   _check_proximity sample_rounded_down_person sample_rounded_down_other = false) ∧
  (computed_ratio sample_tie_person sample_tie_other = threshold_f32 ∧
   _check_proximity sample_tie_person sample_tie_other = negb numpy_weak_scalars) ∧
  (∀ dets p,
     ¬ class_associated (det_bbox p) dets "helmet" →
     status_get (ppe_status (check_person 1 dets p)) "helmet" = false ∧
     has_violation (check_person 1 dets p) = true ∧
     ((∀ v, v ∈ PPE_VIOLATIONS → ¬ class_associated (det_bbox p) dets v) →
      ∃ missing, "helmet" ∈ missing ∧
        violation_message (check_person 1 dets p)
          = Some ("Missing PPE: " +:+ join_comma missing))).
Proof.
  destruct sample_boxes_evaluated as (Hs & Hs' & Hup & Hdown & Htie).
  split; [intros p d; apply check_proximity_iff|].
  split; [reflexivity|].
  split; [split; vm_compute; reflexivity|].
  split; [repeat split; vm_compute; reflexivity|].
  split; [unfold associated; split; [by rewrite Hs|exact Hs']|].
  split; [|split; [split; [reflexivity|exact Hup]|]; split; [split; [reflexivity|exact Hdown]|];
           split; [split; [vm_compute; reflexivity|exact Htie]|exact mode_a_missing_helmet]].
  intros c1 c2 frame. subst frame. unfold check_violations.
  rewrite filter_cons_True by done. rewrite filter_cons_False by done.
  cbn [filter map list_filter]. eexists. split; [reflexivity|].
  unfold check_person, mark_proper_ppe, PPE_PROPER, PPE_VIOLATIONS, mark_items.
  cbn -[_check_proximity].
  change (10, 10, 90, 60)%Q with (det_bbox sample_helmet).
  change (0, 0, 100, 200)%Q with (det_bbox sample_person).
  rewrite Hs. repeat split; reflexivity.
Qed.

(** The rule of C4 fails under either rule of NumPy. *)
Lemma every_associated_violation_is_reason_refuted {numpy : NumPy} :
  ¬ every_associated_violation_is_reason.
Proof.
  intros H.
  destruct (H [sample_person; sample_no_gloves; sample_no_helmet]
              sample_person sample_no_gloves) as [_ Hmsg].
  - repeat constructor.
  - reflexivity.
  - repeat constructor.
  - by_compute.
  - by destruct numpy as [[]].
  - destruct numpy as [[]]; vm_compute in Hmsg; discriminate Hmsg.
Qed.

Lemma degenerate_detection_dropped_refuted {numpy : NumPy} :
  ¬ degenerate_detection_dropped.
Proof.
  intros H. specialize (H 1 [] sample_flat_person []).
  assert (Hd : degenerate (det_bbox sample_flat_person)).
  { simpl. left. unfold Qle. simpl. lia. }
  specialize (H Hd). destruct numpy as [[]]; vm_compute in H; discriminate H.
Qed.

(** The association rule over exact areas fails under either rule of NumPy:
    a pair of boxes whose exact ratio is 3/10, not above it, is associated. *)
Lemma association_by_exact_ratio_refuted {numpy : NumPy} :
  ¬ association_by_exact_ratio.
Proof.
  intros H.
  destruct (H sample_rounded_up_person (mkDetection "helmet" 1 sample_rounded_up_other))
    as [Hlt _].
  assert (Ha : associated sample_rounded_up_person
                 (mkDetection "helmet" 1 sample_rounded_up_other)).
  { unfold associated. cbn [det_bbox].
    destruct sample_boxes_evaluated as (_ & _ & Hup & _). exact Hup. }
  specialize (Hlt Ha). vm_compute in Hlt. discriminate Hlt.
Qed.

(** ** Instances *)

(** C5, counterexample.  The person box (0,0,3310,16947) and the box
    (0,0,2317,7263) share 3/10 of the person's area exactly, which is not
    above 3/10; the float32 quotient is rounded above the threshold and the
    detection is associated, under NumPy 1 and under NumPy 2. *)
Lemma association_by_exact_ratio_fails :
  ¬ @association_by_exact_ratio numpy_1 ∧ ¬ @association_by_exact_ratio numpy_2.
Proof. split; apply association_by_exact_ratio_refuted. Qed.

(** C4, counterexample.  A person associated with a [no_gloves] and a
    [no_helmet] detection gets the reason [no_helmet] only. *)
Lemma every_associated_violation_is_reason_fails :
  ¬ @every_associated_violation_is_reason numpy_1 ∧
  ¬ @every_associated_violation_is_reason numpy_2.
Proof. split; apply every_associated_violation_is_reason_refuted. Qed.

(** C9, counterexample.  A frame whose only detection is a person of zero
    width yields a result for that person. *)
Lemma degenerate_detection_dropped_fails :
  ¬ @degenerate_detection_dropped numpy_1 ∧ ¬ @degenerate_detection_dropped numpy_2.
Proof. split; apply degenerate_detection_dropped_refuted. Qed.

Section EvaluatorInstances.
#[local] Existing Instance numpy_2.

Lemma association_by_computed_ratio_witness :
  let dets := [sample_person; sample_helmet] in
  ¬ class_associated (det_bbox sample_person) dets "helmet" ∧
  has_violation (check_person 1 dets sample_person) = true.
Proof.
  intros dets.
  assert (Hno : ¬ class_associated (det_bbox sample_person) dets "helmet").
  { intros (d & Hd & Hc & Ha). unfold dets in Hd.
    apply elem_of_cons in Hd as [->|Hd]; [discriminate Hc|].
    apply list_elem_of_singleton in Hd. subst d. vm_compute in Ha. discriminate Ha. }
  split; [exact Hno|].
  destruct association_by_computed_ratio as (_ & _ & _ & _ & _ & _ & _ & _ & _ & H).
  apply (H dets sample_person Hno).
Defined.

Lemma mode_a_violation_class_first_witness :
  let dets := [sample_person; sample_helmet; sample_no_helmet] in
  associated (det_bbox sample_person) sample_no_helmet ∧
  has_violation (check_person 1 dets sample_person) = true.
Proof.
  split; [reflexivity|].
  apply (mode_a_violation_class_first [sample_person; sample_helmet; sample_no_helmet]
           sample_person sample_no_helmet).
  - repeat constructor.
  - reflexivity.
  - repeat constructor.
  - by_compute.
  - reflexivity.
Defined.

Lemma degenerate_detection_evaluation_witness :
  degenerate (det_bbox sample_flat_helmet) ∧
  check_violations 1 ([sample_person] ++ sample_flat_helmet :: []) =
  check_violations 1 ([sample_person] ++ []).
Proof.
  assert (Hd : degenerate (det_bbox sample_flat_helmet)).
  { simpl. left. unfold Qle. simpl. lia. }
  split; [exact Hd|].
  apply (degenerate_detection_evaluation 1 [sample_person] sample_flat_helmet [] Hd).
  discriminate.
Defined.

End EvaluatorInstances.


(** ** Identity tracker *)

(** *** The three cases of [update] are one *)

Lemma register_all_general cs ms used t :
  fold_left (match_centroid [] []) cs (ms, used, t) =
  let '(ms', t') :=
    fold_left (fun '(person_ids, t) c =>
                 let '(new_id, t') := _register c t in
                 (person_ids ++ [Registered new_id], t')) cs (ms, t) in
  (ms', used, t').
Proof.
  revert ms t. induction cs as [|c cs IH]; intros ms t; simpl; [done|].
  apply IH.
Qed.

Lemma age_all_general (used : gset Z) ks t :
  (∀ k, k ∈ ks → k ∉ used) →
  fold_left (fun t person_id =>
               if bool_decide (person_id ∈ used) then t else age_person person_id t) ks t =
  fold_left (fun t person_id => age_person person_id t) ks t.
Proof.
  revert t. induction ks as [|k ks IH]; intros t H; simpl; [done|].
  rewrite bool_decide_eq_false_2 by (apply H; set_solver).
  apply IH. intros; apply H; set_solver.
Qed.

Lemma update_assignments_general dets t :
  update_assignments dets t = update_general dets t.
Proof.
  unfold update_assignments, update_general.
  destruct (length (map centroid_of dets) =? 0)%nat eqn:E1.
  - apply Nat.eqb_eq in E1. destruct (map centroid_of dets); [|done]. simpl.
    rewrite age_all_general by set_solver. done.
  - destruct (length (tracked_persons t) =? 0)%nat eqn:E2; [|done].
    apply Nat.eqb_eq in E2. destruct (tracked_persons t) eqn:Et; [|done]. simpl.
    rewrite register_all_general.
    destruct (fold_left _ (map centroid_of dets) ([], t)) as [ms' t']. done.
Qed.

(** *** Identities are handed out in increasing order *)

Lemma ids_between_nil lo hi : ids_between lo hi [].
Proof. split; constructor. Qed.

Lemma ids_between_app lo mid hi l1 l2 :
  lo ≤ mid → mid ≤ hi →
  ids_between lo mid l1 → ids_between mid hi l2 → ids_between lo hi (l1 ++ l2).
Proof.
  intros Hlo Hhi [Hs1 Hb1] [Hs2 Hb2]. split.
  - unfold strictly_increasing in *. induction l1 as [|x l1 IH]; simpl; [done|].
    apply StronglySorted_inv in Hs1 as [Hs1 Hx]. inversion Hb1; subst.
    constructor; [by apply IH|]. apply Forall_app. split; [done|].
    eapply Forall_impl; [exact Hb2|]. simpl. lia.
  - apply Forall_app. split; eapply Forall_impl; eauto; simpl; lia.
Qed.

Lemma ids_between_one lo : ids_between lo (lo + 1) [lo].
Proof.
  split; [repeat constructor|]. constructor; [lia|constructor].
Qed.

Lemma ids_between_nodup lo hi l : ids_between lo hi l → NoDup l.
Proof.
  intros [Hs _]. unfold strictly_increasing in Hs.
  induction l as [|x l IH]; [constructor|].
  apply StronglySorted_inv in Hs as [Hs Hx]. constructor; [|by apply IH].
  intros Hin. rewrite Forall_forall in Hx. specialize (Hx x Hin). lia.
Qed.

Lemma registered_app a b : registered (a ++ b) = registered a ++ registered b.
Proof. apply omap_app. Qed.

Lemma age_person_next_id k t : next_id (age_person k t) = next_id t.
Proof. done. Qed.

Lemma age_fold_next_id (used : gset Z) ks t :
  next_id (fold_left (fun t person_id =>
             if bool_decide (person_id ∈ used) then t else age_person person_id t) ks t)
  = next_id t.
Proof.
  revert t. induction ks as [|k ks IH]; intros t; simpl; [done|].
  rewrite IH. destruct (bool_decide _); [done|apply age_person_next_id].
Qed.

Lemma match_centroid_registered ks kcs ms used t c :
  ∃ ms1 used' t',
    match_centroid ks kcs (ms, used, t) c = (ms ++ ms1, used', t') ∧
    next_id t ≤ next_id t' ∧
    ids_between (next_id t) (next_id t') (registered ms1).
Proof.
  unfold match_centroid. destruct (best_match _ _ _ _ _) as [b|].
  - eexists [Matched b], _, _. split; [done|]. simpl. split; [lia|apply ids_between_nil].
  - eexists [Registered (next_id t)], _, _. split; [done|]. simpl.
    split; [lia|apply ids_between_one].
Qed.

Lemma match_fold_registered ks kcs cs ms used t :
  ∃ ms1 used' t',
    fold_left (match_centroid ks kcs) cs (ms, used, t) = (ms ++ ms1, used', t') ∧
    next_id t ≤ next_id t' ∧
    ids_between (next_id t) (next_id t') (registered ms1).
Proof.
  revert ms used t. induction cs as [|c cs IH]; intros ms used t; cbn [fold_left].
  - exists [], used, t. rewrite app_nil_r. split; [done|]. split; [lia|apply ids_between_nil].
  - destruct (match_centroid_registered ks kcs ms used t c)
      as (ms1 & used1 & t1 & -> & Hle1 & Hb1).
    destruct (IH (ms ++ ms1) used1 t1) as (ms2 & used2 & t2 & -> & Hle2 & Hb2).
    exists (ms1 ++ ms2), used2, t2. rewrite app_assoc. split; [done|].
    split; [lia|]. rewrite registered_app. eapply ids_between_app; eauto.
Qed.

(** One call of [update] registers identities from the old [next_id] up to
    the new one, in increasing order. *)
Lemma update_assignments_registered dets t :
  next_id t ≤ next_id (update_assignments dets t).2 ∧
  ids_between (next_id t) (next_id (update_assignments dets t).2)
    (registered (update_assignments dets t).1).
Proof.
  rewrite update_assignments_general. unfold update_general.
  destruct (match_fold_registered (dict_keys (tracked_persons t))
              (map (fun pid => from_option centroid (0, 0) (dict_get pid (tracked_persons t)))
                 (dict_keys (tracked_persons t)))
              (map centroid_of dets) [] ∅ t) as (ms1 & used' & t' & -> & Hle & Hb).
  simpl. rewrite age_fold_next_id. done.
Qed.

Lemma run_updates_registered updates t :
  next_id t ≤ next_id (run_tracker (map OpUpdate updates) t).2 ∧
  ids_between (next_id t) (next_id (run_tracker (map OpUpdate updates) t).2)
    (run_tracker (map OpUpdate updates) t).1.
Proof.
  revert t. induction updates as [|dets updates IH]; intros t; simpl.
  - split; [lia|apply ids_between_nil].
  - pose proof (update_assignments_registered dets t) as [Hle1 Hb1].
    destruct (update_assignments dets t) as [a t1]. simpl in *.
    specialize (IH t1) as [Hle2 Hb2].
    destruct (run_tracker (map OpUpdate updates) t1) as [ids t2]. simpl in *.
    split; [lia|]. eapply ids_between_app; eauto.
Qed.

(** ** Main results on the tracker: identities *)

(** C2, as the code has it.  Over any sequence of [update] calls with no
    [reset] among them, from any tracker, the identities assigned to new
    tracks are strictly increasing, start at the tracker's [next_id], and
    none is assigned twice; [reset] empties the tracker and restarts the
    numbering from one, so the first track after it is number 1 again. *)
Theorem identities_increasing_between_resets :
  (∀ (t : PersonTracker) (updates : list (list (Z * Z * Z * Z))),
     let ids := (run_tracker (map OpUpdate updates) t).1 in
     strictly_increasing ids ∧ NoDup ids ∧ Forall (fun i => next_id t ≤ i) ids) ∧
  (∀ t : PersonTracker, next_id (reset t) = 1 ∧ tracked_persons (reset t) = []) ∧
  (∀ (t : PersonTracker) (box : Z * Z * Z * Z),
     (run_tracker [OpReset; OpUpdate [box]] t).1 = [1]).
Proof.
  split; [|split].
  - intros t updates ids. pose proof (run_updates_registered updates t) as [_ Hb].
    fold ids in Hb. split; [apply Hb|]. split; [by eapply ids_between_nodup|].
    destruct Hb as [_ Hb]. eapply Forall_impl; [exact Hb|]. simpl. lia.
  - done.
  - intros t [[[x y] w] h]. reflexivity.
Qed.

(** C2, counterexample.  One person seen, a reset at the next session
    start, one person seen: both tracks get identity 1. *)
Lemma identities_never_reused_fails : ¬ identities_never_reused.
Proof.
  intros H.
  destruct (H TRACKING_DISTANCE_THRESHOLD TRACKING_MEMORY_FRAMES
              [OpUpdate [(0, 0, 10, 10)]; OpReset; OpUpdate [(0, 0, 10, 10)]]) as [_ Hnd].
  vm_compute in Hnd. apply NoDup_cons in Hnd as [Hnotin _]. apply Hnotin. constructor.
Qed.

(** *** The insertion-ordered dict *)

Section DictFacts.
Context {V : Type}.
Implicit Types (d : list (Z * V)) (k : Z) (v : V).

Lemma dict_keys_alter f k d : dict_keys (dict_alter f k d) = dict_keys d.
Proof.
  unfold dict_keys, dict_alter. rewrite map_map. apply map_ext.
  intros [k' v]. simpl. by destruct (k' =? k).
Qed.

Lemma dict_get_alter_eq f k d : dict_get k (dict_alter f k d) = f <$> dict_get k d.
Proof.
  induction d as [|[k' v] d IH]; simpl; [done|].
  destruct (k' =? k) eqn:E; simpl; rewrite E; [done|apply IH].
Qed.

Lemma dict_get_alter_ne f k k' d :
  k' ≠ k → dict_get k' (dict_alter f k d) = dict_get k' d.
Proof.
  intros Hne. induction d as [|[k0 v] d IH]; simpl; [done|].
  destruct (k0 =? k) eqn:E; simpl.
  - apply Z.eqb_eq in E. subst k0.
    destruct (k =? k') eqn:E'; [apply Z.eqb_eq in E'; congruence|apply IH].
  - destruct (k0 =? k'); [done|apply IH].
Qed.

Lemma dict_get_None k d : dict_get k d = None ↔ k ∉ dict_keys d.
Proof.
  induction d as [|[k' v] d IH]; simpl.
  - split; [intros _; apply not_elem_of_nil|done].
  - rewrite not_elem_of_cons. destruct (k' =? k) eqn:E.
    + apply Z.eqb_eq in E. split; [done|]. intros [Hne _]. congruence.
    + apply Z.eqb_neq in E. rewrite IH. split; [|tauto]. intros H. split; [congruence|done].
Qed.

Lemma dict_get_elem k v d : dict_get k d = Some v → (k, v) ∈ d.
Proof.
  induction d as [|[k' v'] d IH]; simpl; [done|].
  destruct (k' =? k) eqn:E.
  - apply Z.eqb_eq in E. intros [= ->]. subst. left.
  - intros H. right. by apply IH.
Qed.

Lemma dict_elem_keys k v d : (k, v) ∈ d → k ∈ dict_keys d.
Proof. intros H. unfold dict_keys. apply list_elem_of_fmap. by exists (k, v). Qed.

Lemma dict_elem_get k v d : NoDup (dict_keys d) → (k, v) ∈ d → dict_get k d = Some v.
Proof.
  induction d as [|[k' v'] d IH]; simpl; intros Hnd Hin.
  - by apply elem_of_nil in Hin.
  - apply NoDup_cons in Hnd as [Hk' Hnd]. apply elem_of_cons in Hin as [[= -> ->]|Hin].
    + by rewrite Z.eqb_refl.
    + destruct (k' =? k) eqn:E; [|by apply IH].
      apply Z.eqb_eq in E. subst k'. exfalso. apply Hk'. by eapply dict_elem_keys.
Qed.

Lemma dict_set_new k v d : k ∉ dict_keys d → dict_set k v d = d ++ [(k, v)].
Proof.
  induction d as [|[k' v'] d IH]; simpl; intros Hk; [done|].
  apply not_elem_of_cons in Hk as [Hne Hk].
  destruct (k' =? k) eqn:E; [apply Z.eqb_eq in E; congruence|].
  by rewrite IH.
Qed.

Lemma dict_get_app k d1 d2 :
  dict_get k (d1 ++ d2) =
  match dict_get k d1 with Some v => Some v | None => dict_get k d2 end.
Proof.
  induction d1 as [|[k' v'] d1 IH]; simpl; [done|]. by destruct (k' =? k).
Qed.

Lemma dict_keys_app d1 d2 : dict_keys (d1 ++ d2) = dict_keys d1 ++ dict_keys d2.
Proof. apply map_app. Qed.

(** Without a key [k], neither the change nor the removal at [k] does
    anything. *)
Lemma dict_alter_absent f k d : k ∉ dict_keys d → dict_alter f k d = d.
Proof.
  induction d as [|[k' v'] d IH]; simpl; intros Hk; [done|].
  apply not_elem_of_cons in Hk as [Hne Hk].
  destruct (k' =? k) eqn:E; [apply Z.eqb_eq in E; congruence|].
  f_equal. by apply IH.
Qed.

Lemma dict_del_absent k d : k ∉ dict_keys d → dict_del k d = d.
Proof.
  induction d as [|[k' v'] d IH]; simpl; intros Hk; [done|].
  apply not_elem_of_cons in Hk as [Hne Hk].
  unfold dict_del in *. rewrite filter_cons_True by (simpl; congruence).
  f_equal. by apply IH.
Qed.
End DictFacts.

(** *** The inner loop finds a nearest unused track within the threshold *)

Section BestMatch.
Variables (md : Z) (used : gset Z) (c : Z * Z).

Lemma best_match_fold zs seen acc :
  match_good md used c seen acc →
  match_good md used c (seen ++ zs) (fold_left (match_step md used c) zs acc).
Proof.
  revert seen acc. induction zs as [|[pid cz] zs IH]; intros seen acc Hgood; simpl.
  - by rewrite app_nil_r.
  - replace (seen ++ (pid, cz) :: zs) with ((seen ++ [(pid, cz)]) ++ zs)
      by (by rewrite <- app_assoc).
    apply IH. destruct acc as [m b]. unfold match_step, match_good, match_candidate in *.
    destruct (bool_decide (pid ∈ used)) eqn:Eu.
    { apply bool_decide_eq_true in Eu.
      destruct m as [dm|], b as [bid|]; simpl in *; try done.
      - destruct Hgood as (cz' & Hin & Hc & Hdm & Hmin). exists cz'.
        split; [set_solver|]. split; [done|]. split; [done|].
        intros z Hz Hcz. apply elem_of_app in Hz as [Hz|Hz]; [by apply Hmin|].
        apply list_elem_of_singleton in Hz. subst z. destruct Hcz as [Hcz _]. done.
      - intros z Hz. apply elem_of_app in Hz as [Hz|Hz]; [by apply Hgood|].
        apply list_elem_of_singleton in Hz. subst z. intros [Hcz _]. done. }
    apply bool_decide_eq_false in Eu.
    destruct (below_min (_calculate_distance c cz) m &&
              below_max (_calculate_distance c cz) md) eqn:Eb.
    + apply andb_true_iff in Eb as [Hmin Hmax]. simpl. exists cz.
      split; [set_solver|]. split; [done|]. split; [done|].
      intros z Hz Hcz. apply elem_of_app in Hz as [Hz|Hz].
      * destruct m as [dm|], b as [bid|]; simpl in *; try done.
        -- destruct Hgood as (cz' & _ & _ & _ & Hall). specialize (Hall z Hz Hcz). lia.
        -- exfalso. by eapply Hgood.
      * apply list_elem_of_singleton in Hz. subst z. simpl. lia.
    + destruct m as [dm|], b as [bid|]; simpl in *; try done.
      * destruct Hgood as (cz' & Hin & Hc & Hdm & Hall). exists cz'.
        split; [set_solver|]. split; [done|]. split; [done|].
        intros z Hz Hcz. apply elem_of_app in Hz as [Hz|Hz]; [by apply Hall|].
        apply list_elem_of_singleton in Hz. subst z. simpl.
        destruct Hcz as [_ Hcz]. simpl in Hcz. rewrite Hcz, andb_true_r in Eb. lia.
      * intros z Hz. apply elem_of_app in Hz as [Hz|Hz]; [by apply Hgood|].
        apply list_elem_of_singleton in Hz. subst z. intros [_ Hcz]. simpl in Hcz.
        rewrite Hcz in Eb. done.
Qed.

Lemma best_match_spec ids cents :
  match best_match md used ids cents c with
  | Some pid =>
      ∃ cz, (pid, cz) ∈ zip ids cents ∧ (pid ∉ used) ∧
            below_max (_calculate_distance c cz) md = true ∧
            ∀ pid' cz', (pid', cz') ∈ zip ids cents → (pid' ∉ used) →
              below_max (_calculate_distance c cz') md = true →
              _calculate_distance c cz ≤ _calculate_distance c cz'
  | None =>
      ∀ pid' cz', (pid', cz') ∈ zip ids cents → (pid' ∉ used) →
        below_max (_calculate_distance c cz') md = false
  end.
Proof.
  unfold best_match.
  assert (Hgood : match_good md used c [] (None, None))
    by (intros z Hz; by apply elem_of_nil in Hz).
  apply (best_match_fold (zip ids cents)) in Hgood. simpl in Hgood.
  change (fold_left _ (zip ids cents) (None, None))
    with (fold_left (match_step md used c) (zip ids cents) (None, None)).
  destruct (fold_left (match_step md used c) (zip ids cents) (None, None)) as [[dm|] [pid|]];
    simpl in *; try done.
  - destruct Hgood as (cz & Hin & [Hu Hw] & -> & Hall). exists cz.
    split; [done|]. split; [done|]. split; [done|].
    intros pid' cz' Hin' Hu' Hw'. apply (Hall (pid', cz') Hin'). done.
  - intros pid' cz' Hin' Hu'. destruct (below_max _ _) eqn:E; [|done].
    exfalso. apply (Hgood (pid', cz') Hin'). done.
Qed.
End BestMatch.

(** *** The matching loop follows the greedy rule *)

Lemma snapshot_zip t :
  NoDup (dict_keys (tracked_persons t)) →
  zip (dict_keys (tracked_persons t))
    (map (fun pid => from_option centroid (0, 0) (dict_get pid (tracked_persons t)))
       (dict_keys (tracked_persons t))) = snapshot t.
Proof.
  unfold snapshot. generalize (tracked_persons t) as d. intros d Hnd.
  induction d as [|[k v] d IH]; [done|].
  simpl in Hnd. apply NoDup_cons in Hnd as [Hk Hnd].
  cbn [dict_keys map fst snd zip zip_with dict_get]. rewrite Z.eqb_refl. simpl.
  f_equal. rewrite <- IH by done. f_equal. apply map_ext_in. intros pid Hin.
  apply list_elem_of_In in Hin.
  destruct (k =? pid) eqn:E; [|done]. apply Z.eqb_eq in E. by subst.
Qed.

Lemma snapshot_elem t pid tr :
  (pid, tr) ∈ tracked_persons t → (pid, centroid tr) ∈ snapshot t.
Proof.
  intros H. unfold snapshot. apply list_elem_of_fmap. by exists (pid, tr).
Qed.

Lemma snapshot_elem_inv t pid cz :
  (pid, cz) ∈ snapshot t → ∃ tr, (pid, tr) ∈ tracked_persons t ∧ cz = centroid tr.
Proof.
  unfold snapshot. intros H. apply list_elem_of_fmap in H as ([k tr] & [= -> ->] & Hin).
  by exists tr.
Qed.

Lemma match_inv_start t0 : tracker_wf t0 → match_inv t0 [] ∅ t0.
Proof.
  intros [Hnd Hb Hm]. split; try done.
  - intros k. simpl. split; [by intros ?%elem_of_nil|]. intros [?|?]; [set_solver|lia].
  - intros k. split; [auto|]. intros [?|?]; [done|lia].
  - intros k tr _ H. by apply elem_of_nil in H.
Qed.

(** An unused track of the current state is one of the start, unchanged. *)
Lemma unused_track_snapshot t0 ms used t pid tr :
  tracker_wf t0 → match_inv t0 ms used t →
  unused_track (given_ids ms) t pid tr →
  (pid, centroid tr) ∈ snapshot t0 ∧ pid ∉ used.
Proof.
  intros Hwf Hinv [Hin Hng].
  assert (Hk : pid ∈ dict_keys (tracked_persons t)) by (by eapply dict_elem_keys).
  apply (inv_keys _ _ _ _ Hinv) in Hk.
  assert (Hnu : pid ∉ used).
  { intros Hu. apply Hng. apply (inv_given _ _ _ _ Hinv). by left. }
  destruct Hk as [Hk|Hk]; [|exfalso; apply Hng; apply (inv_given _ _ _ _ Hinv); by right].
  split; [|done]. apply snapshot_elem.
  apply dict_get_elem. rewrite <- (inv_same _ _ _ _ Hinv) by done.
  apply dict_elem_get; [apply (inv_nodup _ _ _ _ Hinv)|done].
Qed.

(** A track of the start that the loop has not used is an unused track of
    the current state. *)
Lemma snapshot_unused_track t0 ms used t pid cz :
  tracker_wf t0 → match_inv t0 ms used t →
  (pid, cz) ∈ snapshot t0 → pid ∉ used →
  ∃ tr, unused_track (given_ids ms) t pid tr ∧ cz = centroid tr.
Proof.
  intros Hwf Hinv Hin Hnu. apply snapshot_elem_inv in Hin as (tr & Hin & ->).
  exists tr. split; [|done].
  assert (Hk : pid ∈ dict_keys (tracked_persons t0)) by (by eapply dict_elem_keys).
  split.
  - apply dict_get_elem. rewrite (inv_same _ _ _ _ Hinv) by done.
    apply dict_elem_get; [apply Hwf|done].
  - intros Hg. apply (inv_given _ _ _ _ Hinv) in Hg as [Hg|Hg]; [done|].
    pose proof (wf_keys_below _ Hwf) as Hb. rewrite Forall_forall in Hb.
    specialize (Hb pid Hk). lia.
Qed.

Lemma given_ids_snoc ms a : given_ids (ms ++ [a]) = given_ids ms ++ [assignment_id a].
Proof. unfold given_ids. by rewrite map_app. Qed.

Lemma match_centroid_greedy t0 ms used t c :
  tracker_wf t0 → match_inv t0 ms used t →
  ∃ a used' t',
    match_centroid (dict_keys (tracked_persons t0))
      (map (fun pid => from_option centroid (0, 0) (dict_get pid (tracked_persons t0)))
         (dict_keys (tracked_persons t0)))
      (ms, used, t) c = (ms ++ [a], used', t') ∧
    match_inv t0 (ms ++ [a]) used' t' ∧
    greedy_step (given_ids ms) t c (assignment_id a) t'.
Proof.
  intros Hwf Hinv. unfold match_centroid.
  pose proof (best_match_spec (max_distance t) used c (dict_keys (tracked_persons t0))
    (map (fun pid => from_option centroid (0, 0) (dict_get pid (tracked_persons t0)))
       (dict_keys (tracked_persons t0)))) as Hbest.
  rewrite (snapshot_zip t0 (wf_keys_nodup _ Hwf)) in Hbest.
  destruct (best_match _ _ _ _ _) as [b|].
  - destruct Hbest as (cz & Hin & Hnu & Hw & Hmin).
    destruct (snapshot_unused_track _ _ _ _ _ _ Hwf Hinv Hin Hnu) as (tr & Hun & ->).
    assert (Hb0 : b ∈ dict_keys (tracked_persons t0)).
    { apply snapshot_elem_inv in Hin as (tr0 & Hin0 & _). by eapply dict_elem_keys. }
    exists (Matched b), ({[b]} ∪ used), (rematch c b t).
    split; [done|]. split.
    + destruct Hinv. split; simpl; rewrite ?dict_keys_alter; try done.
      * intros k. rewrite given_ids_snoc, elem_of_app, inv_given0. simpl.
        rewrite list_elem_of_singleton. set_solver.
      * intros k Hk. apply elem_of_union in Hk as [Hk|Hk]; [|auto].
        apply elem_of_singleton in Hk. by subst.
      * intros k Hk Hku. rewrite dict_get_alter_ne by set_solver.
        apply inv_same0; [done|set_solver].
      * intros k tr' Hget Hk. destruct (decide (k = b)) as [->|Hne].
        -- rewrite dict_get_alter_eq in Hget.
           destruct (dict_get b (tracked_persons t)); simpl in Hget; [|done].
           by injection Hget as <-.
        -- rewrite dict_get_alter_ne in Hget by done. eapply inv_zero0; [done|].
           rewrite given_ids_snoc, elem_of_app in Hk. simpl in Hk.
           rewrite list_elem_of_singleton in Hk. tauto.
    + simpl. apply greedy_match with tr; [done|done|].
      intros pid' tr' Hun' Hw'.
      destruct (unused_track_snapshot _ _ _ _ _ _ Hwf Hinv Hun') as [Hin' Hnu'].
      by apply (Hmin pid' (centroid tr')).
  - set (n := next_id t).
    assert (Hn : n ∉ dict_keys (tracked_persons t)).
    { intros Hk. pose proof (inv_below _ _ _ _ Hinv) as Hb. rewrite Forall_forall in Hb.
      specialize (Hb n Hk). unfold n in Hb. lia. }
    exists (Registered n), used, (_register c t).2.
    split; [done|]. split.
    + destruct Hinv. split; simpl; fold n; rewrite ?(dict_set_new _ _ _ Hn),
        ?dict_keys_app; simpl; try done.
      * apply NoDup_app. split; [done|]. split; [|apply NoDup_singleton].
        intros k Hk Hk'. apply list_elem_of_singleton in Hk'. by subst.
      * apply Forall_app. split.
        -- eapply Forall_impl; [exact inv_below0|]. simpl. lia.
        -- constructor; [lia|constructor].
      * lia.
      * intros k. rewrite given_ids_snoc, elem_of_app, inv_given0. simpl.
        rewrite list_elem_of_singleton. unfold n. intuition lia.
      * intros k. rewrite elem_of_app, inv_keys0, list_elem_of_singleton. unfold n.
        intuition lia.
      * intros k Hk Hku. rewrite dict_get_app, (inv_same0 k Hk Hku).
        destruct (dict_get k (tracked_persons t0)) eqn:E; [done|].
        apply dict_get_None in E. done.
      * intros k tr' Hget Hk. rewrite dict_get_app in Hget.
        destruct (dict_get k (tracked_persons t)) as [tr0|] eqn:E.
        -- injection Hget as <-. eapply inv_zero0; [done|].
           rewrite given_ids_snoc, elem_of_app in Hk. simpl in Hk.
           rewrite list_elem_of_singleton in Hk. destruct Hk as [Hk| ->]; [done|].
           exfalso. apply Hn. apply dict_get_elem in E. by eapply dict_elem_keys.
        -- simpl in Hget. destruct (n =? k); [|done]. by injection Hget as <-.
    + simpl. apply greedy_register. intros pid' tr' Hun' Hw'.
      destruct (unused_track_snapshot _ _ _ _ _ _ Hwf Hinv Hun') as [Hin' Hnu'].
      unfold within_threshold in Hw'. rewrite (Hbest _ _ Hin' Hnu') in Hw'. done.
Qed.

Lemma greedy_run_snoc g0 t0 cs g t c pid t' :
  greedy_run g0 t0 cs g t → greedy_step g t c pid t' →
  greedy_run g0 t0 (cs ++ [c]) (g ++ [pid]) t'.
Proof.
  intros Hrun Hstep. induction Hrun as [g t|g t c0 cs pid0 t1 g' t'' Hs Hr IH]; simpl.
  - eapply greedy_next; [exact Hstep|constructor].
  - eapply greedy_next; [exact Hs|]. by apply IH.
Qed.

Lemma greedy_run_length g0 t0 cs g t :
  greedy_run g0 t0 cs g t → length g = (length g0 + length cs)%nat.
Proof.
  induction 1 as [|g t c cs pid t1 g' t' Hs Hr IH]; simpl; [lia|].
  rewrite IH, length_app. simpl. lia.
Qed.

Lemma match_fold_greedy t0 cs done ms used t :
  tracker_wf t0 → match_inv t0 ms used t →
  greedy_run [] t0 done (given_ids ms) t →
  ∃ ms' used' t',
    fold_left (match_centroid (dict_keys (tracked_persons t0))
      (map (fun pid => from_option centroid (0, 0) (dict_get pid (tracked_persons t0)))
         (dict_keys (tracked_persons t0)))) cs (ms, used, t) = (ms', used', t') ∧
    match_inv t0 ms' used' t' ∧
    greedy_run [] t0 (done ++ cs) (given_ids ms') t'.
Proof.
  intros Hwf. revert done ms used t.
  induction cs as [|c cs IH]; intros done ms used t Hinv Hrun; cbn [fold_left].
  - exists ms, used, t. by rewrite app_nil_r.
  - destruct (match_centroid_greedy t0 ms used t c Hwf Hinv)
      as (a & used1 & t1 & -> & Hinv1 & Hstep).
    destruct (IH (done ++ [c]) (ms ++ [a]) used1 t1 Hinv1) as (ms' & used' & t' & Heq & H1 & H2).
    { rewrite given_ids_snoc. by eapply greedy_run_snoc. }
    exists ms', used', t'. split; [done|]. split; [done|].
    by rewrite <- app_assoc in H2.
Qed.

(** *** The ageing loop *)

Lemma omap_cons {A B} (f : A → option B) (x : A) (l : list A) :
  omap f (x :: l) = match f x with Some y => y :: omap f l | None => omap f l end.
Proof. reflexivity. Qed.

Lemma omap_omap {A B C} (f : A → option B) (g : B → option C) (l : list A) :
  omap g (omap f l) = omap (fun x => f x ≫= g) l.
Proof.
  induction l as [|x l IH]; [done|].
  rewrite !omap_cons. destruct (f x) as [y|].
  - rewrite omap_cons. change (Some y ≫= g) with (g y). by rewrite IH.
  - exact IH.
Qed.

Lemma omap_ext_in {A B} (f g : A → option B) (l : list A) :
  (∀ x, x ∈ l → f x = g x) → omap f l = omap g l.
Proof.
  induction l as [|x l IH]; intros H; [done|].
  rewrite !omap_cons, (H x) by left. rewrite IH; [done|]. intros; apply H; by right.
Qed.

Lemma age_entry_key mem sel kv kv' : age_entry mem sel kv = Some kv' → kv'.1 = kv.1.
Proof.
  unfold age_entry. destruct (sel kv.1); [|by intros [= <-]].
  destruct (mem <? _); [done|]. by intros [= <-].
Qed.

Lemma age_omap_keys mem sel d k :
  k ∈ dict_keys (omap (age_entry mem sel) d) → k ∈ dict_keys d.
Proof.
  unfold dict_keys. intros H. apply list_elem_of_fmap in H as (kv' & -> & Hin).
  apply list_elem_of_omap in Hin as (kv & Hin & Hage).
  apply age_entry_key in Hage. rewrite Hage. apply list_elem_of_fmap. by exists kv.
Qed.

Lemma age_omap_nodup mem sel d :
  NoDup (dict_keys d) → NoDup (dict_keys (omap (age_entry mem sel) d)).
Proof.
  induction d as [|kv d IH]; intros Hnd; [constructor|].
  cbn [dict_keys map] in Hnd. apply NoDup_cons in Hnd as [Hk Hnd].
  rewrite omap_cons. destruct (age_entry mem sel kv) as [kv'|] eqn:E; [|by apply IH].
  cbn [dict_keys map]. apply NoDup_cons. split; [|by apply IH].
  rewrite (age_entry_key _ _ _ _ E). intros Hin. apply Hk. by eapply age_omap_keys.
Qed.

Lemma age_omap_none mem sel d :
  (∀ k, k ∈ dict_keys d → sel k = false) → omap (age_entry mem sel) d = d.
Proof.
  induction d as [|kv d IH]; intros H; [done|].
  rewrite omap_cons. unfold age_entry at 1. rewrite (H kv.1) by left. f_equal.
  apply IH. intros k Hk. apply H. by right.
Qed.

Lemma age_omap_ext mem sel sel' d :
  (∀ k, k ∈ dict_keys d → sel k = sel' k) →
  omap (age_entry mem sel) d = omap (age_entry mem sel') d.
Proof.
  intros H. apply omap_ext_in. intros kv Hin. unfold age_entry.
  rewrite (H kv.1); [done|]. apply list_elem_of_fmap. by exists kv.
Qed.

Lemma dict_alter_cons {V} (f : V → V) k kv (d : list (Z * V)) :
  dict_alter f k (kv :: d) =
  (if kv.1 =? k then (kv.1, f kv.2) else kv) :: dict_alter f k d.
Proof. reflexivity. Qed.

(** One round of [age_person] changes the entry under its key only. *)
Lemma age_dict_omap mem k d :
  NoDup (dict_keys d) → age_dict mem k d = omap (age_entry mem (Z.eqb k)) d.
Proof.
  unfold age_dict. induction d as [|[k' v] d IH]; intros Hnd; [done|].
  cbn [dict_keys map fst] in Hnd. apply NoDup_cons in Hnd as [Hk' Hnd]. specialize (IH Hnd).
  rewrite dict_alter_cons, omap_cons. unfold age_entry at 1. cbn [fst snd].
  rewrite (Z.eqb_sym k k'). destruct (k' =? k) eqn:E.
  - apply Z.eqb_eq in E. subst k'.
    rewrite (dict_alter_absent _ _ _ Hk'). cbn [dict_get]. rewrite Z.eqb_refl.
    cbn [frames_missing]. rewrite age_omap_none.
    2:{ intros x Hx. apply Z.eqb_neq. intros ->. done. }
    unfold missing_once.
    destruct (mem <? frames_missing v + 1) eqn:Em; [|done].
    unfold dict_del. rewrite filter_cons_False by (simpl; auto).
    apply (dict_del_absent _ _ Hk').
  - cbn [dict_get]. rewrite E. rewrite <- IH.
    destruct (dict_get k _) as [tr|]; [|done].
    destruct (mem <? frames_missing tr); [|done].
    unfold dict_del. rewrite filter_cons_True; [done|].
    simpl. apply Z.eqb_neq in E. done.
Qed.

Lemma set_tracked_persons_id t : set_tracked_persons (tracked_persons t) t = t.
Proof. by destruct t. Qed.

(** The whole loop changes the entries under the keys of [ks] that are not
    in [used]. *)
Lemma age_fold_omap (used : gset Z) ks t :
  NoDup ks → NoDup (dict_keys (tracked_persons t)) →
  fold_left (fun t person_id =>
               if bool_decide (person_id ∈ used) then t else age_person person_id t) ks t =
  set_tracked_persons
    (omap (age_entry (memory_frames t) (fun x => bool_decide (x ∈ ks ∧ x ∉ used)))
       (tracked_persons t)) t.
Proof.
  revert t. induction ks as [|k ks IH]; intros t Hks Hnd; cbn [fold_left].
  - rewrite age_omap_none; [by rewrite set_tracked_persons_id|].
    intros x _. apply bool_decide_eq_false. intros [H _]. by apply elem_of_nil in H.
  - apply NoDup_cons in Hks as [Hk Hks].
    destruct (bool_decide (k ∈ used)) eqn:Eu.
    + apply bool_decide_eq_true in Eu. rewrite (IH t Hks Hnd). f_equal.
      apply age_omap_ext. intros x _. apply bool_decide_ext. set_solver.
    + apply bool_decide_eq_false in Eu.
      rewrite IH; [|done|].
      2:{ unfold age_person. cbn [tracked_persons set_tracked_persons].
          rewrite age_dict_omap by done. by apply age_omap_nodup. }
      unfold age_person. destruct t as [n d md mem].
      cbn [tracked_persons set_tracked_persons memory_frames next_id max_distance] in *.
      rewrite age_dict_omap by done. unfold set_tracked_persons.
      cbn [tracked_persons memory_frames next_id max_distance]. f_equal.
      rewrite omap_omap. apply omap_ext_in. intros [x tr] Hin.
      unfold age_entry. cbn [fst snd]. destruct (k =? x) eqn:E.
      * apply Z.eqb_eq in E. subst x.
        rewrite (bool_decide_eq_true_2 (k ∈ k :: ks ∧ k ∉ used)) by set_solver.
        destruct (mem <? frames_missing tr + 1); [done|]. simpl.
        rewrite bool_decide_eq_false_2; [done|]. intros [H _]. done.
      * apply Z.eqb_neq in E. simpl.
        rewrite (bool_decide_ext (x ∈ k :: ks ∧ x ∉ used) (x ∈ ks ∧ x ∉ used)); [done|].
        set_solver.
Qed.

(** On a dict whose given-out entries are within the window, the loop is:
    one more missing frame for everyone else, then the removal of whoever
    exceeds the window. *)
Lemma age_omap_filter mem sel (given : list Z) d :
  (∀ kv, kv ∈ d → sel kv.1 = negb (bool_decide (kv.1 ∈ given))) →
  (∀ kv, kv ∈ d → kv.1 ∈ given → frames_missing kv.2 ≤ mem) →
  omap (age_entry mem sel) d =
  filter (fun kv => frames_missing kv.2 ≤ mem)
    (map (fun kv => if bool_decide (kv.1 ∈ given) then kv else (kv.1, missing_once kv.2)) d).
Proof.
  induction d as [|kv d IH]; intros Hsel Hmem; [done|].
  rewrite omap_cons. cbn [map].
  rewrite IH; [|intros; apply Hsel; by right|intros; apply Hmem; [by right|done]].
  unfold age_entry. rewrite (Hsel kv) by left.
  destruct (bool_decide (kv.1 ∈ given)) eqn:Eg; cbn [negb].
  - apply bool_decide_eq_true in Eg.
    rewrite filter_cons_True; [done|]. apply Hmem; [left|done].
  - destruct (mem <? frames_missing kv.2 + 1) eqn:Em.
    + apply Z.ltb_lt in Em. rewrite filter_cons_False; [done|]. simpl. lia.
    + apply Z.ltb_ge in Em. rewrite filter_cons_True; [done|]. simpl. lia.
Qed.

(** *** [update] as a whole *)

Lemma tracker_wf_init md mem : 0 ≤ mem → tracker_wf (PersonTracker_init md mem).
Proof. intros H. split; simpl; [constructor|constructor|done]. Qed.

Lemma tracker_wf_reset t : tracker_wf t → tracker_wf (reset t).
Proof. intros [_ _ H]. split; simpl; [constructor|constructor|done]. Qed.

Lemma update_general_greedy dets t :
  tracker_wf t →
  ∃ ms used t1,
    update_general dets t = (ms, age_unmatched (given_ids ms) t1) ∧
    match_inv t ms used t1 ∧
    greedy_run [] t (map centroid_of dets) (given_ids ms) t1 ∧
    tracker_wf (age_unmatched (given_ids ms) t1).
Proof.
  intros Hwf. unfold update_general.
  destruct (match_fold_greedy t (map centroid_of dets) [] [] ∅ t Hwf
              (match_inv_start t Hwf) (greedy_done [] t))
    as (ms & used & t1 & -> & Hinv & Hrun).
  exists ms, used, t1.
  assert (Hbelow : ∀ k, k ∈ dict_keys (tracked_persons t) → k < next_id t).
  { pose proof (wf_keys_below _ Hwf) as Hb. by rewrite Forall_forall in Hb. }
  assert (Hage :
    fold_left (fun t person_id =>
                 if bool_decide (person_id ∈ used) then t else age_person person_id t)
      (dict_keys (tracked_persons t)) t1 = age_unmatched (given_ids ms) t1).
  { rewrite age_fold_omap; [|apply Hwf|apply Hinv].
    unfold age_unmatched. f_equal. apply age_omap_filter.
    - intros [k tr] Hin. cbn [fst].
      assert (Hk : k ∈ dict_keys (tracked_persons t1)) by (by eapply dict_elem_keys).
      apply (inv_keys _ _ _ _ Hinv) in Hk.
      destruct (bool_decide (k ∈ given_ids ms)) eqn:Eg; cbn [negb].
      + apply bool_decide_eq_true in Eg. apply bool_decide_eq_false. intros [Hk0 Hu].
        apply (inv_given _ _ _ _ Hinv) in Eg as [Eg|Eg]; [done|].
        specialize (Hbelow k Hk0). lia.
      + apply bool_decide_eq_false in Eg. apply bool_decide_eq_true.
        assert (Hng : ¬ (k ∈ used ∨ next_id t ≤ k < next_id t1)).
        { intros H. apply Eg. by apply (inv_given _ _ _ _ Hinv). }
        split; [|tauto]. destruct Hk as [Hk|Hk]; [done|tauto].
    - intros [k tr] Hin Hg. cbn [fst snd] in *.
      rewrite (inv_zero _ _ _ _ Hinv k tr); [|by apply dict_elem_get; [apply Hinv|]|done].
      rewrite (inv_mem _ _ _ _ Hinv). apply Hwf. }
  split; [by rewrite Hage|]. split; [done|]. split; [done|].
  rewrite <- Hage. rewrite age_fold_omap; [|apply Hwf|apply Hinv].
  split; cbn [tracked_persons set_tracked_persons next_id memory_frames].
  - apply age_omap_nodup, Hinv.
  - apply Forall_forall. intros k Hk. apply age_omap_keys in Hk.
    pose proof (inv_below _ _ _ _ Hinv) as Hb. rewrite Forall_forall in Hb. by apply Hb.
  - rewrite (inv_mem _ _ _ _ Hinv). apply Hwf.
Qed.

(** ** Main results on the tracker: the matching *)



(** Every state that a tracker reaches from its constructor is well-formed,
    given a memory window that is not negative. *)
Lemma run_tracker_wf ops t : tracker_wf t → tracker_wf (run_tracker ops t).2.
Proof.
  revert t. induction ops as [|[detections|] ops IH]; intros t Hwf; simpl; [done| |].
  - destruct (update_general_greedy detections t Hwf) as (ms & used & t1 & Heq & _ & _ & Hwf').
    rewrite update_assignments_general, Heq.
    specialize (IH _ Hwf'). by destruct (run_tracker ops _).
  - by apply IH, tracker_wf_reset.
Qed.

Lemma run_tracker_init_wf md mem ops :
  0 ≤ mem → tracker_wf (run_tracker ops (PersonTracker_init md mem)).2.
Proof. intros H. by apply run_tracker_wf, tracker_wf_init. Qed.

(** One identity per box, in any tracker state. *)
Lemma match_fold_length ks kcs cs ms used t :
  length (fold_left (match_centroid ks kcs) cs (ms, used, t)).1.1
  = (length ms + length cs)%nat.
Proof.
  revert ms used t. induction cs as [|c cs IH]; intros ms used t; cbn [fold_left].
  - simpl. lia.
  - destruct (match_centroid_registered ks kcs ms used t c) as (ms1 & used1 & t1 & Heq & _).
    assert (Hlen : length (match_centroid ks kcs (ms, used, t) c).1.1 = S (length ms)).
    { unfold match_centroid. destruct (best_match _ _ _ _ _); cbn; rewrite length_app;
        simpl; lia. }
    destruct (match_centroid ks kcs (ms, used, t) c) as [[ms' used'] t'].
    rewrite IH. simpl in Hlen. simpl. lia.
Qed.

Lemma update_length detections t : length (update detections t).1 = length detections.
Proof.
  unfold update. rewrite update_assignments_general. unfold update_general.
  pose proof (match_fold_length (dict_keys (tracked_persons t))
    (map (fun pid => from_option centroid (0, 0) (dict_get pid (tracked_persons t)))
       (dict_keys (tracked_persons t))) (map centroid_of detections) [] ∅ t) as Hlen.
  destruct (fold_left _ (map centroid_of detections) ([], ∅, t)) as [[ms used] t1].
  cbn in *. rewrite length_map, Hlen, length_map. done.
Qed.

(** ** Alerts *)

Lemma in_cooldown_true last now c :
  in_cooldown last now c = true ↔ ∃ l, last = Some l ∧ (now - l < c)%Q.
Proof.
  unfold in_cooldown. destruct last as [l|].
  - rewrite Qltb_lt. split; [eauto|]. by intros (l' & [= <-] & H).
  - split; [done|]. by intros (l' & [=] & _).
Qed.

Lemma in_cooldown_false ch now s :
  in_cooldown (last_fired ch s) now (cooldown ch) = false ↔ ready ch now s.
Proof.
  unfold in_cooldown, ready. destruct (last_fired ch s) as [l|]; [|done].
  apply Qltb_ge.
Qed.

(** The email function leaves the audio channel alone. *)
Lemma send_email_notification_audio now msg s :
  last_alert_time (send_email_notification now msg s) = last_alert_time s ∧
  mixer_played (send_email_notification now msg s) = mixer_played s ∧
  audio_enabled (send_email_notification now msg s) = audio_enabled s.
Proof.
  unfold send_email_notification, dispatch_email.
  destruct (email_enabled_checkbox s); simpl; [|done].
  destruct (in_cooldown _ _ _); simpl; [done|].
  destruct (current_frame s); done.
Qed.

Lemma send_email_notification_fires now msg s :
  email_enabled_checkbox s = true → ready Email now s →
  send_email_notification now msg s =
  dispatch_email now msg (set_last_email_time (Some now) s).
Proof.
  intros Hc Hr. unfold send_email_notification. rewrite Hc. simpl.
  apply (in_cooldown_false Email) in Hr. simpl in Hr. by rewrite Hr.
Qed.

Lemma trigger_alert_fires now msg s :
  ready Audio now s →
  trigger_alert now msg s = dispatch Audio now msg (set_last_alert_time (Some now) s).
Proof.
  intros Hr. unfold trigger_alert.
  apply (in_cooldown_false Audio) in Hr. simpl in Hr. by rewrite Hr.
Qed.

Lemma trigger_suppressed ch now msg s last :
  last_fired ch s = Some last → (now - last < cooldown ch)%Q → trigger ch now msg s = s.
Proof.
  intros Hl Hlt.
  assert (Hin : in_cooldown (last_fired ch s) now (cooldown ch) = true).
  { apply in_cooldown_true. eauto. }
  destruct ch; simpl in *.
  - unfold trigger_alert. by rewrite Hin.
  - unfold send_email_notification. rewrite Hin. by destruct (email_enabled_checkbox s).
Qed.

Lemma trigger_fires ch now msg s :
  ready ch now s → operational ch s →
  trigger ch now msg s = dispatch ch now msg (set_last_fired ch now s) ∧
  last_fired ch (trigger ch now msg s) = Some now ∧
  dispatched ch (trigger ch now msg s) = S (dispatched ch s) ∧
  operational ch (trigger ch now msg s).
Proof.
  intros Hr Hop. destruct ch; simpl in *.
  - rewrite (trigger_alert_fires _ _ _ Hr). split; [done|]. simpl.
    destruct (send_email_notification_audio now msg
      (play_alert now (set_alert_log (alert_log s ++ [AlertLine now msg])
         (set_last_alert_time (Some now) s)))) as (-> & -> & ->).
    unfold play_alert. simpl. rewrite Hop. simpl. rewrite length_app. simpl.
    split; [done|]. split; [lia|done].
  - destruct Hop as (Hc & He & [img Hf]).
    rewrite (send_email_notification_fires _ _ _ Hc Hr). split; [done|].
    unfold dispatch_email, send_email_async. simpl. rewrite Hf, He. simpl.
    rewrite length_app. simpl. split; [done|]. split; [lia|]. by rewrite Hf.
Qed.

(** ** Main results on the alerts *)

(** C6.  On either channel, a trigger made less than the channel's cooldown
    after its last firing returns the application as it was: no field
    changes and nothing is dispatched.  A trigger that is not suppressed, on
    a channel that is switched on, first sets the channel's last-fired time
    to now and dispatches from the state so updated, once.  From a channel
    that never fired, triggers at 0 and at cooldown-1 dispatch once in all,
    triggers at 0 and at cooldown+1 twice. *)
Theorem cooldown_gating (ch : Channel) :
  (∀ s now msg last,
     last_fired ch s = Some last → (now - last < cooldown ch)%Q →
     trigger ch now msg s = s) ∧
  (∀ s now msg,
     ready ch now s → operational ch s →
     trigger ch now msg s = dispatch ch now msg (set_last_fired ch now s) ∧
     last_fired ch (set_last_fired ch now s) = Some now ∧
     last_fired ch (trigger ch now msg s) = Some now ∧
     dispatched ch (trigger ch now msg s) = S (dispatched ch s)) ∧
  (∀ s msg1 msg2,
     last_fired ch s = None → operational ch s →
     dispatched ch (trigger ch (cooldown ch - 1) msg2 (trigger ch 0 msg1 s))
       = S (dispatched ch s) ∧
     dispatched ch (trigger ch (cooldown ch + 1) msg2 (trigger ch 0 msg1 s))
       = S (S (dispatched ch s))).
Proof.
  split; [|split].
  - intros s now msg last. apply trigger_suppressed.
  - intros s now msg Hr Hop.
    destruct (trigger_fires ch now msg s Hr Hop) as (H1 & H2 & H3 & _).
    split; [done|]. split; [by destruct ch|]. done.
  - intros s msg1 msg2 Hnone Hop.
    assert (Hr0 : ready ch 0 s) by (unfold ready; by rewrite Hnone).
    destruct (trigger_fires ch 0 msg1 s Hr0 Hop) as (_ & Hl & Hd & Hop').
    split.
    + rewrite (trigger_suppressed ch _ msg2 _ 0 Hl); [done|].
      destruct ch; reflexivity.
    + assert (Hr1 : ready ch (cooldown ch + 1) (trigger ch 0 msg1 s)).
      { unfold ready. rewrite Hl. destruct ch; by vm_compute. }
      destruct (trigger_fires ch _ msg2 _ Hr1 Hop') as (_ & _ & Hd' & _).
      by rewrite Hd', Hd.
Qed.

Lemma cooldown_gating_witness :
  operational Email sample_app ∧ last_fired Email sample_app = None ∧
  dispatched Email (trigger Email (cooldown Email - 1) None (trigger Email 0 None sample_app))
    = S (dispatched Email sample_app) ∧
  dispatched Email (trigger Email (cooldown Email + 1) None (trigger Email 0 None sample_app))
    = S (S (dispatched Email sample_app)).
Proof.
  assert (Hop : operational Email sample_app).
  { split; [reflexivity|]. split; [reflexivity|]. by eexists. }
  split; [exact Hop|]. split; [reflexivity|].
  destruct (cooldown_gating Email) as (_ & _ & H).
  exact (H sample_app None None eq_refl Hop).
Defined.

(** C7, as the code has it.  The email is sent from inside an audio alert
    that is not suppressed.  With email notification on, a call of
    [trigger_alert] submits an email job, and sets the email channel's
    last-fired time, exactly when the cooldowns of both channels have
    passed; otherwise it submits none and leaves that time as it was.  A
    call of [send_email_notification] itself depends on the email channel's
    cooldown only. *)
Theorem email_gated_by_both_cooldowns s now msg :
  operational Email s →
  (ready Audio now s ∧ ready Email now s →
     dispatched Email (trigger_alert now msg s) = S (dispatched Email s) ∧
     last_email_time (trigger_alert now msg s) = Some now) ∧
  (¬ (ready Audio now s ∧ ready Email now s) →
     dispatched Email (trigger_alert now msg s) = dispatched Email s ∧
     last_email_time (trigger_alert now msg s) = last_email_time s) ∧
  (ready Email now s →
     dispatched Email (send_email_notification now msg s) = S (dispatched Email s)).
Proof.
  intros Hop.
  assert (Hemail : ∀ s', operational Email s' → ready Email now s' →
            dispatched Email (send_email_notification now msg s') = S (dispatched Email s') ∧
            last_email_time (send_email_notification now msg s') = Some now).
  { intros s' Hop' Hr'. destruct (trigger_fires Email now msg s' Hr' Hop') as (_ & H1 & H2 & _).
    done. }
  split; [|split].
  - intros [Ha He]. rewrite (trigger_alert_fires _ _ _ Ha). simpl.
    set (s1 := play_alert now _).
    assert (Hop1 : operational Email s1).
    { unfold s1, play_alert. simpl. destruct (audio_enabled s); exact Hop. }
    assert (He1 : ready Email now s1).
    { unfold s1, play_alert, ready. simpl. destruct (audio_enabled s); exact He. }
    destruct (Hemail s1 Hop1 He1) as [Hd Hl]. simpl in Hd. rewrite Hd, Hl.
    unfold s1, play_alert. simpl. by destruct (audio_enabled s).
  - intros Hnot. unfold trigger_alert.
    destruct (in_cooldown (last_alert_time s) now ALERT_COOLDOWN) eqn:Ea; [done|].
    apply (in_cooldown_false Audio) in Ea. simpl.
    set (s1 := play_alert now _). destruct Hop as (Hc & _ & _).
    assert (Hs1 : email_enabled_checkbox s1 = true ∧
                  last_email_time s1 = last_email_time s ∧
                  email_notifier s1 = email_notifier s).
    { unfold s1, play_alert. simpl. by destruct (audio_enabled s). }
    destruct Hs1 as (Hc1 & Hl1 & Hn1).
    assert (Hin : in_cooldown (last_email_time s) now EMAIL_COOLDOWN = true).
    { destruct (in_cooldown (last_email_time s) now EMAIL_COOLDOWN) eqn:Ee; [done|].
      apply (in_cooldown_false Email) in Ee. exfalso. by apply Hnot. }
    unfold send_email_notification. rewrite Hc1, Hl1, Hin. simpl.
    by rewrite Hn1, Hl1.
  - intros He. by destruct (Hemail s Hop He).
Qed.

Lemma email_gated_by_both_cooldowns_witness :
  operational Email sample_app ∧
  dispatched Email (send_email_notification 0 None sample_app)
    = S (dispatched Email sample_app).
Proof.
  assert (Hop : operational Email sample_app).
  { split; [reflexivity|]. split; [reflexivity|]. by eexists. }
  split; [exact Hop|].
  destruct (email_gated_by_both_cooldowns sample_app 0 None Hop) as (_ & _ & H).
  apply H. exact I.
Defined.

(** C7, counterexample.  Alerts at times 0 and 29 leave the email channel
    last fired at 0 and the audio channel at 29.  At 31 the email cooldown
    of 30 has passed, yet the alert is suppressed by the audio cooldown of 3
    and no email job is submitted. *)
Lemma email_independent_of_audio_fails : ¬ email_independent_of_audio.
Proof.
  intros H.
  specialize (H (trigger_alert 29 None (trigger_alert 0 None sample_app)) 31%Q None).
  assert (Hop : operational Email (trigger_alert 29 None (trigger_alert 0 None sample_app))).
  { split; [reflexivity|]. split; [reflexivity|]. by eexists. }
  assert (Hr : ready Email 31 (trigger_alert 29 None (trigger_alert 0 None sample_app))).
  { by vm_compute. }
  specialize (H Hop Hr). vm_compute in H. discriminate H.
Qed.

(** ** Session ledger and persistence *)

(** *** What the alerts leave alone *)

Lemma trigger_alert_keeps now msg s :
  logged_person_ids (trigger_alert now msg s) = logged_person_ids s ∧
  session_total_people (trigger_alert now msg s) = session_total_people s ∧
  session_compliant (trigger_alert now msg s) = session_compliant s ∧
  session_violations (trigger_alert now msg s) = session_violations s ∧
  db (trigger_alert now msg s) = db s ∧
  person_tracker (trigger_alert now msg s) = person_tracker s ∧
  timer_active (trigger_alert now msg s) = timer_active s ∧
  saved_images (trigger_alert now msg s) = saved_images s ∧
  violation_mode (trigger_alert now msg s) = violation_mode s.
Proof.
  unfold trigger_alert, send_email_notification, dispatch_email, play_alert.
  destruct (in_cooldown (last_alert_time s) _ _); [done|]. cbn.
  destruct (audio_enabled s); cbn; destruct (email_enabled_checkbox s); cbn; try done;
    destruct (in_cooldown (last_email_time s) _ _); cbn; try done;
    destruct (current_frame s); done.
Qed.

Lemma trigger_alert_set_db now msg d s :
  trigger_alert now msg (set_db d s) = set_db d (trigger_alert now msg s).
Proof.
  unfold trigger_alert, send_email_notification, dispatch_email, play_alert. cbn.
  destruct (in_cooldown (last_alert_time s) _ _); [done|]. cbn.
  destruct (audio_enabled s); cbn; destruct (email_enabled_checkbox s); cbn; try done;
    destruct (in_cooldown (last_email_time s) _ _); cbn; try done;
    destruct (current_frame s); done.
Qed.

Lemma trigger_alert_set_saved_images now msg l s :
  trigger_alert now msg (set_saved_images l s) =
  set_saved_images l (trigger_alert now msg s).
Proof.
  unfold trigger_alert, send_email_notification, dispatch_email, play_alert. cbn.
  destruct (in_cooldown (last_alert_time s) _ _); [done|]. cbn.
  destruct (audio_enabled s); cbn; destruct (email_enabled_checkbox s); cbn; try done;
    destruct (in_cooldown (last_email_time s) _ _); cbn; try done;
    destruct (current_frame s); done.
Qed.

(** *** The outcomes of a storage call *)

Lemma db_transaction_outcome write d :
  (∀ d0, storage_faults (write d0) = storage_faults d0) →
  ∃ r d', db_transaction write d = (r, d') ∧
    ((r = inl tt ∧ ∃ d1, d' = write d1 ∧ violations d1 = violations d ∧
        detections d1 = detections d ∧ daily_stats d1 = daily_stats d ∧
        storage_faults d1 = tail (storage_faults d) ∧
        head (storage_faults d) ≠ Some true) ∨
     (r = inr sqlite3_Error ∧ violations d' = violations d ∧
        detections d' = detections d ∧ daily_stats d' = daily_stats d ∧
        storage_faults d = true :: storage_faults d')).
Proof.
  intros _. unfold db_transaction. destruct (storage_faults d) as [|[|] rest] eqn:E.
  - eexists _, _. split; [done|]. left. split; [done|]. exists d. by rewrite E.
  - eexists _, _. split; [done|]. right. done.
  - eexists _, _. split; [done|]. left. split; [done|]. eexists. split; [done|]. done.
Qed.

Lemma log_violation_outcome now zone vt pid c ip d :
  ∃ r d', log_violation now zone vt pid c ip d = (r, d') ∧
    detections d' = detections d ∧ daily_stats d' = daily_stats d ∧
    ((r = inl tt ∧ head (storage_faults d) ≠ Some true ∧
      violations d' = violations d ++
        [{| v_timestamp := now; v_zone_name := zone; v_violation_type := vt;
            v_person_id := pid; v_confidence := c; v_image_path := ip |}]) ∨
     (r = inr sqlite3_Error ∧ violations d' = violations d ∧
      storage_faults d = true :: storage_faults d')).
Proof.
  unfold log_violation.
  destruct (db_transaction_outcome
    (fun d => {| storage_faults := storage_faults d;
       violations := violations d ++
         [{| v_timestamp := now; v_zone_name := zone; v_violation_type := vt;
             v_person_id := pid; v_confidence := c; v_image_path := ip |}];
       detections := detections d; daily_stats := daily_stats d |}) d)
    as (r & d' & -> & [(-> & d1 & -> & Hv & Hd & Hs & _ & Hh)|(-> & Hv & Hd & Hs & Hf)]);
    [done| |].
  - exists (inl tt). eexists. split; [done|]. simpl.
    split; [done|]. split; [done|]. left. split; [done|]. split; [done|]. congruence.
  - exists (inr sqlite3_Error), d'. split; [done|].
    split; [done|]. split; [done|]. right. done.
Qed.

Lemma log_detection_outcome now zone pid st ok d :
  ∃ r d', log_detection now zone pid st ok d = (r, d') ∧
    violations d' = violations d ∧ daily_stats d' = daily_stats d ∧
    ((r = inl tt ∧ head (storage_faults d) ≠ Some true ∧
      detections d' = detections d ++
        [{| d_timestamp := now; d_zone_name := zone; d_person_id := pid;
            d_has_helmet := status_get st "helmet";
            d_has_vest := status_get st "vest";
            d_has_gloves := status_get st "gloves";
            d_has_boots := status_get st "boots";
            d_has_goggles := status_get st "goggles";
            d_is_compliant := ok |}]) ∨
     (r = inr sqlite3_Error ∧ detections d' = detections d ∧
      storage_faults d = true :: storage_faults d')).
Proof.
  unfold log_detection.
  destruct (db_transaction_outcome
    (fun d => {| storage_faults := storage_faults d;
       violations := violations d;
       detections := detections d ++
         [{| d_timestamp := now; d_zone_name := zone; d_person_id := pid;
             d_has_helmet := status_get st "helmet";
             d_has_vest := status_get st "vest";
             d_has_gloves := status_get st "gloves";
             d_has_boots := status_get st "boots";
             d_has_goggles := status_get st "goggles";
             d_is_compliant := ok |}];
       daily_stats := daily_stats d |}) d)
    as (r & d' & -> & [(-> & d1 & -> & Hv & Hd & Hs & _ & Hh)|(-> & Hv & Hd & Hs & Hf)]);
    [done| |].
  - exists (inl tt). eexists. split; [done|]. simpl.
    split; [done|]. split; [done|]. left. split; [done|]. split; [done|]. congruence.
  - exists (inr sqlite3_Error), d'. split; [done|].
    split; [done|]. split; [done|]. right. done.
Qed.

Lemma update_daily_stats_outcome now zone a b c d :
  ∃ r d', update_daily_stats now zone a b c d = (r, d') ∧
    violations d' = violations d ∧ detections d' = detections d.
Proof.
  unfold update_daily_stats.
  match goal with |- context [db_transaction ?w d] =>
    destruct (db_transaction_outcome w d)
      as (r & d' & -> & [(-> & d1 & -> & Hv & Hd & _)|(-> & Hv & Hd & _)]); [done| |]
  end.
  - eexists _, _. split; [done|]. simpl. by rewrite Hv, Hd.
  - eexists _, _. split; [done|]. done.
Qed.

(** *** One person of a frame *)

#[local] Arguments log_violation : simpl never.
#[local] Arguments log_detection : simpl never.
#[local] Arguments update_daily_stats : simpl never.
#[local] Arguments trigger_alert : simpl never.
#[local] Arguments date_of : simpl never.

Ltac se_unfold :=
  repeat (progress unfold mbind, se_mbind, mret, se_mret, se_bind, se_do, se_get, se_ret,
            on_db, save_violation_image).

Lemma process_person_repeat now orig ids i v s :
  person_id_at ids i ∈ logged_person_ids s →
  process_person now orig ids (i, v) s = (inl tt, s).
Proof.
  intros Hin. unfold process_person. fold (person_id_at ids i). se_unfold.
  by rewrite bool_decide_eq_true_2.
Qed.

Lemma process_person_outcome now orig ids i v s :
  let pid := person_id_at ids i in
  pid ∉ logged_person_ids s →
  ∃ r s', process_person now orig ids (i, v) s = (r, s') ∧
    person_counted pid (has_violation v) s s' ∧
    (∃ rows, detections (db s') = detections (db s) ++ rows ∧
             (rows = [] ∨ rows = [detection_row now pid v])) ∧
    (∃ rows, violations (db s') = violations (db s) ++ rows ∧
             (rows = [] ∨ rows = [violation_row now pid v])).
Proof.
  intros pid Hin. unfold process_person. fold (person_id_at ids i). fold pid. se_unfold.
  rewrite bool_decide_eq_false_2 by done.
  destruct (has_violation v) eqn:Ev; cbn.
  - match goal with |- context [log_violation ?a ?b ?c ?d ?e ?f ?g] =>
      destruct (log_violation_outcome a b c d e f g) as (r & d' & -> & Hd & Hs & Hcase)
    end.
    destruct Hcase as [(-> & _ & Hv)|(-> & Hv & _)].
    + pose proof (trigger_alert_keeps now (violation_message v)) as Hkeep.
      match goal with |- context [log_detection ?a ?b ?c ?d ?e ?f] =>
        destruct (log_detection_outcome a b c d e f) as (r2 & d2 & -> & Hv2 & Hs2 & Hcase2)
      end.
      match type of Hv2 with context [trigger_alert ?a ?b ?c] =>
        destruct (Hkeep c) as (K1 & K2 & K3 & K4 & K5 & K6 & K7 & K8 & K9)
      end.
      rewrite K5 in *. cbn in *.
      eexists _, _. split; [done|]. split; [|split].
      * split; cbn; rewrite ?K1, ?K2, ?K3, ?K4, ?K6, ?K7, ?K9; cbn; try done; try lia.
        congruence.
      * cbn. destruct Hcase2 as [(_ & _ & Hd2)|(_ & Hd2 & _)]; rewrite Hd2, Hd.
        -- exists [detection_row now pid v]. split; [|by right].
           unfold detection_row. by rewrite Ev.
        -- exists []. split; [by rewrite app_nil_r|by left].
      * cbn. exists [violation_row now pid v]. split; [|by right]. rewrite Hv2, Hv. done.
    + eexists _, _. split; [done|]. cbn. split; [|split].
      * split; cbn; try done; try lia; congruence.
      * exists []. rewrite app_nil_r. split; [done|by left].
      * exists []. rewrite app_nil_r. split; [done|by left].
  - match goal with |- context [log_detection ?a ?b ?c ?d ?e ?f] =>
      destruct (log_detection_outcome a b c d e f) as (r2 & d2 & -> & Hv2 & Hs2 & Hcase2)
    end.
    cbn in *. eexists _, _. split; [done|]. cbn. split; [|split].
    + split; cbn; try done; try lia.
    + cbn. destruct Hcase2 as [(_ & _ & Hd2)|(_ & Hd2 & _)]; rewrite Hd2.
      * exists [detection_row now pid v]. split; [|by right].
        unfold detection_row. by rewrite Ev.
      * exists []. split; [by rewrite app_nil_r|by left].
    + exists []. rewrite app_nil_r. split; [done|by left].
Qed.

Lemma process_person_stored now orig ids i v s :
  let pid := person_id_at ids i in
  pid ∉ logged_person_ids s → storage_faults (db s) = [] →
  ∃ s', process_person now orig ids (i, v) s = (inl tt, s') ∧
    person_counted pid (has_violation v) s s' ∧
    detections (db s') = detections (db s) ++ [detection_row now pid v] ∧
    violations (db s') =
      violations (db s) ++ (if has_violation v then [violation_row now pid v] else []) ∧
    alert_state s' =
      alert_state (if has_violation v
                   then trigger_alert now (violation_message v) (count_person pid true s)
                   else s) ∧
    storage_faults (db s') = [].
Proof.
  intros pid Hin Hok. unfold process_person. fold (person_id_at ids i). fold pid. se_unfold.
  rewrite bool_decide_eq_false_2 by done.
  unfold log_violation, log_detection, db_transaction.
  destruct (has_violation v) eqn:Ev; cbn; rewrite ?Hok; cbn.
  - rewrite ?trigger_alert_set_db, ?trigger_alert_set_saved_images. cbn. rewrite ?Hok. cbn.
    pose proof (trigger_alert_keeps now (violation_message v)) as Hkeep.
    match goal with |- context [trigger_alert ?a ?b ?c] =>
      destruct (Hkeep c) as (K1 & K2 & K3 & K4 & K5 & K6 & K7 & K8 & K9)
    end.
    eexists. split; [done|]. cbn.
    split; [split; cbn; rewrite ?K1, ?K2, ?K3, ?K4, ?K6, ?K7, ?K9; cbn; try done; try lia|].
    split; [unfold detection_row; by rewrite Ev|]. split; [done|]. split; [done|done].
  - eexists. split; [done|]. cbn.
    split; [split; cbn; try done; try lia|].
    split; [unfold detection_row; by rewrite Ev|]. split; [by rewrite app_nil_r|]. done.
Qed.

Lemma process_person_failed now orig ids i v s rest :
  let pid := person_id_at ids i in
  pid ∉ logged_person_ids s → storage_faults (db s) = true :: rest →
  ∃ s', process_person now orig ids (i, v) s = (inr sqlite3_Error, s') ∧
    person_counted pid (has_violation v) s s' ∧
    detections (db s') = detections (db s) ∧
    violations (db s') = violations (db s) ∧
    alert_state s' = alert_state s ∧
    storage_faults (db s') = rest.
Proof.
  intros pid Hin Hf. unfold process_person. fold (person_id_at ids i). fold pid. se_unfold.
  rewrite bool_decide_eq_false_2 by done.
  unfold log_violation, log_detection, db_transaction.
  destruct (has_violation v) eqn:Ev; cbn; rewrite ?Hf; cbn.
  - eexists. split; [done|]. cbn. split; [split; cbn; try done; try lia|]. done.
  - eexists. split; [done|]. cbn. split; [split; cbn; try done; try lia|]. done.
Qed.

(** The first storage call made for a newly seen person fails. *)
Lemma process_person_failed_first now orig ids i v s rest :
  let pid := person_id_at ids i in
  pid ∉ logged_person_ids s → storage_faults (db s) = true :: rest →
  ∃ s', process_person now orig ids (i, v) s = (inr sqlite3_Error, s') ∧
    person_counted pid (has_violation v) s s' ∧
    detections (db s') = detections (db s) ∧
    violations (db s') = violations (db s) ∧
    alert_state s' = alert_state s ∧
    saved_images s' =
      saved_images s ++ (if has_violation v then [violation_image now orig pid] else []) ∧
    storage_faults (db s') = rest.
Proof.
  intros pid Hin Hf. unfold process_person. fold (person_id_at ids i). fold pid. se_unfold.
  rewrite bool_decide_eq_false_2 by done.
  unfold log_violation, log_detection, db_transaction.
  destruct (has_violation v) eqn:Ev; cbn; rewrite ?Hf; cbn.
  - eexists. split; [done|]. cbn. split; [split; cbn; try done; try lia|]. done.
  - eexists. split; [done|]. cbn. split; [split; cbn; try done; try lia|].
    by rewrite app_nil_r.
Qed.

(** The violation record of a newly seen person is written and the
    detection record fails. *)
Lemma process_person_failed_second now orig ids i v s rest :
  let pid := person_id_at ids i in
  pid ∉ logged_person_ids s → has_violation v = true →
  storage_faults (db s) = false :: true :: rest →
  ∃ s', process_person now orig ids (i, v) s = (inr sqlite3_Error, s') ∧
    person_counted pid true s s' ∧
    detections (db s') = detections (db s) ∧
    violations (db s') = violations (db s) ++ [violation_row now pid v] ∧
    alert_state s' =
      alert_state (trigger_alert now (violation_message v) (count_person pid true s)) ∧
    saved_images s' = saved_images s ++ [violation_image now orig pid] ∧
    storage_faults (db s') = rest.
Proof.
  intros pid Hin Ev Hf. unfold process_person. fold (person_id_at ids i). fold pid. se_unfold.
  rewrite bool_decide_eq_false_2 by done.
  unfold log_violation, log_detection, db_transaction.
  rewrite Ev; cbn; rewrite ?Hf; cbn.
  rewrite ?trigger_alert_set_db, ?trigger_alert_set_saved_images. cbn.
  pose proof (trigger_alert_keeps now (violation_message v)) as Hkeep.
  match goal with |- context [trigger_alert ?a ?b ?c] =>
    destruct (Hkeep c) as (K1 & K2 & K3 & K4 & K5 & K6 & K7 & K8 & K9)
  end.
  eexists. split; [done|]. cbn.
  split; [split; cbn; rewrite ?K1, ?K2, ?K3, ?K4, ?K6, ?K7, ?K9; cbn; try done; try lia|].
  split; [done|]. split; [done|]. split; [done|]. done.
Qed.

(** *** Invariants along a frame *)

Lemma ledger_inv_view s s' : session_view s = session_view s' → ledger_inv s → ledger_inv s'.
Proof. unfold session_view, ledger_inv. intros [= -> -> -> -> _ _]. done. Qed.



Lemma person_counted_ledger pid viol s s' :
  pid ∉ logged_person_ids s → person_counted pid viol s s' → ledger_inv s → ledger_inv s'.
Proof.
  intros Hnew [Hl Ht Hc Hv _ _ _ _] [H1 H2]. unfold ledger_inv.
  rewrite Hl, Ht, Hc, Hv. split; [destruct viol; lia|].
  rewrite size_union by set_solver. rewrite size_singleton. lia.
Qed.

Lemma process_person_ledger now orig ids entry s :
  ledger_inv s → ledger_inv (process_person now orig ids entry s).2.
Proof.
  intros Hinv. destruct entry as [i v].
  destruct (decide (person_id_at ids i ∈ logged_person_ids s)) as [Hin|Hnew].
  - by rewrite process_person_repeat.
  - destruct (process_person_outcome now orig ids i v s Hnew) as (r & s' & -> & Hc & _).
    by eapply person_counted_ledger.
Qed.


Lemma se_for_cons {S A} (x : A) rest (body : A → SE S unit) s :
  se_for (x :: rest) body s =
  match body x s with
  | (inl _, s') => se_for rest body s'
  | (inr e, s') => (inr e, s')
  end.
Proof. reflexivity. Qed.

Lemma se_for_preserves {S A} (P : S → Prop) items (body : A → SE S unit) s :
  (∀ x s, x ∈ items → P s → P (body x s).2) → P s → P (se_for items body s).2.
Proof.
  revert s. induction items as [|x items IH]; intros s Hbody HP; [done|].
  rewrite se_for_cons. specialize (Hbody x s) as Hx.
  destruct (body x s) as [[[]|e] s'] eqn:E; cbn [snd] in *.
  - apply IH; [|apply Hx; [left|done]]. intros; apply Hbody; [by right|done].
  - apply Hx; [left|done].
Qed.

Lemma enumerate_elem {A} (items : list A) i x :
  (i, x) ∈ enumerate items → (i < length items)%nat.
Proof.
  unfold enumerate. intros H. apply list_elem_of_lookup in H as [n Hn].
  apply lookup_zip_with_Some in Hn as (a & b & [= <- <-] & Ha & Hb).
  apply lookup_seq in Ha as [-> Hlt]. simpl. done.
Qed.


Lemma assign_person_ids_length bboxes s :
  length (assign_person_ids bboxes s).1 = length bboxes.
Proof.
  unfold assign_person_ids. destruct (person_tracker s) as [t|].
  - destruct (0 <? length bboxes)%nat.
    + pose proof (update_length bboxes t) as H. destruct (update bboxes t). done.
    + simpl. by rewrite length_map, length_seq.
  - simpl. by rewrite length_map, length_seq.
Qed.

Lemma assign_person_ids_view bboxes s :
  session_view (assign_person_ids bboxes s).2 = session_view s ∧
  timer_active (assign_person_ids bboxes s).2 = timer_active s.
Proof.
  unfold assign_person_ids. destruct (person_tracker s) as [t|]; [|done].
  destruct (0 <? length bboxes)%nat; [|done]. by destruct (update bboxes t).
Qed.

Ltac se_unfold_all :=
  repeat (progress unfold mbind, se_mbind, mret, se_mret, se_bind, se_do, se_get, se_ret,
            on_db).

Lemma stop_detection_view now s :
  session_view (stop_detection now s).2 = session_view s.
Proof.
  unfold stop_detection. se_unfold_all. cbn.
  destruct (0 <? session_total_people s); [|done].
  match goal with |- context [update_daily_stats ?a ?b ?c ?d ?e ?f] =>
    destruct (update_daily_stats_outcome a b c d e f) as (r & d' & -> & Hv & Hd)
  end.
  unfold session_view. cbn in *. by rewrite Hv, Hd.
Qed.

Lemma assign_person_ids_frame_count bboxes n s :
  (assign_person_ids bboxes (set_frame_count n s)).1 = (assign_person_ids bboxes s).1.
Proof.
  unfold assign_person_ids. cbn [person_tracker set_frame_count].
  destruct (person_tracker s) as [t|]; [|done].
  destruct (0 <? length bboxes)%nat; [|done]. by destruct (update bboxes t).
Qed.

Section FrameFacts.
Context {numpy : NumPy}.

(** The frame step on a frame that was read and has pixels. *)
Lemma update_frame_running inp s :
  ret inp = true → detection_frame_nonempty inp = true →
  let results := check_violations (violation_mode s) (detection_data inp) in
  let s1 := set_frame_count (frame_count s + 1) s in
  let s3 := set_current_frame (Some {| image_frame := frame inp; image_annotated := true |})
              (assign_person_ids (map to_xywh results) s1).2 in
  update_frame inp s =
  match se_for (enumerate results)
          (process_person (now inp) {| image_frame := frame inp; image_annotated := false |}
             (frame_person_ids inp s)) s3 with
  | (inl _, s4) =>
      (inl tt,
       if forallb (fun v => negb (has_violation v)) results
       then set_status_label ("Status: Detection running... No violations", "") s4
       else s4)
  | (inr e, s4) => (inr e, s4)
  end.
Proof.
  intros Hret Hne results s1 s3. unfold update_frame, frame_person_ids.
  rewrite Hret, Hne. cbn [negb andb]. se_unfold_all. cbn [violation_mode set_frame_count].
  fold results. fold s1.
  rewrite <- (assign_person_ids_frame_count _ (frame_count s + 1) s). fold s1.
  destruct (assign_person_ids (map to_xywh results) s1) as [ids s2] eqn:E.
  subst s3. cbn [fst snd].
  destruct (se_for _ _ _) as [[[]|e] s4]; [|done].
  by destruct (forallb _ _).
Qed.

Lemma frame_person_ids_length inp s :
  ret inp = true → detection_frame_nonempty inp = true →
  length (frame_person_ids inp s)
  = length (check_violations (violation_mode s) (detection_data inp)).
Proof.
  intros Hret Hne. unfold frame_person_ids. rewrite Hret, Hne. cbn [andb].
  by rewrite assign_person_ids_length, length_map.
Qed.

(** A property of the session view that holds along the persons of a frame
    holds after the frame. *)
Lemma update_frame_preserves (P : App → Prop) inp s :
  (∀ s1 s2, session_view s1 = session_view s2 → P s1 → P s2) →
  (∀ i v s', (i < length (frame_person_ids inp s))%nat → P s' →
     P (process_person (now inp) {| image_frame := frame inp; image_annotated := false |}
          (frame_person_ids inp s) (i, v) s').2) →
  P s → P (update_frame inp s).2.
Proof.
  intros Hview Hbody HP.
  destruct (ret inp) eqn:Hret.
  2:{ unfold update_frame. rewrite Hret. cbn [negb].
      eapply Hview; [|exact HP]. symmetry. apply stop_detection_view. }
  destruct (detection_frame_nonempty inp) eqn:Hne.
  2:{ unfold update_frame. rewrite Hret, Hne. cbn [negb]. se_unfold_all. cbn [snd].
      eapply Hview; [|exact HP]. done. }
  rewrite (update_frame_running inp s Hret Hne).
  set (results := check_violations (violation_mode s) (detection_data inp)).
  set (s3 := set_current_frame _ _).
  assert (HP3 : P s3).
  { eapply Hview; [|exact HP]. unfold s3.
    destruct (assign_person_ids_view (map to_xywh results)
                (set_frame_count (frame_count s + 1) s)) as [Hv _].
    unfold session_view in *. cbn in *. by rewrite Hv. }
  assert (Hloop : P (se_for (enumerate results)
            (process_person (now inp) {| image_frame := frame inp; image_annotated := false |}
               (frame_person_ids inp s)) s3).2).
  { apply se_for_preserves; [|exact HP3]. intros [i v] s' Hin HPs'.
    apply Hbody; [|done]. apply enumerate_elem in Hin.
    by rewrite (frame_person_ids_length inp s Hret Hne). }
  destruct (se_for _ _ s3) as [[[]|e] s4]; cbn [snd] in *; [|done].
  destruct (forallb _ results); [|done]. eapply Hview; [|exact Hloop]. done.
Qed.

Lemma update_frame_ledger inp s : ledger_inv s → ledger_inv (update_frame inp s).2.
Proof.
  apply update_frame_preserves.
  - apply ledger_inv_view.
  - intros i v s' _. apply process_person_ledger.
Qed.



Lemma start_detection_session s0 :
  session_inv (detections (db s0)) (violations (db s0)) [] (start_detection true s0).
Proof.
  assert (Hdb : db (start_detection true s0) = db s0 ∧
                logged_person_ids (start_detection true s0) = ∅ ∧
                session_total_people (start_detection true s0) = 0 ∧
                session_compliant (start_detection true s0) = 0 ∧
                session_violations (start_detection true s0) = 0).
  { unfold start_detection. cbn. by destruct (person_tracker s0). }
  destruct Hdb as (Hdb & Hl & Ht & Hc & Hv). split.
  - unfold ledger_inv. rewrite Hl, Ht, Hc, Hv. done.
  - intros k. rewrite Hl. set_solver.
  - exists []. rewrite Hdb, app_nil_r. split; [done|]. split; [constructor|]. set_solver.
  - exists []. rewrite Hdb, app_nil_r. split; [done|]. split; [constructor|]. set_solver.
Qed.

Lemma app_step_ledger ev s : ledger_inv s → ledger_inv (app_step ev s).
Proof.
  intros Hinv. destruct ev as [opened|inp|t]; simpl.
  - destruct opened.
    + apply (si_ledger _ _ _ _ (start_detection_session s)).
    + eapply ledger_inv_view; [|exact Hinv]. done.
  - destruct (timer_active s); [by apply update_frame_ledger|done].
  - eapply ledger_inv_view; [|exact Hinv]. symmetry. apply stop_detection_view.
Qed.

Lemma run_app_ledger evs s : ledger_inv s → ledger_inv (run_app evs s).
Proof.
  unfold run_app. revert s. induction evs as [|ev evs IH]; intros s Hinv; simpl; [done|].
  by apply IH, app_step_ledger.
Qed.

Lemma App_init_ledger storage a b c : ledger_inv (App_init storage a b c).
Proof. done. Qed.

End FrameFacts.

Section SessionResults.
Context {numpy : NumPy}.

(** ** Main results on the session ledger and the persistence *)

(** C10.  The counters of a new application and of a session just started
    satisfy total = compliant + violations and total = size of the logged
    set; every step keeps this: a session start, a frame (whether it ends
    normally or with an exception), the processing of one person (first or
    repeated observation), a stop.  So it holds after every sequence of
    events. *)
Theorem ledger_invariant :
  (∀ storage a b c, ledger_inv (App_init storage a b c)) ∧
  (∀ s, ledger_inv (start_detection true s)) ∧
  (∀ s, ledger_inv s →
     (∀ opened, ledger_inv (start_detection opened s)) ∧
     (∀ inp, ledger_inv (update_frame inp s).2) ∧
     (∀ now orig ids entry, ledger_inv (process_person now orig ids entry s).2) ∧
     (∀ now, ledger_inv (stop_detection now s).2)) ∧
  (∀ storage a b c evs, ledger_inv (run_app evs (App_init storage a b c))).
Proof.
  split; [|split; [|split]].
  - intros. apply App_init_ledger.
  - intros s. apply (si_ledger _ _ _ _ (start_detection_session s)).
  - intros s Hinv. split; [|split; [|split]].
    + intros opened. apply (app_step_ledger (EvStart opened) s Hinv).
    + intros inp. by apply update_frame_ledger.
    + intros. by apply process_person_ledger.
    + intros t. apply (app_step_ledger (EvStop t) s Hinv).
  - intros. apply run_app_ledger, App_init_ledger.
Qed.


End SessionResults.

Section SessionResultsInstances.
#[local] Existing Instance numpy_2.

Lemma ledger_invariant_witness :
  ledger_inv sample_app ∧ ledger_inv (update_frame sample_frame sample_app).2.
Proof.
  assert (H : ledger_inv sample_app) by done.
  split; [exact H|].
  destruct ledger_invariant as (_ & _ & Hstep & _).
  destruct (Hstep sample_app H) as (_ & Hframe & _). apply Hframe.
Defined.


End SessionResultsInstances.

Section StorageResults.
Context {numpy : NumPy}.

Lemma assign_person_ids_alerts bboxes s :
  alert_state (assign_person_ids bboxes s).2 = alert_state s ∧
  db (assign_person_ids bboxes s).2 = db s ∧
  logged_person_ids (assign_person_ids bboxes s).2 = logged_person_ids s ∧
  session_total_people (assign_person_ids bboxes s).2 = session_total_people s.
Proof.
  unfold assign_person_ids. destruct (person_tracker s) as [t|]; [|done].
  destruct (0 <? length bboxes)%nat; [|done]. by destruct (update bboxes t).
Qed.

Lemma se_for_app_raise {S A} (pre : list A) x post (body : A → SE S unit) s s1 e s2 :
  se_for pre body s = (inl tt, s1) → body x s1 = (inr e, s2) →
  se_for (pre ++ x :: post) body s = (inr e, s2).
Proof.
  revert s. induction pre as [|y pre IH]; intros s Hpre Hx.
  - cbn in Hpre. injection Hpre as <-. by rewrite app_nil_l, se_for_cons, Hx.
  - rewrite <- app_comm_cons, se_for_cons. rewrite se_for_cons in Hpre.
    destruct (body y s) as [[[]|e'] s'] eqn:E; [|done]. by apply IH.
Qed.

(** The upsert of [stop_detection] fails: the timer was stopped before. *)
Lemma stop_detection_failed now s rest :
  0 < session_total_people s → storage_faults (db s) = true :: rest →
  ∃ s', stop_detection now s = (inr sqlite3_Error, s') ∧
    timer_active s' = false ∧
    status_label s' = ("Status: Detection stopped", (status_label s).2) ∧
    tables_unchanged (db s) (db s').
Proof.
  intros Hpos Hf. unfold stop_detection. se_unfold_all. cbn.
  apply Z.ltb_lt in Hpos. rewrite Hpos.
  unfold update_daily_stats, db_transaction. cbn. rewrite Hf. eexists. done.
Qed.

(** The loop over the persons of a frame leaves the timer as it is. *)
Lemma frame_body_timer inp s x s1 :
  timer_active (frame_body inp s x s1).2 = timer_active s1.
Proof.
  destruct x as [i v]. unfold frame_body.
  destruct (decide (person_id_at (frame_person_ids inp s) i ∈ logged_person_ids s1))
    as [Hin|Hin].
  - by rewrite process_person_repeat.
  - destruct (process_person_outcome (now inp)
      {| image_frame := frame inp; image_annotated := false |}
      (frame_person_ids inp s) i v s1 Hin) as (r & s' & -> & Hc & _).
    apply Hc.
Qed.

Lemma frame_loop_timer inp s items :
  timer_active (se_for items (frame_body inp s) (frame_loop_start inp s)).2 = timer_active s.
Proof.
  assert (H0 : timer_active (frame_loop_start inp s) = timer_active s).
  { unfold frame_loop_start. cbn [set_current_frame timer_active].
    by rewrite (proj2 (assign_person_ids_view _ _)). }
  revert H0. generalize (frame_loop_start inp s) as s0.
  induction items as [|x items IH]; intros s0 H0; [done|].
  rewrite se_for_cons. pose proof (frame_body_timer inp s x s0) as Hx.
  destruct (frame_body inp s x s0) as [[[]|e] s'] eqn:E; cbn [snd] in *.
  - apply IH. congruence.
  - congruence.
Qed.

(** An exception of the loop over the persons leaves the frame step. *)
Lemma update_frame_raise inp s e s' :
  ret inp = true → detection_frame_nonempty inp = true →
  se_for (enumerate (check_violations (violation_mode s) (detection_data inp)))
    (frame_body inp s) (frame_loop_start inp s) = (inr e, s') →
  update_frame inp s = (inr e, s') ∧ timer_active s' = timer_active s.
Proof.
  intros Hret Hne Hloop.
  rewrite (update_frame_running inp s Hret Hne).
  fold (frame_loop_start inp s). fold (frame_body inp s). rewrite Hloop. split; [done|].
  pose proof (frame_loop_timer inp s
    (enumerate (check_violations (violation_mode s) (detection_data inp)))) as Ht.
  by rewrite Hloop in Ht.
Qed.

(** C8, as the code has it.  A storage error is caught nowhere.  Each
    [Database] method raises and leaves the tables as they were.  A newly
    seen person is put in the logged set and counted before any record is
    written, so later observations of the person write nothing.  When the
    first record of the person cannot be written, the processing raises
    with no record of the person and no alert; the picture of a violating
    person has been saved by then.  When the violation record of a violating
    person was written and the detection record cannot be, the processing
    raises with the violation row and the alert made and the detection row
    missing.  The loop over the persons ends at the person whose processing
    raises, with what was done for the persons before it, and the frame
    step ends with that exception in that state, whatever the place of the
    person in the frame; the timer is as it was.  When the upsert of the
    daily row fails in [stop_detection], which a frame that could not be
    read runs too, the timer has been stopped and the status set, and the
    tables are unchanged. *)
Theorem storage_error_propagates :
  (∀ d rest,
     storage_faults d = true :: rest →
     (∀ write, ∃ d', db_transaction write d = (inr sqlite3_Error, d') ∧
        tables_unchanged d d') ∧
     (∀ now zone vt pid c ip,
        ∃ d', log_violation now zone vt pid c ip d = (inr sqlite3_Error, d') ∧
          tables_unchanged d d') ∧
     (∀ now zone pid st ok,
        ∃ d', log_detection now zone pid st ok d = (inr sqlite3_Error, d') ∧
          tables_unchanged d d') ∧
     (∀ now zone total compliant violating,
        ∃ d', update_daily_stats now zone total compliant violating d
              = (inr sqlite3_Error, d') ∧
          tables_unchanged d d')) ∧
  (∀ now orig ids i v s rest,
     let pid := person_id_at ids i in
     pid ∉ logged_person_ids s → storage_faults (db s) = true :: rest →
     ∃ s', process_person now orig ids (i, v) s = (inr sqlite3_Error, s') ∧
       person_counted pid (has_violation v) s s' ∧
       detections (db s') = detections (db s) ∧
       violations (db s') = violations (db s) ∧
       alert_state s' = alert_state s ∧
       saved_images s' =
         saved_images s ++
         (if has_violation v then [violation_image now orig pid] else []) ∧
       ∀ now' orig' v', process_person now' orig' ids (i, v') s' = (inl tt, s')) ∧
  (∀ now orig ids i v s rest,
     let pid := person_id_at ids i in
     pid ∉ logged_person_ids s → has_violation v = true →
     storage_faults (db s) = false :: true :: rest →
     ∃ s', process_person now orig ids (i, v) s = (inr sqlite3_Error, s') ∧
       person_counted pid true s s' ∧
       violations (db s') = violations (db s) ++ [violation_row now pid v] ∧
       alert_state s' =
         alert_state (trigger_alert now (violation_message v) (count_person pid true s)) ∧
       detections (db s') = detections (db s) ∧
       saved_images s' = saved_images s ++ [violation_image now orig pid] ∧
       ∀ now' orig' v', process_person now' orig' ids (i, v') s' = (inl tt, s')) ∧
  (∀ (body : nat * PersonResult → SE App unit) pre x post s s1 e s2,
     se_for pre body s = (inl tt, s1) → body x s1 = (inr e, s2) →
     se_for (pre ++ x :: post) body s = (inr e, s2)) ∧
  (∀ inp s pre x post s1 e s2,
     ret inp = true → detection_frame_nonempty inp = true →
     enumerate (check_violations (violation_mode s) (detection_data inp))
       = pre ++ x :: post →
     se_for pre (frame_body inp s) (frame_loop_start inp s) = (inl tt, s1) →
     frame_body inp s x s1 = (inr e, s2) →
     update_frame inp s = (inr e, s2) ∧ timer_active s2 = timer_active s) ∧
  (∀ now s rest,
     0 < session_total_people s → storage_faults (db s) = true :: rest →
     ∃ s', stop_detection now s = (inr sqlite3_Error, s') ∧
       timer_active s' = false ∧
       status_label s' = ("Status: Detection stopped", (status_label s).2) ∧
       tables_unchanged (db s) (db s')) ∧
  (∀ inp s, ret inp = false → update_frame inp s = stop_detection (now inp) s).
Proof.
  split; [|split; [|split; [|split; [|split; [|split]]]]].
  - intros d rest Hf.
    assert (Htx : ∀ write, ∃ d', db_transaction write d = (inr sqlite3_Error, d') ∧
                    tables_unchanged d d').
    { intros write. unfold db_transaction. rewrite Hf. eexists. done. }
    split; [exact Htx|]. split; [|split]; intros; apply Htx.
  - intros now orig ids i v s rest pid Hnew Hf.
    destruct (process_person_failed_first now orig ids i v s rest Hnew Hf)
      as (s' & Heq & Hc & Hd & Hv & Ha & Hi & _).
    exists s'. do 6 (split; [done|]).
    intros. apply process_person_repeat. fold pid.
    rewrite (pc_logged _ _ _ _ Hc). set_solver.
  - intros now orig ids i v s rest pid Hnew Ev Hf.
    destruct (process_person_failed_second now orig ids i v s rest Hnew Ev Hf)
      as (s' & Heq & Hc & Hd & Hv & Ha & Hi & _).
    exists s'. do 6 (split; [done|]).
    intros. apply process_person_repeat. fold pid.
    rewrite (pc_logged _ _ _ _ Hc). set_solver.
  - intros body pre x post s s1 e s2. apply se_for_app_raise.
  - intros inp s pre x post s1 e s2 Hret Hne Hsplit Hpre Hx.
    apply update_frame_raise; [done|done|]. rewrite Hsplit.
    by apply (se_for_app_raise pre x post _ _ s1).
  - intros now s rest. apply stop_detection_failed.
  - intros inp s Hret. unfold update_frame. by rewrite Hret.
Qed.

End StorageResults.

(** The frame step raises on the sample frame when the storage fails, under
    either rule of NumPy. *)
Lemma storage_errors_contained_refuted {numpy : NumPy} : ¬ storage_errors_contained.
Proof.
  intros H. destruct (H sample_frame sample_app_failing) as [s' Heq].
  destruct numpy as [[]]; vm_compute in Heq; discriminate Heq.
Qed.

(** C8, counterexample.  With the storage failing, the frame in which a
    person without a helmet is first seen ends with the exception of
    [sqlite3]. *)
Lemma storage_errors_contained_fails :
  ¬ @storage_errors_contained numpy_1 ∧ ¬ @storage_errors_contained numpy_2.
Proof. split; apply storage_errors_contained_refuted. Qed.

Section StorageResultsInstances.
#[local] Existing Instance numpy_2.

Lemma storage_error_propagates_witness :
  (storage_faults (db sample_app_failing) = [true] ∧
   ∃ s', update_frame sample_frame sample_app_failing = (inr sqlite3_Error, s') ∧
         session_total_people s' = 1 ∧ detections (db s') = [] ∧ violations (db s') = [] ∧
         alert_log s' = [] ∧ timer_active s' = true) ∧
  (storage_faults (db sample_app_failing_second) = [false; true] ∧
   ∃ s', update_frame sample_frame sample_app_failing_second = (inr sqlite3_Error, s') ∧
         session_total_people s' = 1 ∧ detections (db s') = [] ∧
         length (violations (db s')) = 1%nat ∧
         alert_log s' = [AlertLine 0 (Some "Violation detected: no_helmet");
                         EmailSentLine 0] ∧
         mixer_played s' = [0%Q] ∧ timer_active s' = true).
Proof.
  destruct storage_error_propagates as (_ & _ & _ & _ & Hframe & _).
  set (x := (0%nat, check_person 1 [sample_person; sample_no_helmet] sample_person)).
  split; (split; [reflexivity|]).
  - destruct (Hframe sample_frame sample_app_failing [] x []
                (frame_loop_start sample_frame sample_app_failing) sqlite3_Error
                (frame_body sample_frame sample_app_failing x
                   (frame_loop_start sample_frame sample_app_failing)).2)
      as [Heq Htimer]; [reflexivity|reflexivity|reflexivity|reflexivity| |].
    + vm_compute. reflexivity.
    + eexists. split; [exact Heq|]. vm_compute. repeat split; reflexivity.
  - destruct (Hframe sample_frame sample_app_failing_second [] x []
                (frame_loop_start sample_frame sample_app_failing_second) sqlite3_Error
                (frame_body sample_frame sample_app_failing_second x
                   (frame_loop_start sample_frame sample_app_failing_second)).2)
      as [Heq Htimer]; [reflexivity|reflexivity|reflexivity|reflexivity| |].
    + vm_compute. reflexivity.
    + eexists. split; [exact Heq|]. vm_compute. repeat split; reflexivity.
Defined.


End StorageResultsInstances.

Section EvaluatorMore.
Context {numpy : NumPy}.

(** * Further properties *)

(** ** Compliance evaluator *)

Lemma check_person_bbox mode dets p :
  bbox (check_person mode dets p) = det_bbox p ∧
  confidence (check_person mode dets p) = det_confidence p.
Proof. unfold check_person. by case_match. Qed.

Lemma filter_nil_iff {A} (P : A → Prop) `{∀ x, Decision (P x)} (l : list A) :
  filter P l = [] ↔ ∀ x, x ∈ l → ¬ P x.
Proof.
  induction l as [|x l IH].
  - split; [intros _ y Hy; by apply elem_of_nil in Hy|done].
  - destruct (decide (P x)) as [HP|HP].
    + rewrite filter_cons_True by done. split; [done|]. intros Hall. exfalso.
      apply (Hall x); [left|done].
    + rewrite filter_cons_False by done. rewrite IH. split.
      * intros Hall y Hy. apply elem_of_cons in Hy as [->|Hy]; [done|by apply Hall].
      * intros Hall y Hy. apply Hall. by right.
Qed.

(** The scan finds a class exactly when some class of the list has an
    associated detection. *)
Lemma scan_violations_truthy p dets :
  truthy (scan_violations PPE_VIOLATIONS p dets) = true ↔
  ∃ v, v ∈ PPE_VIOLATIONS ∧ class_associated p dets v.
Proof.
  destruct (scan_violations_first PPE_VIOLATIONS p dets PPE_VIOLATIONS_nonempty)
    as [(v & Hs & pre & post & Heq & Ha & Hpre)|[Hs Hall]]; rewrite Hs.
  - assert (Hin : v ∈ PPE_VIOLATIONS) by (rewrite Heq; set_solver).
    assert (Hne : v ≠ "").
    { pose proof PPE_VIOLATIONS_nonempty as Hn. rewrite Forall_forall in Hn. by apply Hn. }
    simpl. destruct (String.eqb v "") eqn:E; [apply String.eqb_eq in E; done|].
    split; [|done]. intros _. by exists v.
  - simpl. split; [done|]. intros (v & Hin & Ha). rewrite Forall_forall in Hall.
    exfalso. by apply (Hall v).
Qed.

(** The head of the class list is found whenever it is associated. *)
Lemma scan_violations_no_helmet p dets :
  scan_violations PPE_VIOLATIONS p dets = Some "no_helmet" ↔
  class_associated p dets "no_helmet".
Proof.
  unfold PPE_VIOLATIONS. cbn [scan_violations].
  destruct (scan_detections_cases "no_helmet" p dets) as [[-> Ha]|[-> Hn]]; cbn.
  - done.
  - split; [|done]. intros Hs. exfalso.
    destruct (scan_violations_first ["no_goggle"; "no_gloves"; "no_boots"; "none"] p dets)
      as [(v & Hs' & pre & post & Heq & _)|[Hs' _]].
    + repeat constructor; done.
    + change (scan_violations ["no_goggle"; "no_gloves"; "no_boots"; "none"] p dets
              = Some "no_helmet") in Hs.
      rewrite Hs' in Hs. injection Hs as ->.
      assert (Hin : "no_helmet" ∈ ["no_goggle"; "no_gloves"; "no_boots"; "none"])
        by (rewrite Heq; set_solver).
      set_solver.
    + change (scan_violations ["no_goggle"; "no_gloves"; "no_boots"; "none"] p dets
              = Some "no_helmet") in Hs.
      by rewrite Hs' in Hs.
Qed.

(** X1.  In Mode A a person is compliant exactly when each of the five
    proper PPE classes has an associated detection and no violation class
    has one. *)
Theorem mode_a_compliant_iff dets p :
  has_violation (check_person 1 dets p) = false ↔
  (∀ item, item ∈ PPE_PROPER → class_associated (det_bbox p) dets item) ∧
  (∀ v, v ∈ PPE_VIOLATIONS → ¬ class_associated (det_bbox p) dets v).
Proof.
  unfold check_person. cbn [Z.eqb Pos.eqb].
  destruct (truthy (scan_violations PPE_VIOLATIONS (det_bbox p) dets)) eqn:Et.
  - apply scan_violations_truthy in Et as (v & Hin & Ha). cbn. split; [done|].
    intros [_ Hnone]. exfalso. by apply (Hnone v).
  - assert (Hnone : ∀ v, v ∈ PPE_VIOLATIONS → ¬ class_associated (det_bbox p) dets v).
    { intros v Hin Ha. assert (truthy (scan_violations PPE_VIOLATIONS (det_bbox p) dets) = true)
        as Ht by (apply scan_violations_truthy; eauto). congruence. }
    destruct (length (filter _ PPE_PROPER) =? 0)%nat eqn:El; cbn.
    + apply Nat.eqb_eq, length_zero_iff_nil in El. split; [|done]. intros _.
      split; [|done]. intros item Hin.
      rewrite filter_nil_iff in El. specialize (El item Hin).
      destruct (status_get (mark_proper_ppe (det_bbox p) dets) item) eqn:Es; [|done].
      by apply mark_proper_ppe_get in Es as [_ Es].
    + apply Nat.eqb_neq in El. split; [done|]. intros [Hall _]. exfalso. apply El.
      apply length_zero_iff_nil, filter_nil_iff. intros item Hin Hs.
      assert (status_get (mark_proper_ppe (det_bbox p) dets) item = true) as Ht
        by (apply mark_proper_ppe_get; auto).
      congruence.
Qed.

(** X2.  In the mode of required PPE (any mode other than 1) a person is
    violating exactly when a [no_helmet] detection is associated, or no
    helmet, or no vest: the other violation classes and the gloves, boots
    and goggles play no part. *)
Theorem mode_b_violating_iff mode dets p :
  mode ≠ 1 →
  has_violation (check_person mode dets p) = true ↔
  class_associated (det_bbox p) dets "no_helmet" ∨
  ¬ class_associated (det_bbox p) dets "helmet" ∨
  ¬ class_associated (det_bbox p) dets "vest".
Proof.
  intros Hmode. apply Z.eqb_neq in Hmode. unfold check_person. rewrite Hmode.
  set (vd := scan_violations PPE_VIOLATIONS (det_bbox p) dets).
  assert (Hreq : ∀ item, item ∈ REQUIRED_PPE →
            status_get (mark_proper_ppe (det_bbox p) dets) item = true ↔
            class_associated (det_bbox p) dets item).
  { intros item Hin. rewrite mark_proper_ppe_get. split; [by intros [_ ?]|].
    intros Ha. split; [|done]. unfold REQUIRED_PPE, PPE_PROPER in *. set_solver. }
  assert (Hmiss : (length (filter (fun ppe =>
              status_get (mark_proper_ppe (det_bbox p) dets) ppe = false) REQUIRED_PPE) =? 0)%nat
            = false ↔
            ¬ class_associated (det_bbox p) dets "helmet" ∨
            ¬ class_associated (det_bbox p) dets "vest").
  { rewrite Nat.eqb_neq, length_zero_iff_nil, filter_nil_iff. split.
    - intros Hnot.
      destruct (status_get (mark_proper_ppe (det_bbox p) dets) "helmet") eqn:Eh.
      + destruct (status_get (mark_proper_ppe (det_bbox p) dets) "vest") eqn:Ev.
        * exfalso. apply Hnot. intros item Hin. unfold REQUIRED_PPE in Hin.
          apply elem_of_cons in Hin as [->|Hin]; [congruence|].
          apply list_elem_of_singleton in Hin. subst. congruence.
        * right. intros Ha. apply Hreq in Ha; [congruence|]. unfold REQUIRED_PPE. set_solver.
      + left. intros Ha. apply Hreq in Ha; [congruence|]. unfold REQUIRED_PPE. set_solver.
    - intros [Hn|Hn] Hall.
      + apply (Hall "helmet"); [unfold REQUIRED_PPE; set_solver|].
        destruct (status_get _ "helmet") eqn:E; [|done]. exfalso. apply Hn.
        apply Hreq; [unfold REQUIRED_PPE; set_solver|done].
      + apply (Hall "vest"); [unfold REQUIRED_PPE; set_solver|].
        destruct (status_get _ "vest") eqn:E; [|done]. exfalso. apply Hn.
        apply Hreq; [unfold REQUIRED_PPE; set_solver|done]. }
  destruct (truthy vd && bool_decide (default "" vd ∈ map (fun ppe => "no_" +:+ ppe) REQUIRED_PPE))
    eqn:Eb.
  - cbn. split; [|done]. intros _. left.
    apply andb_true_iff in Eb as [Et Ein]. apply bool_decide_eq_true in Ein.
    assert (Hvd : ∃ v, vd = Some v ∧ v ∈ PPE_VIOLATIONS).
    { destruct (scan_violations_first PPE_VIOLATIONS (det_bbox p) dets PPE_VIOLATIONS_nonempty)
        as [(v & Hs & pre & post & Heq & _)|[Hs _]].
      - exists v. split; [done|]. rewrite Heq. set_solver.
      - unfold vd in Et. by rewrite Hs in Et. }
    destruct Hvd as (v & Hv & Hin). rewrite Hv in Ein. cbn in Ein.
    apply scan_violations_no_helmet. fold vd. rewrite Hv. f_equal.
    unfold PPE_VIOLATIONS in Hin. set_solver.
  - destruct (length (filter _ REQUIRED_PPE) =? 0)%nat eqn:El; cbn.
    + split; [done|]. intros [Ha|Hn].
      * exfalso. apply scan_violations_no_helmet in Ha. fold vd in Ha.
        rewrite Ha in Eb. cbn in Eb. done.
      * apply Hmiss in Hn. congruence.
    + split; [|done]. intros _. right. by apply Hmiss.
Qed.

Lemma mark_item_fold_dom p it dets (st0 st : gmap string bool) :
  it ∈ dom st0 → dom st = dom st0 →
  dom (fold_left (mark_item p it) dets st) = dom st0.
Proof.
  intros Hit. revert st. induction dets as [|d dets IHd]; intros st Hst; [done|].
  cbn [fold_left]. apply IHd. unfold mark_item.
  destruct (String.eqb _ _); [|done].
  destruct (_check_proximity _ _); [|done].
  rewrite dom_insert_L, Hst. set_solver.
Qed.

Lemma mark_items_dom p dets items st :
  (∀ item, item ∈ items → item ∈ dom st) → dom (mark_items p dets items st) = dom st.
Proof.
  unfold mark_items. revert st. induction items as [|it items IH]; intros st Hin; [done|].
  cbn [fold_left].
  assert (Hit : it ∈ dom st) by (apply Hin; left).
  destruct (String.eqb it "Person").
  - apply IH. intros; apply Hin; by right.
  - rewrite IH.
    + by apply mark_item_fold_dom.
    + intros item Hitem. rewrite (mark_item_fold_dom p it dets st st) by done.
      apply Hin. by right.
Qed.

(** X3.  The status map of a result has exactly the five keys of the proper
    PPE classes, and the flag of a class is set exactly when a detection of
    that class is associated with the person. *)
Theorem ppe_status_shape mode dets p :
  dom (ppe_status (check_person mode dets p)) = list_to_set PPE_PROPER ∧
  ∀ item,
    status_get (ppe_status (check_person mode dets p)) item = true ↔
    item ∈ PPE_PROPER ∧ class_associated (det_bbox p) dets item.
Proof.
  rewrite check_person_ppe_status. split; [|intros; apply mark_proper_ppe_get].
  assert (Hinit : dom ppe_status_init = list_to_set PPE_PROPER).
  { unfold ppe_status_init, PPE_PROPER. rewrite !dom_insert_L, dom_empty_L. cbn [list_to_set]. set_solver. }
  unfold mark_proper_ppe. rewrite mark_items_dom; [done|].
  intros item Hin. rewrite Hinit. by apply elem_of_list_to_set.
Qed.

(** X4.  There is one result per detection of class [Person], in the order
    of the frame, with that detection's box and confidence; a frame without
    a [Person] detection gives no result, whatever else was detected. *)
Theorem check_violations_per_person mode dets :
  map bbox (check_violations mode dets) = map det_bbox (persons dets) ∧
  map confidence (check_violations mode dets) = map det_confidence (persons dets) ∧
  length (check_violations mode dets) = length (persons dets) ∧
  ((∀ d, d ∈ dets → det_class d ≠ PERSON_CLASS) → check_violations mode dets = []).
Proof.
  unfold check_violations. fold (persons dets). rewrite !map_map, length_map.
  split; [|split; [|split]].
  - apply map_ext. intros d. apply check_person_bbox.
  - apply map_ext. intros d. apply check_person_bbox.
  - done.
  - intros Hnone. assert (persons dets = []) as ->; [|done].
    unfold persons. apply filter_nil_iff. intros d Hd Hc. by apply (Hnone d).
Qed.

(** X5.  A result carries a message exactly when it is a violation. *)
Theorem violation_message_iff mode dets p :
  violation_message (check_person mode dets p) = None ↔
  has_violation (check_person mode dets p) = false.
Proof.
  unfold check_person.
  repeat case_match; simplify_eq; cbn [has_violation violation_message negb]; split; done.
Qed.

(** The computed area of the intersection with a box that covers the
    person's box is the computed area of the person's box. *)
Lemma computed_area_covered (p d : BBox) :
  ordered p → covers d p →
  boxes_meet p d ∧ computed_area (intersection_box p d) = computed_area p.
Proof.
  destruct p as [[[x1 y1] x2] y2], d as [[[a1 b1] a2] b2].
  unfold boxes_meet, computed_area, intersection_box, f32_area, ordered, covers.
  intros [Hx Hy] (H1 & H2 & H3 & H4).
  pose proof (Q.min_l x2 a2 H3) as E1. pose proof (Q.max_l x1 a1 H1) as E2.
  pose proof (Q.min_l y2 b2 H4) as E3. pose proof (Q.max_l y1 b1 H2) as E4.
  split; [rewrite E1, E2, E3, E4; done|].
  by rewrite (f32_of_Q_proper _ _ E1), (f32_of_Q_proper _ _ E2),
    (f32_of_Q_proper _ _ E3), (f32_of_Q_proper _ _ E4).
Qed.

(** X7.  A detection whose box covers the person's box is associated with
    the person, when the corners of the person's box are in order and its
    area as computed in float32 is a positive number: the computed ratio is
    then [1.0], which is above the threshold under either rule of NumPy. *)
Theorem covering_box_associated p d :
  ordered p → covers (det_bbox d) p →
  f32_gt_zero (computed_area p) = true → f32_finite (computed_area p) →
  associated p d.
Proof.
  intros Ho Hc HA Hfin. apply check_proximity_iff.
  destruct (computed_area_covered p (det_bbox d) Ho Hc) as [Hm Harea].
  split; [done|]. split; [done|].
  unfold computed_ratio. rewrite Harea.
  destruct (computed_area p) as [s|s| |[] m e]; try done.
  rewrite f32_div_diag. apply f32_one_gt_threshold.
Qed.

Lemma class_associated_perm p dets dets' c :
  dets ≡ₚ dets' → class_associated p dets c ↔ class_associated p dets' c.
Proof.
  intros Hp. unfold class_associated. split; intros (d & Hd & H); exists d; split; try done.
  - by rewrite <- Hp.
  - by rewrite Hp.
Qed.

Lemma status_map_eq (st st' : gmap string bool) :
  dom st = dom st' → (∀ k, status_get st k = status_get st' k) → st = st'.
Proof.
  intros Hdom Hget. apply map_eq. intros k. specialize (Hget k). unfold status_get in Hget.
  destruct (st !! k) as [b|] eqn:E, (st' !! k) as [b'|] eqn:E'; simpl in *.
  - by subst.
  - apply elem_of_dom_2 in E. rewrite Hdom in E. apply not_elem_of_dom in E'. done.
  - apply elem_of_dom_2 in E'. rewrite <- Hdom in E'. apply not_elem_of_dom in E. done.
  - done.
Qed.

Lemma mark_proper_ppe_dom p dets : dom (mark_proper_ppe p dets) = list_to_set PPE_PROPER.
Proof.
  assert (Hinit : dom ppe_status_init = list_to_set PPE_PROPER).
  { unfold ppe_status_init, PPE_PROPER. rewrite !dom_insert_L, dom_empty_L.
    cbn [list_to_set]. set_solver. }
  unfold mark_proper_ppe. rewrite mark_items_dom; [done|].
  intros item Hin. rewrite Hinit. by apply elem_of_list_to_set.
Qed.

Lemma mark_proper_ppe_perm p dets dets' :
  dets ≡ₚ dets' → mark_proper_ppe p dets = mark_proper_ppe p dets'.
Proof.
  intros Hp. apply status_map_eq.
  - by rewrite !mark_proper_ppe_dom.
  - intros k. apply eq_true_iff_eq. rewrite !mark_proper_ppe_get.
    by rewrite (class_associated_perm p dets dets' k Hp).
Qed.

Lemma scan_detections_perm v p dets dets' :
  dets ≡ₚ dets' → scan_detections v p dets = scan_detections v p dets'.
Proof.
  intros Hp.
  destruct (scan_detections_cases v p dets) as [[-> Ha]|[-> Hn]],
           (scan_detections_cases v p dets') as [[-> Ha']|[-> Hn']]; try done.
  - exfalso. apply Hn'. by apply (class_associated_perm p dets dets' v Hp).
  - exfalso. apply Hn. by apply (class_associated_perm p dets dets' v Hp).
Qed.

Lemma scan_violations_perm vs p dets dets' :
  dets ≡ₚ dets' → scan_violations vs p dets = scan_violations vs p dets'.
Proof.
  intros Hp. induction vs as [|v vs IH]; [done|]. cbn [scan_violations].
  by rewrite (scan_detections_perm v p dets dets' Hp), IH.
Qed.

(** X8.  The evaluation of a person does not depend on the order in which
    the detector lists the boxes of the frame; the results of a frame follow
    the order of its persons. *)
Theorem check_violations_permutation mode dets dets' :
  dets ≡ₚ dets' →
  (∀ p, check_person mode dets p = check_person mode dets' p) ∧
  check_violations mode dets ≡ₚ check_violations mode dets'.
Proof.
  intros Hp.
  assert (Hperson : ∀ p, check_person mode dets p = check_person mode dets' p).
  { intros p. unfold check_person.
    by rewrite (mark_proper_ppe_perm _ dets dets' Hp),
               (scan_violations_perm _ _ dets dets' Hp). }
  split; [done|]. unfold check_violations.
  rewrite (map_ext _ _ Hperson). apply Permutation_map. by apply filter_Permutation.
Qed.

End EvaluatorMore.

Section EvaluatorMoreInstances.
#[local] Existing Instance numpy_2.

Lemma mode_b_violating_iff_witness :
  2 ≠ 1 ∧
  (has_violation (check_person 2 [sample_person; sample_no_gloves] sample_person) = true ↔
   class_associated (det_bbox sample_person) [sample_person; sample_no_gloves] "no_helmet" ∨
   ¬ class_associated (det_bbox sample_person) [sample_person; sample_no_gloves] "helmet" ∨
   ¬ class_associated (det_bbox sample_person) [sample_person; sample_no_gloves] "vest").
Proof.
  split; [done|]. apply (mode_b_violating_iff 2). done.
Defined.

Lemma covering_box_associated_witness :
  associated (det_bbox sample_person) sample_no_gloves.
Proof.
  apply covering_box_associated.
  - cbn; lra.
  - cbn; lra.
  - vm_compute. reflexivity.
  - vm_compute. exact I.
Defined.

Lemma check_violations_permutation_witness :
  check_violations 1 [sample_person; sample_helmet; sample_no_gloves] ≡ₚ
  check_violations 1 [sample_no_gloves; sample_helmet; sample_person].
Proof.
  apply check_violations_permutation.
  change ([sample_person; sample_helmet; sample_no_gloves] ≡ₚ
          reverse [sample_person; sample_helmet; sample_no_gloves]).
  symmetry. apply reverse_Permutation.
Defined.

End EvaluatorMoreInstances.


(** ** Identity tracker *)

Lemma dict_alter_elem_ne {V} (f : V → V) k k' v (d : list (Z * V)) :
  k' ≠ k → (k', v) ∈ dict_alter f k d ↔ (k', v) ∈ d.
Proof.
  intros Hne. unfold dict_alter. rewrite list_elem_of_fmap. split.
  - intros ([k0 v0] & Heq & Hin). cbn [fst snd] in Heq.
    destruct (k0 =? k) eqn:E; [|by rewrite Heq].
    apply Z.eqb_eq in E. injection Heq as -> ->. done.
  - intros Hin. exists (k', v). split; [|done]. cbn [fst snd].
    destruct (k' =? k) eqn:E; [apply Z.eqb_eq in E; done|done].
Qed.

Lemma dict_alter_elem_eq {V} (f : V → V) k v (d : list (Z * V)) :
  (k, v) ∈ dict_alter f k d ↔ ∃ v0, (k, v0) ∈ d ∧ v = f v0.
Proof.
  unfold dict_alter. rewrite list_elem_of_fmap. split.
  - intros ([k0 v0] & Heq & Hin). cbn [fst snd] in Heq.
    destruct (k0 =? k) eqn:E.
    + apply Z.eqb_eq in E. injection Heq as -> ->. by exists v0.
    + apply Z.eqb_neq in E. injection Heq as -> ->. done.
  - intros (v0 & Hin & ->). exists (k, v0). split; [|done]. cbn [fst snd].
    by rewrite Z.eqb_refl.
Qed.

Lemma dict_alter_length {V} (f : V → V) k (d : list (Z * V)) :
  length (dict_alter f k d) = length d.
Proof. unfold dict_alter. apply length_map. Qed.

Lemma is_logged_elem k tr t :
  NoDup (dict_keys (tracked_persons t)) → (k, tr) ∈ tracked_persons t →
  is_logged k t = logged tr.
Proof. intros Hnd Hin. unfold is_logged. by rewrite (dict_elem_get k tr _ Hnd Hin). Qed.

Lemma is_logged_absent k t : k ∉ dict_keys (tracked_persons t) → is_logged k t = false.
Proof. intros Hk. unfold is_logged. apply dict_get_None in Hk. by rewrite Hk. Qed.

Lemma Forall2_impl_elem {A B} (P Q : A → B → Prop) l k :
  Forall2 P l k → (∀ x y, x ∈ l → P x y → Q x y) → Forall2 Q l k.
Proof.
  induction 1 as [|x y l k HP HF IH]; intros Himp; constructor.
  - apply Himp; [left|done].
  - apply IH. intros x' y' Hin. apply Himp. by right.
Qed.

Lemma frame_inv_start t : tracker_wf t → frame_inv t [] [] t.
Proof.
  intros [Hnd Hb Hm].
  split; [done|done|lia|done|done|constructor|constructor| |simpl; lia].
  intros k tr Hin. symmetry. by apply is_logged_elem.
Qed.

Lemma frame_inv_step t0 g done t c pid t' :
  tracker_wf t0 → frame_inv t0 g done t → greedy_step g t c pid t' →
  frame_inv t0 (g ++ [pid]) (done ++ [c]) t'.
Proof.
  intros Hwf Hinv Hstep.
  pose proof (fi_below _ _ _ _ Hinv) as Hbelow. rewrite Forall_forall in Hbelow.
  assert (Hgkeys : ∀ k, k ∈ g → k ∈ dict_keys (tracked_persons t)).
  { intros k Hk. pose proof (fi_at _ _ _ _ Hinv) as Hat.
    apply list_elem_of_lookup in Hk as [i Hi].
    destruct (Forall2_lookup_l _ _ _ _ _ Hat Hi) as (c' & _ & tr & Hin & _).
    by eapply dict_elem_keys. }
  destruct Hstep as [pid tr [Hin Hng] Hthr Hmin|Hnone].
  - unfold rematch. split; cbn [tracked_persons set_tracked_persons next_id max_distance
                               memory_frames].
    + rewrite dict_keys_alter. apply Hinv.
    + rewrite dict_keys_alter. apply Hinv.
    + apply Hinv.
    + apply Hinv.
    + apply Hinv.
    + apply NoDup_app. split; [apply Hinv|]. split; [|apply NoDup_singleton].
      intros x Hx ->%list_elem_of_singleton. done.
    + apply Forall2_app.
      * eapply Forall2_impl_elem; [apply Hinv|]. intros k c' Hkg Hk. cbn beta in Hk.
        destruct Hk as (tr' & Hin' & Hc' & Hf'). exists tr'. split; [|done].
        apply dict_alter_elem_ne; [|done]. by intros ->.
      * constructor; [|constructor]. eexists. split; [apply dict_alter_elem_eq; eauto|].
        done.
    + intros k tr' Hin'. destruct (decide (k = pid)) as [->|Hne].
      * apply dict_alter_elem_eq in Hin' as (v0 & Hv0 & ->). cbn [logged].
        by apply (fi_logged _ _ _ _ Hinv).
      * apply dict_alter_elem_ne in Hin'; [|done]. by apply (fi_logged _ _ _ _ Hinv).
    + rewrite dict_alter_length, length_app. pose proof (fi_count _ _ _ _ Hinv). simpl. lia.
  - assert (Hnew : next_id t ∉ dict_keys (tracked_persons t)).
    { intros Hk. apply Hbelow in Hk. lia. }
    unfold _register. cbn [snd]. rewrite (dict_set_new _ _ _ Hnew).
    split; cbn [tracked_persons next_id max_distance memory_frames].
    + rewrite dict_keys_app. apply NoDup_app. split; [apply Hinv|].
      split; [|apply NoDup_singleton]. intros x Hx ->%list_elem_of_singleton. done.
    + rewrite dict_keys_app. apply Forall_app. split.
      * apply Forall_forall. intros k Hk. apply Hbelow in Hk. lia.
      * repeat constructor. simpl. lia.
    + pose proof (fi_next _ _ _ _ Hinv). lia.
    + apply Hinv.
    + apply Hinv.
    + apply NoDup_app. split; [apply Hinv|]. split; [|apply NoDup_singleton].
      intros x Hx ->%list_elem_of_singleton. apply Hgkeys in Hx. done.
    + apply Forall2_app.
      * eapply Forall2_impl; [apply Hinv|]. intros k c' Hk. cbn beta in Hk.
        destruct Hk as (tr' & Hin' & Hc' & Hf'). exists tr'. split; [|done].
        apply elem_of_app. by left.
      * constructor; [|constructor]. eexists. split; [apply elem_of_app; right; left|].
        done.
    + intros k tr' Hin'. apply elem_of_app in Hin' as [Hin'|Hin'].
      * by apply (fi_logged _ _ _ _ Hinv).
      * apply list_elem_of_singleton in Hin'. injection Hin' as -> ->. cbn [logged].
        symmetry. apply is_logged_absent. intros Hk.
        pose proof (wf_keys_below _ Hwf) as Hb0. rewrite Forall_forall in Hb0.
        apply Hb0 in Hk. pose proof (fi_next _ _ _ _ Hinv). lia.
    + rewrite !length_app. pose proof (fi_count _ _ _ _ Hinv). simpl. lia.
Qed.

Lemma frame_inv_run t0 g done t cs g' t' :
  tracker_wf t0 → greedy_run g t cs g' t' → frame_inv t0 g done t →
  frame_inv t0 g' (done ++ cs) t'.
Proof.
  intros Hwf Hrun. revert done.
  induction Hrun as [g t|g t c cs pid t1 g' t' Hs Hr IH]; intros done Hinv.
  - by rewrite app_nil_r.
  - rewrite (cons_middle c), app_assoc. apply IH. by eapply frame_inv_step.
Qed.

(** The tracks left by the ageing that ends [update]. *)
Lemma age_unmatched_elem given t k tr :
  (k, tr) ∈ tracked_persons (age_unmatched given t) ↔
  frames_missing tr ≤ memory_frames t ∧
  ((k ∈ given ∧ (k, tr) ∈ tracked_persons t) ∨
   ((k ∉ given) ∧ ∃ tr0, (k, tr0) ∈ tracked_persons t ∧ tr = missing_once tr0)).
Proof.
  unfold age_unmatched. cbn [tracked_persons set_tracked_persons].
  rewrite list_elem_of_filter, list_elem_of_fmap. cbn [snd]. split.
  - intros [Hle ([k0 tr0] & Heq & Hin)]. split; [done|]. cbn [fst snd] in Heq.
    destruct (bool_decide (k0 ∈ given)) eqn:E.
    + apply bool_decide_eq_true in E. injection Heq as -> ->. by left.
    + apply bool_decide_eq_false in E. injection Heq as -> ->. right. eauto.
  - intros [Hle [[Hg Hin]|[Hg (tr0 & Hin & ->)]]]; (split; [done|]).
    + exists (k, tr). cbn [fst snd]. by rewrite bool_decide_eq_true_2.
    + exists (k, tr0). cbn [fst snd]. by rewrite bool_decide_eq_false_2.
Qed.

Lemma update_greedy dets t :
  tracker_wf t →
  ∃ t1, update dets t = ((update dets t).1, age_unmatched (update dets t).1 t1) ∧
        greedy_run [] t (map centroid_of dets) (update dets t).1 t1 ∧
        tracker_wf (update dets t).2.
Proof.
  intros Hwf. unfold update. rewrite update_assignments_general.
  destruct (update_general_greedy dets t Hwf) as (ms & used & t1 & -> & _ & Hrun & Hwf').
  exists t1. done.
Qed.

Lemma update_result_tracks_aux t dets :
  tracker_wf t →
  NoDup (update dets t).1 ∧
  Forall2 (tracked_at (update dets t).2) (update dets t).1 (map centroid_of dets).
Proof.
  intros Hwf. destruct (update_greedy dets t Hwf) as (t1 & Heq & Hrun & Hwf').
  pose proof (frame_inv_run t [] [] t _ _ _ Hwf Hrun (frame_inv_start t Hwf)) as Hinv.
  split; [apply Hinv|]. rewrite Heq at 1. cbn [snd].
  eapply Forall2_impl_elem; [apply (fi_at _ _ _ _ Hinv)|].
  intros k c Hk (tr & Hin & Hc & Hf). exists tr. split; [|done].
  apply dict_elem_get.
  - rewrite Heq in Hwf'. apply Hwf'.
  - apply age_unmatched_elem. split.
    + rewrite Hf, (fi_mem _ _ _ _ Hinv). apply Hwf.
    + left. done.
Qed.



(** X10.  After [update] on a well-formed tracker no track has been missing
    for more than the memory window, and the number of tracks is at least
    the number of boxes of the frame and at most that number more than
    before. *)
Theorem update_population t dets :
  tracker_wf t →
  (∀ k tr, dict_get k (tracked_persons (update dets t).2) = Some tr →
           frames_missing tr ≤ memory_frames (update dets t).2) ∧
  (length dets ≤ get_unique_count (update dets t).2 ≤ get_unique_count t + length dets)%nat.
Proof.
  intros Hwf. destruct (update_greedy dets t Hwf) as (t1 & Heq & Hrun & Hwf').
  pose proof (frame_inv_run t [] [] t _ _ _ Hwf Hrun (frame_inv_start t Hwf)) as Hinv.
  destruct (update_result_tracks_aux t dets Hwf) as [Hnd Hat].
  split; [|split].
  - intros k tr Hget. apply dict_get_elem in Hget. rewrite Heq in Hget. cbn [snd] in Hget.
    apply age_unmatched_elem in Hget as [Hle _]. rewrite Heq. done.
  - unfold get_unique_count. rewrite <- (length_map centroid_of dets).
    rewrite <- (Forall2_length _ _ _ Hat).
    rewrite <- (length_map fst (tracked_persons _)). fold (dict_keys (tracked_persons (update dets t).2)).
    apply submseteq_length, NoDup_submseteq; [done|].
    intros k Hk. apply list_elem_of_lookup in Hk as [i Hi].
    destruct (Forall2_lookup_l _ _ _ _ _ Hat Hi) as (c & _ & tr & Hget & _).
    apply dict_get_elem in Hget. by eapply dict_elem_keys.
  - unfold get_unique_count. rewrite Heq. cbn [snd]. unfold age_unmatched.
    cbn [tracked_persons set_tracked_persons].
    etrans; [apply length_filter|]. rewrite length_map.
    pose proof (fi_count _ _ _ _ Hinv) as Hc.
    rewrite (greedy_run_length _ _ _ _ _ Hrun), length_map in Hc. simpl in Hc. lia.
Qed.

Lemma update_population_witness :
  let detections := [(101, 100, 10, 10); (3, 0, 10, 10); (400, 400, 2, 2)] in
  tracker_wf sample_tracker ∧
  (length detections ≤ get_unique_count (update detections sample_tracker).2
     ≤ get_unique_count sample_tracker + length detections)%nat.
Proof.
  intros detections.
  assert (Hwf : tracker_wf sample_tracker) by (split; by_compute).
  split; [exact Hwf|]. exact (proj2 (update_population sample_tracker detections Hwf)).
Defined.

(** X11.  [mark_logged] sets the flag of the track under the given identity
    and of no other; for an identity without a track it changes nothing, and
    [is_logged] then answers [False].  The keys and the next identity are
    left as they were. *)
Theorem mark_logged_is_logged pid t :
  (∀ pid', is_logged pid' (mark_logged pid t) =
           bool_decide (pid' = pid ∧ pid ∈ dict_keys (tracked_persons t)) || is_logged pid' t) ∧
  (pid ∉ dict_keys (tracked_persons t) → mark_logged pid t = t ∧ is_logged pid t = false) ∧
  dict_keys (tracked_persons (mark_logged pid t)) = dict_keys (tracked_persons t) ∧
  next_id (mark_logged pid t) = next_id t.
Proof.
  split; [|split; [|split]].
  - intros pid'. unfold is_logged, mark_logged. cbn [tracked_persons set_tracked_persons].
    destruct (decide (pid' = pid)) as [->|Hne].
    + rewrite dict_get_alter_eq.
      destruct (dict_get pid (tracked_persons t)) as [tr|] eqn:E; cbn.
      * rewrite bool_decide_eq_true_2; [done|]. split; [done|].
        apply dict_get_elem in E. by eapply dict_elem_keys.
      * rewrite bool_decide_eq_false_2; [done|]. intros [_ Hk].
        by apply dict_get_None in E.
    + rewrite dict_get_alter_ne by done.
      rewrite bool_decide_eq_false_2; [done|]. by intros [? _].
  - intros Hk. split; [|by apply is_logged_absent].
    unfold mark_logged. rewrite dict_alter_absent by done. apply set_tracked_persons_id.
  - unfold mark_logged. cbn [tracked_persons set_tracked_persons]. apply dict_keys_alter.
  - done.
Qed.

Lemma age_unmatched_logged t0 given t :
  (∀ k tr, (k, tr) ∈ tracked_persons t → logged tr = is_logged k t0) →
  ∀ k tr, (k, tr) ∈ tracked_persons (age_unmatched given t) → logged tr = is_logged k t0.
Proof.
  intros Hl k tr Hin. apply age_unmatched_elem in Hin as [_ [[_ Hin]|[_ (tr0 & Hin & ->)]]].
  - by apply Hl.
  - cbn [logged missing_once]. by apply Hl.
Qed.

(** X12.  [update] never sets a logged flag and clears one only by dropping
    its track: after it, an identity is logged exactly when it still has a
    track and was logged before. *)
Theorem update_keeps_logged t dets pid :
  tracker_wf t →
  is_logged pid (update dets t).2 =
  bool_decide (pid ∈ dict_keys (tracked_persons (update dets t).2)) && is_logged pid t.
Proof.
  intros Hwf. destruct (update_greedy dets t Hwf) as (t1 & Heq & Hrun & Hwf').
  pose proof (frame_inv_run t [] [] t _ _ _ Hwf Hrun (frame_inv_start t Hwf)) as Hinv.
  pose proof (age_unmatched_logged t (update dets t).1 t1 (fi_logged _ _ _ _ Hinv)) as Hl.
  rewrite Heq in Hwf'. rewrite Heq. cbn [snd] in *.
  set (t' := age_unmatched _ t1) in *.
  destruct (dict_get pid (tracked_persons t')) as [tr|] eqn:E.
  - pose proof (dict_get_elem _ _ _ E) as Hin.
    rewrite bool_decide_eq_true_2 by (by eapply dict_elem_keys). cbn [andb].
    rewrite <- (Hl pid tr Hin). unfold is_logged. by rewrite E.
  - unfold is_logged at 1. rewrite E. apply dict_get_None in E.
    by rewrite bool_decide_eq_false_2.
Qed.

Lemma update_keeps_logged_witness :
  tracker_wf (mark_logged 1 sample_tracker) ∧
  is_logged 1 (update [(3, 0, 10, 10)] (mark_logged 1 sample_tracker)).2 = true.
Proof.
  assert (Hwf : tracker_wf (mark_logged 1 sample_tracker)) by (split; by_compute).
  split; [exact Hwf|].
  rewrite (update_keeps_logged (mark_logged 1 sample_tracker) [(3, 0, 10, 10)] 1 Hwf).
  by_compute.
Defined.

Lemma update_nil t : tracker_wf t → update [] t = ([], age_unmatched [] t).
Proof.
  intros Hwf. destruct (update_greedy [] t Hwf) as (t1 & Heq & Hrun & _).
  inversion Hrun as [g t' Hg Ht Hcs Hg' Ht'|]; subst. rewrite Heq. by rewrite <- Hg'.
Qed.

Lemma age_unmatched_nil_tracked t :
  tracked_persons (age_unmatched [] t) =
  map (fun kv => (kv.1, missing_for 1 kv.2))
    (filter (fun kv => frames_missing kv.2 + 1 ≤ memory_frames t) (tracked_persons t)).
Proof.
  unfold age_unmatched. cbn [tracked_persons set_tracked_persons].
  induction (tracked_persons t) as [|[k tr] d IH]; [done|].
  cbn [map]. rewrite bool_decide_eq_false_2 by apply not_elem_of_nil. cbn [fst snd].
  destruct (decide (frames_missing tr + 1 ≤ memory_frames t)) as [Hle|Hgt].
  - rewrite filter_cons_True by done. rewrite (filter_cons_True _ (k, tr)) by done.
    cbn [map fst snd]. by rewrite IH.
  - rewrite filter_cons_False by done. rewrite (filter_cons_False _ (k, tr)) by done. done.
Qed.

Lemma empty_frames_wf n t : tracker_wf t → tracker_wf (empty_frames n t).
Proof.
  intros Hwf. induction n as [|n IH]; [done|].
  change (empty_frames (S n) t) with ((update [] (empty_frames n t)).2).
  by destruct (update_greedy [] _ IH) as (_ & _ & _ & Hwf').
Qed.

(** X13.  After [n > 0] calls of [update] without any box, the tracks left
    are those whose counter, raised by [n], is still within the memory
    window, in their order and with that counter; no identity is given out.
    With counters that are not negative, nothing is left once [n] exceeds
    the memory window. *)
Theorem empty_frames_expire t n :
  tracker_wf t → (0 < n)%nat →
  tracked_persons (empty_frames n t) =
    map (fun kv => (kv.1, missing_for (Z.of_nat n) kv.2))
      (filter (fun kv => frames_missing kv.2 + Z.of_nat n ≤ memory_frames t)
         (tracked_persons t)) ∧
  next_id (empty_frames n t) = next_id t ∧
  memory_frames (empty_frames n t) = memory_frames t ∧
  (Forall (fun kv => 0 ≤ frames_missing kv.2) (tracked_persons t) →
   memory_frames t < Z.of_nat n → get_unique_count (empty_frames n t) = 0%nat).
Proof.
  intros Hwf Hn.
  assert (Hmain : tracked_persons (empty_frames n t) =
    map (fun kv => (kv.1, missing_for (Z.of_nat n) kv.2))
      (filter (fun kv => frames_missing kv.2 + Z.of_nat n ≤ memory_frames t)
         (tracked_persons t)) ∧
    next_id (empty_frames n t) = next_id t ∧
    memory_frames (empty_frames n t) = memory_frames t).
  { destruct n as [|n]; [lia|]. clear Hn. induction n as [|n IH].
    - change (empty_frames 1 t) with ((update [] t).2).
      rewrite (update_nil t Hwf). cbn [snd].
      by rewrite age_unmatched_nil_tracked.
    - destruct IH as (IHd & IHn & IHm).
      change (empty_frames (S (S n)) t) with ((update [] (empty_frames (S n) t)).2).
      rewrite (update_nil _ (empty_frames_wf (S n) t Hwf)). cbn [snd].
      rewrite age_unmatched_nil_tracked. rewrite IHd, IHm.
      split; [|by rewrite <- IHn, <- IHm].
      clear IHd. generalize (tracked_persons t) as d.
      induction d as [|[k tr] d IHl]; [done|].
      rewrite !(filter_cons _ (k, tr)). cbn [snd].
      destruct (decide (frames_missing tr + Z.of_nat (S n) ≤ memory_frames t)) as [H1|H1],
               (decide (frames_missing tr + Z.of_nat (S (S n)) ≤ memory_frames t)) as [H2|H2];
        try lia; cbn [map fst snd]; rewrite ?filter_cons; cbn [snd frames_missing missing_for].
      + rewrite decide_True by lia. cbn [map fst snd]. rewrite IHl. f_equal. f_equal.
        unfold missing_for. cbn. f_equal; lia.
      + rewrite decide_False by lia. done.
      + done. }
  destruct Hmain as (Hd & Hnext & Hmem). split; [done|]. split; [done|]. split; [done|].
  intros Hpos Hlt. unfold get_unique_count. rewrite Hd, length_map.
  apply length_zero_iff_nil, filter_nil_iff. intros [k tr] Hin. cbn [snd].
  rewrite Forall_forall in Hpos. specialize (Hpos _ Hin). cbn [snd] in Hpos. lia.
Qed.

Lemma empty_frames_expire_witness :
  tracker_wf sample_tracker ∧ (0 < 31)%nat ∧
  get_unique_count (empty_frames 31 sample_tracker) = 0%nat ∧
  next_id (empty_frames 31 sample_tracker) = 3.
Proof.
  assert (Hwf : tracker_wf sample_tracker) by (split; by_compute).
  assert (Hn : (0 < 31)%nat) by lia.
  split; [exact Hwf|]. split; [exact Hn|].
  destruct (empty_frames_expire sample_tracker 31 Hwf Hn) as (_ & Hnext & _ & Hgone).
  split; [|exact Hnext]. apply Hgone; by_compute.
Defined.





(** *** A frame repeated *)

Lemma distance_zero (a b : Z * Z) : _calculate_distance a b ≤ 0 → a = b.
Proof.
  destruct a as [a1 a2], b as [b1 b2]. unfold _calculate_distance. cbn [fst snd].
  intros H. assert (a1 - b1 = 0 ∧ a2 - b2 = 0) as [H1 H2] by nia.
  f_equal; lia.
Qed.

Lemma distance_self (a : Z * Z) : _calculate_distance a a = 0.
Proof. unfold _calculate_distance. rewrite !Z.sub_diag. done. Qed.

Lemma within_threshold_self t c tr :
  0 < max_distance t → centroid tr = c → within_threshold t c tr.
Proof.
  intros Hmd <-. unfold within_threshold, below_max. rewrite distance_self.
  apply andb_true_iff. split; apply Z.ltb_lt; nia.
Qed.

Lemma NoDup_fmap_elem {A B} (f : A → B) (l : list A) x y :
  NoDup (map f l) → x ∈ l → y ∈ l → f x = f y → x = y.
Proof.
  induction l as [|a l IH]; cbn [map]; intros Hnd Hx Hy Heq.
  - by apply elem_of_nil in Hx.
  - apply NoDup_cons in Hnd as [Ha Hnd].
    apply elem_of_cons in Hx as [->|Hx], Hy as [->|Hy]; [done| | |by apply IH].
    + exfalso. apply Ha. rewrite Heq. apply list_elem_of_fmap. by exists y.
    + exfalso. apply Ha. rewrite <- Heq. apply list_elem_of_fmap. by exists x.
Qed.

Lemma dict_alter_fix {V} (f : V → V) k (d : list (Z * V)) :
  (∀ v, (k, v) ∈ d → f v = v) → dict_alter f k d = d.
Proof.
  intros Hfix. unfold dict_alter. rewrite <- (map_id d) at 2. apply map_ext_in.
  intros [k0 v] Hin%list_elem_of_In. cbn [fst snd]. destruct (k0 =? k) eqn:E; [|done].
  apply Z.eqb_eq in E. subst k0. by rewrite Hfix.
Qed.

Lemma separated_alter d pid c :
  NoDup (dict_keys d) → NoDup (map (fun kv : Z * Track => centroid kv.2) d) →
  (∀ k tr, (k, tr) ∈ d → k ≠ pid → centroid tr ≠ c) →
  NoDup (map (fun kv : Z * Track => centroid kv.2)
           (dict_alter (fun tr => {| centroid := c; frames_missing := 0;
                                     logged := logged tr |}) pid d)).
Proof.
  induction d as [|[k0 tr0] d IH]; intros Hk Hc Hother; [constructor|].
  cbn [dict_keys map fst] in Hk. cbn [map snd] in Hc.
  apply NoDup_cons in Hk as [Hk0 Hk]. apply NoDup_cons in Hc as [Hc0 Hc].
  unfold dict_alter in *. cbn [map fst snd].
  assert (IH' := IH Hk Hc (fun k tr Hin => Hother k tr (list_elem_of_further _ _ _ Hin))).
  destruct (k0 =? pid) eqn:E; cbn [snd centroid]; apply NoDup_cons; (split; [|done]).
  - apply Z.eqb_eq in E. subst k0. intros Hin.
    apply list_elem_of_fmap in Hin as ([k tr] & Heq & Hin). cbn [snd] in Heq.
    apply list_elem_of_fmap in Hin as ([k1 tr1] & Heq1 & Hin1). cbn [fst snd] in Heq1.
    assert (Hne : k1 ≠ pid).
    { intros ->. apply Hk0. by eapply dict_elem_keys. }
    rewrite (proj2 (Z.eqb_neq k1 pid) Hne) in Heq1. injection Heq1 as -> ->.
    apply (Hother k1 tr1); [by right|done|done].
  - apply Z.eqb_neq in E. intros Hin.
    apply list_elem_of_fmap in Hin as ([k tr] & Heq & Hin). cbn [snd] in Heq.
    apply list_elem_of_fmap in Hin as ([k1 tr1] & Heq1 & Hin1). cbn [fst snd] in Heq1.
    destruct (k1 =? pid) eqn:E1.
    + injection Heq1 as -> ->. cbn [centroid] in Heq.
      apply (Hother k0 tr0); [left|done|done].
    + injection Heq1 as -> ->. apply Hc0. apply list_elem_of_fmap. by exists (k1, tr1).
Qed.

Lemma frame_inv_given_track t0 g done t k tr :
  frame_inv t0 g done t → k ∈ g → (k, tr) ∈ tracked_persons t → centroid tr ∈ done.
Proof.
  intros Hinv Hk Hin. apply list_elem_of_lookup in Hk as [i Hi].
  destruct (Forall2_lookup_l _ _ _ _ _ (fi_at _ _ _ _ Hinv) Hi) as (c & Hc & tr' & Hin' & <- & _).
  pose proof (fi_nodup _ _ _ _ Hinv) as Hnd.
  assert (tr' = tr) as ->.
  { pose proof (dict_elem_get _ _ _ Hnd Hin) as E1.
    pose proof (dict_elem_get _ _ _ Hnd Hin') as E2. congruence. }
  by eapply list_elem_of_lookup_2.
Qed.

Lemma separated_step t0 g done t c pid t' :
  frame_inv t0 g done t → separated t → 0 < max_distance t → c ∉ done →
  greedy_step g t c pid t' → separated t'.
Proof.
  intros Hinv Hsep Hmd Hc Hstep. unfold separated in *.
  destruct Hstep as [pid tr [Hin Hng] Hthr Hmin|Hnone].
  - unfold rematch. cbn [tracked_persons set_tracked_persons].
    apply separated_alter; [apply Hinv|done|].
    intros k tr' Hin' Hne Hcent. destruct (decide (k ∈ g)) as [Hg|Hg].
    + apply Hc. rewrite <- Hcent. by eapply frame_inv_given_track.
    + assert (Hle : _calculate_distance c (centroid tr) ≤ _calculate_distance c (centroid tr')).
      { apply (Hmin k tr'); [done|]. by apply within_threshold_self. }
      rewrite Hcent, distance_self in Hle. apply distance_zero in Hle.
      assert (Heq : (pid, tr) = (k, tr')).
      { eapply (NoDup_fmap_elem (fun kv : Z * Track => centroid kv.2)); [exact Hsep|done|done|].
        cbn [snd]. congruence. }
      injection Heq as -> ->. done.
  - assert (Hnew : next_id t ∉ dict_keys (tracked_persons t)).
    { intros Hk. pose proof (fi_below _ _ _ _ Hinv) as Hb. rewrite Forall_forall in Hb.
      apply Hb in Hk. lia. }
    unfold _register. cbn [snd tracked_persons]. rewrite (dict_set_new _ _ _ Hnew).
    rewrite map_app. cbn [map snd centroid]. apply NoDup_app. split; [done|].
    split; [|apply NoDup_singleton]. intros x Hx ->%list_elem_of_singleton.
    apply list_elem_of_fmap in Hx as ([k tr] & Heq & Hin). cbn [snd] in Heq.
    destruct (decide (k ∈ g)) as [Hg|Hg].
    + apply Hc. rewrite Heq. by eapply frame_inv_given_track.
    + apply (Hnone k tr); [done|]. by apply within_threshold_self.
Qed.

Lemma separated_run t0 g dn t cs g' t' :
  tracker_wf t0 → greedy_run g t cs g' t' →
  frame_inv t0 g dn t → separated t → 0 < max_distance t0 → NoDup (dn ++ cs) →
  separated t'.
Proof.
  intros Hwf Hrun. revert dn.
  induction Hrun as [g t|g t c cs pid t1 g' t' Hs Hr IH]; intros dn Hinv Hsep Hmd Hnd;
    [done|].
  assert (Hc : c ∉ dn).
  { apply NoDup_app in Hnd as (_ & Hd & _). intros Hin. apply (Hd c Hin). left. }
  apply (IH (dn ++ [c])).
  - by eapply frame_inv_step.
  - eapply separated_step; [exact Hinv|done| |exact Hc|exact Hs].
    by rewrite (fi_max _ _ _ _ Hinv).
  - done.
  - by rewrite <- app_assoc.
Qed.

Lemma separated_age given t : separated t → separated (age_unmatched given t).
Proof.
  unfold separated, age_unmatched. cbn [tracked_persons set_tracked_persons].
  assert (Hsub :
    map (fun kv : Z * Track => centroid kv.2)
      (filter (fun kv => frames_missing kv.2 ≤ memory_frames t)
         (map (fun kv => if bool_decide (kv.1 ∈ given) then kv else (kv.1, missing_once kv.2))
            (tracked_persons t)))
    `sublist_of` map (fun kv : Z * Track => centroid kv.2) (tracked_persons t)).
  { induction (tracked_persons t) as [|[k tr] d IH]; [done|].
    cbn [map fst snd]. rewrite filter_cons.
    destruct (bool_decide (k ∈ given)); cbn [snd]; case_decide;
      cbn [map snd missing_once centroid];
      (by apply sublist_skip, IH) || (by apply sublist_cons, IH). }
  intros Hnd. by eapply sublist_NoDup.
Qed.

(** A frame whose boxes sit exactly on distinct tracks, in a tracker without
    two tracks at one centroid: each box is given the track it sits on, and
    the matching leaves the tracker as it is. *)
Lemma stationary_run t pre post cs g t' :
  tracker_wf t → separated t → 0 < max_distance t →
  Forall2 (tracked_at t) post cs → NoDup (pre ++ post) →
  greedy_run pre t cs g t' → g = pre ++ post ∧ t' = t.
Proof.
  intros Hwf Hsep Hmd Hat. revert pre g.
  induction Hat as [|pid0 c post cs (tr0 & Hget & Hc & Hf) Hat IH]; intros pre g Hnd Hrun.
  - inversion Hrun; subst. by rewrite app_nil_r.
  - inversion Hrun as [|g0 t0 c0 cs0 pid t1 g' t'' Hstep Hrest]; subst.
    pose proof (dict_get_elem _ _ _ Hget) as Hin0.
    assert (Hunused : unused_track pre t pid0 tr0).
    { split; [done|]. apply NoDup_app in Hnd as (_ & Hd & _). intros Hin.
      apply (Hd _ Hin). left. }
    assert (Hw0 : within_threshold t (centroid tr0) tr0) by (by apply within_threshold_self).
    assert (pid = pid0 ∧ t1 = t) as [-> ->].
    { destruct Hstep as [pid tr [Hin Hng] Hthr Hmin|Hnone].
      - specialize (Hmin pid0 tr0 Hunused Hw0). rewrite distance_self in Hmin.
        apply distance_zero in Hmin.
        assert (Heq : (pid, tr) = (pid0, tr0)).
        { eapply (NoDup_fmap_elem (fun kv : Z * Track => centroid kv.2));
            [exact Hsep|done|done|]. cbn [snd]. congruence. }
        injection Heq as -> ->. split; [done|]. unfold rematch.
        rewrite dict_alter_fix; [apply set_tracked_persons_id|].
        intros v Hv. assert (v = tr0) as ->.
        { pose proof (dict_elem_get _ _ _ (wf_keys_nodup _ Hwf) Hv). congruence. }
        destruct tr0. cbn in *. by subst.
      - exfalso. by apply (Hnone pid0 tr0). }
    destruct (IH (pre ++ [pid0]) g) as [-> ->]; [by rewrite <- app_assoc|done|].
    by rewrite <- app_assoc.
Qed.

(** X15.  A frame fed twice in a row gets the same identities the second
    time: with a positive distance threshold, boxes of pairwise distinct
    centroids and a well-formed tracker without two tracks at one centroid,
    [update] on the tracker left by [update] returns what the first call
    returned.  The first call leaves again no two tracks at one centroid. *)
Theorem update_same_boxes t dets :
  tracker_wf t → 0 < max_distance t → separated t → NoDup (map centroid_of dets) →
  (update dets (update dets t).2).1 = (update dets t).1 ∧
  separated (update dets t).2.
Proof.
  intros Hwf Hmd Hsep Hnd.
  destruct (update_greedy dets t Hwf) as (t1 & Heq & Hrun & Hwf').
  pose proof (frame_inv_run t [] [] t _ _ _ Hwf Hrun (frame_inv_start t Hwf)) as Hinv.
  destruct (update_result_tracks_aux t dets Hwf) as [Hids Hat].
  assert (Hsep' : separated (update dets t).2).
  { rewrite Heq. cbn [snd]. apply separated_age.
    by eapply (separated_run t [] [] t); [done|exact Hrun|apply frame_inv_start|..]. }
  split; [|done].
  assert (Hmd' : 0 < max_distance (update dets t).2).
  { rewrite Heq. cbn [snd]. unfold age_unmatched. cbn [max_distance set_tracked_persons].
    by rewrite (fi_max _ _ _ _ Hinv). }
  destruct (update_greedy dets (update dets t).2 Hwf') as (t2 & _ & Hrun2 & _).
  by destruct (stationary_run _ [] _ _ _ _ Hwf' Hsep' Hmd' Hat Hids Hrun2) as [-> _].
Qed.

Lemma update_same_boxes_witness :
  let detections := [(101, 100, 10, 10); (3, 0, 10, 10); (400, 400, 2, 2)] in
  tracker_wf sample_tracker ∧ 0 < max_distance sample_tracker ∧
  separated sample_tracker ∧ NoDup (map centroid_of detections) ∧
  (update detections (update detections sample_tracker).2).1 =
  (update detections sample_tracker).1.
Proof.
  intros detections.
  assert (Hwf : tracker_wf sample_tracker) by (split; by_compute).
  assert (Hmd : 0 < max_distance sample_tracker) by by_compute.
  assert (Hsep : separated sample_tracker) by by_compute.
  assert (Hnd : NoDup (map centroid_of detections)) by by_compute.
  split; [exact Hwf|]. split; [exact Hmd|]. split; [exact Hsep|]. split; [exact Hnd|].
  exact (proj1 (update_same_boxes sample_tracker detections Hwf Hmd Hsep Hnd)).
Defined.

(** ** Database *)

Lemma filter_filter_impl {A} (P Q : A → Prop) `{∀ x, Decision (P x)} `{∀ x, Decision (Q x)}
    (l : list A) :
  (∀ x, P x → Q x) → filter P (filter Q l) = filter P l.
Proof.
  intros Himp. induction l as [|x l IH]; [done|].
  rewrite (filter_cons Q). destruct (decide (Q x)) as [HQ|HQ].
  - rewrite !filter_cons. by rewrite IH.
  - rewrite IH. rewrite filter_cons_False; [done|]. intros HP. by apply HQ, Himp.
Qed.

Lemma filter_filter_none {A} (P : A → Prop) `{∀ x, Decision (P x)} (l : list A) :
  filter P (filter (fun x => ¬ P x) l) = [].
Proof.
  apply filter_nil_iff. intros x Hx HP. apply list_elem_of_filter in Hx as [Hn _]. done.
Qed.

(** X16.  With the storage working, what [update_daily_stats] wrote for a
    day and zone is what [get_today_stats] reads back for that day and zone,
    with the compliance rate computed from the counts; for any other day or
    zone the answer is the one from before the write. *)
Theorem daily_stats_round_trip now now' zone zone' a b c d :
  storage_faults d = [] →
  (get_today_stats now' zone' (update_daily_stats now zone a b c d).2).1 =
  if bool_decide (date_of now' = date_of now ∧ zone' = zone)
  then inl {| ts_total_people := a; ts_compliant := b; ts_violations := c;
              ts_compliance_rate :=
                if 0 <? a then (inject_Z b / inject_Z a * 100)%Q else 0%Q |}
  else (get_today_stats now' zone' d).1.
Proof.
  intros Hok. unfold update_daily_stats, get_today_stats, db_transaction, db_query.
  rewrite Hok. cbn [snd storage_faults daily_stats fst]. rewrite ?Hok.
  cbn [fst daily_stats]. rewrite filter_app.
  case_bool_decide as Hkey.
  - destruct Hkey as [-> ->]. rewrite filter_filter_none.
    rewrite filter_cons_True by done. done.
  - rewrite filter_filter_impl.
    + rewrite filter_cons_False; [by rewrite app_nil_r|]. cbn. intros [? ?]. by apply Hkey.
    + intros r [Hd Hz] [Hd' Hz']. apply Hkey. split; congruence.
Qed.

Lemma daily_stats_round_trip_witness :
  (get_today_stats 90000 "Main Entrance"
     (update_daily_stats 86400 "Main Entrance" 4 3 1 (mkDatabase [] [] [] [])).2).1 =
  inl {| ts_total_people := 4; ts_compliant := 3; ts_violations := 1;
         ts_compliance_rate := (inject_Z 3 / inject_Z 4 * 100)%Q |}.
Proof.
  rewrite (daily_stats_round_trip 86400 90000 "Main Entrance" "Main Entrance" 4 3 1
             (mkDatabase [] [] [] []) eq_refl).
  rewrite bool_decide_eq_true_2; [done|]. split; [by vm_compute|done].
Defined.

(** X17.  [get_today_stats] never changes a table, whether it answers or
    raises; when it answers and no row is stored for the day and zone, the
    answer is all zeros. *)
Theorem get_today_stats_read_only now zone d :
  violations (get_today_stats now zone d).2 = violations d ∧
  detections (get_today_stats now zone d).2 = detections d ∧
  daily_stats (get_today_stats now zone d).2 = daily_stats d ∧
  ((∀ r, r ∈ daily_stats d → ¬ (s_date r = date_of now ∧ s_zone_name r = zone)) →
   ∀ stats, (get_today_stats now zone d).1 = inl stats →
            stats = {| ts_total_people := 0; ts_compliant := 0; ts_violations := 0;
                       ts_compliance_rate := 0 |}).
Proof.
  unfold get_today_stats, db_query.
  destruct (storage_faults d) as [|[|] rest]; cbn [fst snd violations detections daily_stats];
    (split; [done|]; split; [done|]; split; [done|]); intros Hnone stats Heq; try done.
  - apply (filter_nil_iff (fun r => s_date r = date_of now ∧ s_zone_name r = zone)) in Hnone.
    rewrite Hnone in Heq. by injection Heq as <-.
  - apply (filter_nil_iff (fun r => s_date r = date_of now ∧ s_zone_name r = zone)) in Hnone.
    rewrite Hnone in Heq. by injection Heq as <-.
Qed.

(** X18.  With the storage working, a second [update_daily_stats] for the
    same day and zone replaces the row of the first: the table is the one
    that the second call alone would have left, and holds one row for that
    day and zone. *)
Theorem update_daily_stats_overwrite now now' zone a b c a' b' c' d :
  storage_faults d = [] → date_of now' = date_of now →
  let d2 := (update_daily_stats now' zone a' b' c'
               (update_daily_stats now zone a b c d).2).2 in
  daily_stats d2 = daily_stats (update_daily_stats now' zone a' b' c' d).2 ∧
  length (filter (fun r => s_date r = date_of now ∧ s_zone_name r = zone) (daily_stats d2))
    = 1%nat.
Proof.
  intros Hok Hdate. unfold update_daily_stats, db_transaction.
  rewrite Hok. cbn [snd storage_faults daily_stats]. rewrite ?Hok.
  cbn [snd daily_stats]. rewrite Hdate. split.
  - rewrite filter_app. rewrite filter_filter_impl by done.
    rewrite filter_cons_False; [by rewrite app_nil_r|]. cbn. intros H. by apply H.
  - rewrite !filter_app, !filter_filter_none.
    rewrite filter_cons_True by done. done.
Qed.

Lemma update_daily_stats_overwrite_witness :
  daily_stats (update_daily_stats 90000 "Main Entrance" 5 4 1
                 (update_daily_stats 86400 "Main Entrance" 4 3 1
                    (mkDatabase [] [] [] [])).2).2 =
  daily_stats (update_daily_stats 90000 "Main Entrance" 5 4 1 (mkDatabase [] [] [] [])).2.
Proof.
  apply (update_daily_stats_overwrite 86400 90000 "Main Entrance" 4 3 1 5 4 1
           (mkDatabase [] [] [] []) eq_refl).
  by vm_compute.
Defined.
Section AlertsMore.
Context {numpy : NumPy}.

(** ** Steps of the application, in general *)

Lemma process_person_closed (P : App → Prop) now orig ids entry s :
  step_closed P → P s → P (process_person now orig ids entry s).2.
Proof.
  intros HP Hs. destruct entry as [i v]. unfold process_person. se_unfold.
  destruct (bool_decide _); [done|]. cbn.
  destruct (has_violation v); cbn.
  - match goal with |- context [log_violation ?a ?b ?c ?d ?e ?f ?g] =>
      destruct (log_violation a b c d e f g) as [[[]|e1] d1] eqn:E1
    end; cbn.
    + match goal with |- context [log_detection ?a ?b ?c ?d ?e ?f] =>
        destruct (log_detection a b c d e f) as [[[]|e2] d2] eqn:E2
      end; cbn; repeat (first [apply HP | done]).
    + repeat (first [apply HP | done]).
  - match goal with |- context [log_detection ?a ?b ?c ?d ?e ?f] =>
      destruct (log_detection a b c d e f) as [[[]|e2] d2] eqn:E2
    end; cbn; repeat (first [apply HP | done]).
Qed.

Lemma stop_detection_closed (P : App → Prop) now s :
  step_closed P → P s → P (stop_detection now s).2.
Proof.
  intros HP Hs. unfold stop_detection. se_unfold_all. cbn.
  destruct (0 <? session_total_people s); cbn.
  - match goal with |- context [update_daily_stats ?a ?b ?c ?d ?e ?f] =>
      destruct (update_daily_stats a b c d e f) as [r d1]
    end. cbn. repeat (first [apply HP | done]).
  - repeat (first [apply HP | done]).
Qed.

Lemma assign_person_ids_closed (P : App → Prop) bboxes s :
  step_closed P → P s → P (assign_person_ids bboxes s).2.
Proof.
  intros HP Hs. unfold assign_person_ids. destruct (person_tracker s) as [t|]; [|done].
  destruct (0 <? length bboxes)%nat; [|done]. destruct (update bboxes t). by apply HP.
Qed.

Lemma update_frame_closed (P : App → Prop) inp s :
  step_closed P → P s → P (update_frame inp s).2.
Proof.
  intros HP Hs.
  destruct (ret inp) eqn:Hret.
  2:{ unfold update_frame. rewrite Hret. cbn [negb]. by apply stop_detection_closed. }
  destruct (detection_frame_nonempty inp) eqn:Hne.
  2:{ unfold update_frame. rewrite Hret, Hne. cbn [negb]. se_unfold_all. cbn [snd].
      by apply HP. }
  rewrite (update_frame_running inp s Hret Hne).
  set (results := check_violations (violation_mode s) (detection_data inp)).
  set (s3 := set_current_frame _ _).
  assert (HP3 : P s3).
  { unfold s3. apply HP. apply assign_person_ids_closed; [done|]. by apply HP. }
  assert (Hloop : P (se_for (enumerate results)
            (process_person (now inp) {| image_frame := frame inp; image_annotated := false |}
               (frame_person_ids inp s)) s3).2).
  { apply se_for_preserves; [|exact HP3]. intros e s' _ Hs'.
    by apply process_person_closed. }
  destruct (se_for _ _ s3) as [[[]|e] s4]; cbn [snd] in *; [|done].
  destruct (forallb _ results); [|done]. by apply HP.
Qed.

Lemma start_detection_closed (P : App → Prop) opened s :
  step_closed P → P s → P (start_detection opened s).
Proof.
  intros HP Hs. unfold start_detection. destruct opened; cbn [negb].
  - destruct (person_tracker s) eqn:E; cbn; rewrite ?E; repeat (first [apply HP | done]).
  - by apply HP.
Qed.

Lemma run_app_closed (P : App → Prop) evs s :
  step_closed P → P s → P (run_app evs s).
Proof.
  intros HP. revert s. induction evs as [|ev evs IH]; intros s Hs; [done|].
  cbn [run_app fold_left]. apply IH. destruct ev as [opened|inp|now]; cbn [app_step].
  - by apply start_detection_closed.
  - destruct (timer_active s); [|done]. by apply update_frame_closed.
  - by apply stop_detection_closed.
Qed.

(** ** Alerts over a run *)

Lemma spaced_snoc gap times t :
  spaced gap times → (∀ t0, last times = Some t0 → (gap <= t - t0)%Q) →
  spaced gap (times ++ [t]).
Proof.
  induction times as [|t1 times IH]; intros Hs Hl; [done|].
  destruct Hs as [Hh Hs]. cbn [app spaced]. split.
  - destruct times as [|t2 times]; cbn [app]; [|done]. by apply Hl.
  - apply IH; [done|]. intros t0 Ht0. apply Hl.
    destruct times; [done|]. done.
Qed.

Lemma channel_record_fire gap (live live' : Prop) lst times now :
  channel_record gap live lst times → in_cooldown lst now gap = false → live' →
  channel_record gap live' (Some now) (times ++ [now]).
Proof.
  intros [Hs Hl] Hc Hlive. split.
  - apply spaced_snoc; [done|]. intros t0 Ht0. destruct (Hl t0 Ht0) as [_ ->].
    unfold in_cooldown in Hc. by apply Qltb_ge in Hc.
  - intros t Ht. rewrite last_snoc in Ht. by injection Ht as <-.
Qed.

Lemma channel_record_idle gap (live : Prop) lst lst' times :
  channel_record gap live lst times → ¬ live → channel_record gap live lst' times.
Proof.
  intros [Hs Hl] Hn. split; [done|]. intros t Ht. destruct (Hl t Ht) as [H _]. done.
Qed.

Lemma send_email_notification_record now msg s :
  channel_record EMAIL_COOLDOWN
    (enabled (email_notifier s) = true ∧ is_Some (current_frame s))
    (last_email_time s) (job_times s) →
  channel_record EMAIL_COOLDOWN
    (enabled (email_notifier (send_email_notification now msg s)) = true ∧
     is_Some (current_frame (send_email_notification now msg s)))
    (last_email_time (send_email_notification now msg s))
    (job_times (send_email_notification now msg s)).
Proof.
  intros Hrec. unfold send_email_notification.
  destruct (email_enabled_checkbox s); cbn [negb]; [|done].
  destruct (in_cooldown (last_email_time s) now EMAIL_COOLDOWN) eqn:Hc; [done|].
  unfold dispatch_email, send_email_async, job_times in *.
  cbn [current_frame set_last_email_time email_notifier].
  destruct (current_frame s) as [f|] eqn:Ef.
  - cbn [email_notifier set_alert_log set_email_notifier last_email_time current_frame
         set_last_email_time].
    destruct (enabled (email_notifier s)) eqn:Een; cbn [negb executor enabled].
    + rewrite map_app. cbn [map job_time]. rewrite Ef.
      eapply channel_record_fire; [exact Hrec|exact Hc|]. split; [done|by eexists].
    + rewrite Een, Ef. eapply channel_record_idle; [exact Hrec|]. by intros [? _].
  - cbn [last_email_time set_last_email_time current_frame email_notifier]. rewrite Ef.
    eapply channel_record_idle; [exact Hrec|]. intros [_ [? ?]]. done.
Qed.

Lemma send_email_notification_log now msg s :
  alert_times (send_email_notification now msg s) = alert_times s.
Proof.
  unfold send_email_notification, dispatch_email, alert_times.
  destruct (email_enabled_checkbox s); cbn [negb]; [|done].
  destruct (in_cooldown _ _ _); [done|]. cbn [current_frame set_last_email_time].
  destruct (current_frame s); [|done].
  cbn [alert_log set_alert_log set_email_notifier set_last_email_time].
  rewrite omap_app. cbn. by rewrite app_nil_r.
Qed.

Lemma alerts_inv_trigger_alert now msg s :
  alerts_inv s → alerts_inv (trigger_alert now msg s).
Proof.
  intros [Hlog Hsound Hemail]. unfold trigger_alert.
  destruct (in_cooldown (last_alert_time s) now ALERT_COOLDOWN) eqn:Hc; [done|].
  set (s1 := set_last_alert_time (Some now) s).
  set (s2 := set_alert_log (alert_log s1 ++ [AlertLine now msg]) s1).
  set (s3 := play_alert now s2).
  destruct (send_email_notification_audio now msg s3) as (Ea & Em & Een).
  split.
  - unfold alert_times in *. cbn [last_alert_time alert_log set_status_label].
    fold (alert_times (send_email_notification now msg s3)).
    rewrite send_email_notification_log, Ea.
    assert (alert_times s3 = alert_times s ++ [now]) as ->.
    { unfold alert_times, s3, play_alert. destruct (audio_enabled s2); cbn;
        rewrite omap_app; done. }
    assert (last_alert_time s3 = Some now) as ->.
    { unfold s3, play_alert. by destruct (audio_enabled s2). }
    by eapply channel_record_fire.
  - cbn [last_alert_time mixer_played audio_enabled set_status_label].
    rewrite Ea, Em, Een.
    assert (last_alert_time s3 = Some now) as ->.
    { unfold s3, play_alert. by destruct (audio_enabled s2). }
    unfold s3, play_alert. change (audio_enabled s2) with (audio_enabled s).
    destruct (audio_enabled s) eqn:Eau; cbn [mixer_played set_mixer_played audio_enabled];
      change (audio_enabled s2) with (audio_enabled s);
      change (mixer_played s2) with (mixer_played s); rewrite ?Eau.
    + by eapply channel_record_fire.
    + eapply channel_record_idle; [exact Hsound|done].
  - cbn [last_email_time email_notifier current_frame job_times set_status_label].
    unfold job_times. cbn [email_notifier set_status_label].
    apply (send_email_notification_record now msg s3).
    assert (Heq : email_notifier s3 = email_notifier s ∧ current_frame s3 = current_frame s ∧
                  last_email_time s3 = last_email_time s).
    { unfold s3, play_alert. by destruct (audio_enabled s2). }
    destruct Heq as (E1 & E2 & E3). unfold job_times. by rewrite E1, E2, E3.
Qed.

Lemma alerts_inv_closed : step_closed alerts_inv.
Proof.
  split; try (intros v s [H1 H2 H3]; split; assumption).
  - intros f s [H1 H2 H3]. split; [assumption|assumption|].
    destruct H3 as [Hs Hl]. split; [exact Hs|]. intros t Ht.
    destruct (Hl t Ht) as [[He _] Hlast]. cbn. split; [|done]. split; [done|by eexists].
  - intros now msg s. apply alerts_inv_trigger_alert.
Qed.

Lemma alerts_inv_init storage notifier_enabled audio email_checkbox :
  alerts_inv (App_init storage notifier_enabled audio email_checkbox).
Proof. split; (split; [exact I|]); intros t Ht; discriminate Ht. Qed.

(** X19.  Over any run of the application from its initial state, whatever
    the clock does, two consecutive alert lines of the log and two
    consecutive alert sounds are at least [ALERT_COOLDOWN] seconds apart,
    and two consecutive email jobs at least [EMAIL_COOLDOWN] seconds. *)
Theorem alerts_spaced evs storage notifier_enabled audio email_checkbox :
  let s := run_app evs (App_init storage notifier_enabled audio email_checkbox) in
  spaced ALERT_COOLDOWN (alert_times s) ∧
  spaced ALERT_COOLDOWN (mixer_played s) ∧
  spaced EMAIL_COOLDOWN (job_times s).
Proof.
  intros s.
  assert (Hinv : alerts_inv s).
  { apply run_app_closed; [apply alerts_inv_closed|apply alerts_inv_init]. }
  destruct Hinv as [[H1 _] [H2 _] [H3 _]]. done.
Qed.

Lemma send_email_notification_jobs now msg s :
  email_notifier (send_email_notification now msg s) = email_notifier s ∨
  (email_enabled_checkbox s = true ∧ enabled (email_notifier s) = true ∧
   email_notifier (send_email_notification now msg s) =
     {| enabled := true;
        executor := executor (email_notifier s) ++
          [{| job_time := now; job_violation_message := msg;
              job_session_stats :=
                (session_total_people s, session_compliant s, session_violations s);
              job_image := default {| image_frame := 0; image_annotated := false |}
                             (current_frame s) |}] |}).
Proof.
  unfold send_email_notification, dispatch_email, send_email_async.
  destruct (email_enabled_checkbox s); cbn [negb]; [|by left].
  destruct (in_cooldown _ _ _); [by left|]. cbn [current_frame set_last_email_time].
  destruct (current_frame s); [|by left].
  cbn [email_notifier set_alert_log set_email_notifier set_last_email_time
       session_total_people session_compliant session_violations].
  destruct (enabled (email_notifier s)) eqn:E; cbn [negb]; [|by left].
  right. done.
Qed.

Lemma send_email_notification_checkbox now msg s :
  email_enabled_checkbox (send_email_notification now msg s) = email_enabled_checkbox s.
Proof.
  unfold send_email_notification, dispatch_email.
  destruct (email_enabled_checkbox s) eqn:Ecb; cbn [negb]; [|done].
  destruct (in_cooldown _ _ _); [exact Ecb|]. cbn [current_frame set_last_email_time].
  destruct (current_frame s); cbn; by rewrite ?Ecb.
Qed.

Lemma dispatch_inv_trigger_alert now msg s :
  dispatch_inv s → dispatch_inv (trigger_alert now msg s).
Proof.
  intros [Hsound Hemail Hoff Hnoff Hcoff]. unfold trigger_alert.
  destruct (in_cooldown (last_alert_time s) now ALERT_COOLDOWN) eqn:Hc; [done|].
  set (s1 := set_last_alert_time (Some now) s).
  set (s2 := set_alert_log (alert_log s1 ++ [AlertLine now msg]) s1).
  set (s3 := play_alert now s2).
  destruct (send_email_notification_audio now msg s3) as (Ea & Em & Een).
  assert (Hat : alert_times (set_status_label
                  ("Status: VIOLATION DETECTED - " +:+ default "None" msg,
                   "color: red; font-weight: bold;")
                  (send_email_notification now msg s3)) = alert_times s ++ [now]).
  { unfold alert_times at 1. cbn [alert_log set_status_label].
    fold (alert_times (send_email_notification now msg s3)).
    rewrite send_email_notification_log.
    unfold alert_times, s3, play_alert. destruct (audio_enabled s2); cbn;
      rewrite omap_app; done. }
  assert (Heq3 : email_notifier s3 = email_notifier s ∧
                 email_enabled_checkbox s3 = email_enabled_checkbox s ∧
                 audio_enabled s3 = audio_enabled s ∧
                 mixer_played s3 = (if audio_enabled s then mixer_played s ++ [now]
                                    else mixer_played s)).
  { unfold s3, play_alert. change (audio_enabled s2) with (audio_enabled s).
    destruct (audio_enabled s) eqn:Eau; cbn; rewrite ?Eau; done. }
  destruct Heq3 as (E1 & E2 & E3 & E4).
  assert (Hcb : email_enabled_checkbox (send_email_notification now msg s3) =
                email_enabled_checkbox s).
  { rewrite <- E2. apply send_email_notification_checkbox. }
  split; rewrite ?Hat; unfold job_times;
    cbn [mixer_played audio_enabled email_notifier email_enabled_checkbox set_status_label].
  - rewrite Em, E4. destruct (audio_enabled s).
    + by apply sublist_app.
    + by apply sublist_inserts_r.
  - destruct (send_email_notification_jobs now msg s3) as [->|(_ & _ & ->)]; rewrite E1.
    + by apply sublist_inserts_r.
    + cbn [executor]. rewrite map_app. cbn [map job_time]. by apply sublist_app.
  - rewrite Een, E3, Em, E4. intros Hoff'. rewrite Hoff'. by apply Hoff.
  - destruct (send_email_notification_jobs now msg s3) as [->|(_ & He & ->)]; rewrite E1.
    + done.
    + rewrite E1 in He. cbn. done.
  - rewrite Hcb. destruct (send_email_notification_jobs now msg s3) as [->|(Hcb' & _ & ->)];
      rewrite ?E1.
    + done.
    + rewrite E2 in Hcb'. congruence.
Qed.

Lemma trigger_alert_settings now msg s :
  audio_enabled (trigger_alert now msg s) = audio_enabled s ∧
  enabled (email_notifier (trigger_alert now msg s)) = enabled (email_notifier s) ∧
  email_enabled_checkbox (trigger_alert now msg s) = email_enabled_checkbox s.
Proof.
  unfold trigger_alert.
  destruct (in_cooldown (last_alert_time s) now ALERT_COOLDOWN); [done|].
  set (s3 := play_alert now _).
  cbn [audio_enabled email_notifier email_enabled_checkbox set_status_label].
  destruct (send_email_notification_audio now msg s3) as (_ & _ & ->).
  rewrite send_email_notification_checkbox.
  assert (Heq3 : audio_enabled s3 = audio_enabled s ∧
                 email_notifier s3 = email_notifier s ∧
                 email_enabled_checkbox s3 = email_enabled_checkbox s).
  { unfold s3, play_alert. cbn [audio_enabled set_alert_log set_last_alert_time].
    destruct (audio_enabled s) eqn:Eau; cbn; rewrite ?Eau; done. }
  destruct Heq3 as (-> & E1 & ->). split; [done|]. split; [|done].
  destruct (send_email_notification_jobs now msg s3) as [->|(_ & He & ->)]; rewrite E1.
  - done.
  - rewrite E1 in He. by rewrite He.
Qed.

Lemma dispatch_inv_closed : step_closed dispatch_inv.
Proof.
  split; try (intros v s [H1 H2 H3 H4 H5]; split; assumption).
  intros now msg s. apply dispatch_inv_trigger_alert.
Qed.

(** X20.  Over any run of the application from its initial state, every
    alert sound and every email job comes with an alert line of the same
    time in the log, in the same order; no sound is played with the audio
    off, and no email job is submitted with the notifier disabled or the
    notification box unchecked. *)
Theorem dispatches_follow_alerts evs storage notifier_enabled audio email_checkbox :
  let s := run_app evs (App_init storage notifier_enabled audio email_checkbox) in
  mixer_played s `sublist_of` alert_times s ∧
  job_times s `sublist_of` alert_times s ∧
  (audio = false → mixer_played s = []) ∧
  (notifier_enabled = false ∨ email_checkbox = false → executor (email_notifier s) = []).
Proof.
  intros s.
  assert (Hkeep : audio_enabled s = audio ∧ enabled (email_notifier s) = notifier_enabled ∧
                  email_enabled_checkbox s = email_checkbox).
  { apply (run_app_closed (fun s => audio_enabled s = audio ∧
             enabled (email_notifier s) = notifier_enabled ∧
             email_enabled_checkbox s = email_checkbox)); [|done].
    split; try (intros v s0 H; exact H).
    intros now msg s0 (H1 & H2 & H3).
    destruct (trigger_alert_settings now msg s0) as (-> & -> & ->). done. }
  destruct Hkeep as (Ha & Hn & Hc).
  assert (Hinv : dispatch_inv s).
  { apply run_app_closed; [apply dispatch_inv_closed|]. split; cbn; done. }
  destruct Hinv as [H1 H2 H3 H4 H5].
  split; [done|]. split; [done|]. split.
  - intros ->. by apply H3.
  - intros [->| ->]; [by apply H4|by apply H5].
Qed.

End AlertsMore.

Section FramesMore.
Context {numpy : NumPy}.

(** ** Frames and sessions *)

Lemma update_frame_inv (P : App → Prop) inp s :
  (∀ s', P s' → P (stop_detection (now inp) s').2) →
  (∀ v s', P s' → P (set_frame_count v s')) →
  (∀ bboxes s', P s' → P (assign_person_ids bboxes s').2) →
  (∀ f s', P s' → P (set_current_frame f s')) →
  (∀ i v s',
     (i, v) ∈ enumerate (check_violations (violation_mode s) (detection_data inp)) →
     P s' →
     P (process_person (now inp) {| image_frame := frame inp; image_annotated := false |}
          (frame_person_ids inp s) (i, v) s').2) →
  (∀ l s', P s' → P (set_status_label l s')) →
  P s → P (update_frame inp s).2.
Proof.
  intros Hstop Hcount Hassign Hcur Hbody Hlabel Hs.
  destruct (ret inp) eqn:Hret.
  2:{ unfold update_frame. rewrite Hret. cbn [negb]. by apply Hstop. }
  destruct (detection_frame_nonempty inp) eqn:Hne.
  2:{ unfold update_frame. rewrite Hret, Hne. cbn [negb]. se_unfold_all. cbn [snd].
      by apply Hcount. }
  rewrite (update_frame_running inp s Hret Hne).
  set (results := check_violations (violation_mode s) (detection_data inp)) in *.
  set (s3 := set_current_frame _ _).
  assert (HP3 : P s3) by (unfold s3; by apply Hcur, Hassign, Hcount).
  assert (Hloop : P (se_for (enumerate results)
            (process_person (now inp) {| image_frame := frame inp; image_annotated := false |}
               (frame_person_ids inp s)) s3).2).
  { apply se_for_preserves; [|exact HP3]. intros [i v] s' Hin Hs'. by apply Hbody. }
  destruct (se_for _ _ s3) as [[[]|e] s4]; cbn [snd] in *; [|done].
  destruct (forallb _ results); [|done]. by apply Hlabel.
Qed.

Lemma stop_detection_history now s :
  alert_history (stop_detection now s).2 = alert_history s ∧
  person_tracker (stop_detection now s).2 = person_tracker s ∧
  logged_person_ids (stop_detection now s).2 = logged_person_ids s.
Proof.
  unfold stop_detection. se_unfold_all. cbn.
  destruct (0 <? session_total_people s); [|done].
  match goal with |- context [update_daily_stats ?a ?b ?c ?d ?e ?f] =>
    destruct (update_daily_stats a b c d e f) as [r d1]
  end. done.
Qed.

Lemma assign_person_ids_history bboxes s :
  alert_history (assign_person_ids bboxes s).2 = alert_history s.
Proof.
  unfold assign_person_ids. destruct (person_tracker s) as [t|]; [|done].
  destruct (0 <? length bboxes)%nat; [|done]. by destruct (update bboxes t).
Qed.

(** A person that is compliant or was counted before makes no alert. *)
Lemma process_person_quiet now orig ids i v s :
  (has_violation v = true → person_id_at ids i ∈ logged_person_ids s) →
  alert_history (process_person now orig ids (i, v) s).2 = alert_history s ∧
  logged_person_ids s ⊆ logged_person_ids (process_person now orig ids (i, v) s).2.
Proof.
  intros Hq.
  destruct (decide (person_id_at ids i ∈ logged_person_ids s)) as [Hin|Hnew].
  { by rewrite process_person_repeat. }
  destruct (has_violation v) eqn:Ev; [by destruct Hnew; apply Hq|].
  unfold process_person. fold (person_id_at ids i). se_unfold.
  rewrite bool_decide_eq_false_2 by done. rewrite Ev. cbn.
  match goal with |- context [log_detection ?a ?b ?c ?d ?e ?f] =>
    destruct (log_detection a b c d e f) as [[[]|e2] d2]
  end; cbn; (split; [done|set_solver]).
Qed.

(** X21.  A frame in which every violating person was counted before makes
    no alert: the alert log, the sounds, the email jobs and the last-fired
    times are left as they were.  In particular a frame of compliant persons
    makes none, and a violator that stays in view makes no second one. *)
Theorem quiet_frame inp s :
  (∀ i v,
     (i, v) ∈ enumerate (check_violations (violation_mode s) (detection_data inp)) →
     has_violation v = true →
     person_id_at (frame_person_ids inp s) i ∈ logged_person_ids s) →
  alert_history (update_frame inp s).2 = alert_history s.
Proof.
  intros Hq.
  apply (update_frame_inv (fun s' => alert_history s' = alert_history s ∧
                                     logged_person_ids s ⊆ logged_person_ids s')); try done.
  - intros s' [H1 H2]. destruct (stop_detection_history (now inp) s') as (-> & _ & ->). done.
  - intros bboxes s' [H1 H2]. rewrite assign_person_ids_history.
    destruct (assign_person_ids_alerts bboxes s') as (_ & _ & -> & _). done.
  - intros i v s' Hin [H1 H2].
    destruct (process_person_quiet (now inp) {| image_frame := frame inp;
                image_annotated := false |} (frame_person_ids inp s) i v s') as [H3 H4].
    + intros Hv. apply H2. exact (Hq i v Hin Hv).
    + split; [congruence|set_solver].
Qed.

Lemma check_violations_no_person mode dets :
  (∀ d, d ∈ dets → det_class d ≠ PERSON_CLASS) → check_violations mode dets = [].
Proof.
  intros Hnone. unfold check_violations.
  assert (filter (fun d => det_class d = PERSON_CLASS) dets = []) as ->; [|done].
  apply filter_nil_iff. intros d Hd Hc. by apply (Hnone d).
Qed.

(** X22.  A frame that was read and shows no person raises nothing and
    leaves the tracker, the counters, the logged identities, the tables and
    the alerts as they were; it only counts the frame.  Tracks therefore do
    not age while nobody is in view. *)
Theorem frame_without_person inp s :
  ret inp = true →
  (∀ d, d ∈ detection_data inp → det_class d ≠ PERSON_CLASS) →
  (update_frame inp s).1 = inl tt ∧
  person_tracker (update_frame inp s).2 = person_tracker s ∧
  session_view (update_frame inp s).2 = session_view s ∧
  alert_history (update_frame inp s).2 = alert_history s ∧
  db (update_frame inp s).2 = db s ∧
  frame_count (update_frame inp s).2 = frame_count s + 1.
Proof.
  intros Hret Hnone.
  destruct (detection_frame_nonempty inp) eqn:Hne.
  2:{ unfold update_frame. rewrite Hret, Hne. cbn [negb]. se_unfold_all. done. }
  rewrite (update_frame_running inp s Hret Hne).
  rewrite (check_violations_no_person _ _ Hnone). cbn [map enumerate length seq zip_with
    se_for forallb]. unfold assign_person_ids. cbn [person_tracker set_frame_count].
  destruct (person_tracker s) as [t|] eqn:Et; cbn; rewrite ?Et; done.
Qed.

Lemma stop_detection_db now s :
  db (stop_detection now s).2 = db s ∨
  (0 < session_total_people s ∧
   db (stop_detection now s).2 =
   (update_daily_stats now CAMERA_ZONE_NAME (session_total_people s) (session_compliant s)
      (session_violations s) (db s)).2).
Proof.
  unfold stop_detection. se_unfold_all. cbn.
  destruct (0 <? session_total_people s) eqn:E; [|by left].
  right. split; [by apply Z.ltb_lt|].
  match goal with |- context [update_daily_stats ?a ?b ?c ?d ?e ?f] =>
    change f with (db s)
  end.
  match goal with |- context [update_daily_stats ?a ?b ?c ?d ?e ?f] =>
    destruct (update_daily_stats a b c d e f) as [[[]|e1] d1]
  end; done.
Qed.

Lemma update_daily_stats_working now zone a b c d :
  storage_faults d = [] →
  storage_faults (update_daily_stats now zone a b c d).2 = [] ∧
  detections (update_daily_stats now zone a b c d).2 = detections d ∧
  violations (update_daily_stats now zone a b c d).2 = violations d.
Proof. intros Hok. unfold update_daily_stats, db_transaction. by rewrite Hok. Qed.

Lemma rows_inv_view d0 v0 s s' :
  session_view s = session_view s' → storage_faults (db s') = storage_faults (db s) →
  rows_inv d0 v0 s → rows_inv d0 v0 s'.
Proof.
  unfold session_view, rows_inv. intros [= E1 E2 E3 E4 E5 E6] Hf (H1 & H2 & H3).
  by rewrite Hf, <- E5, <- E6, <- E1, <- E3.
Qed.

Lemma rows_inv_process_person d0 v0 now orig ids i v s :
  rows_inv d0 v0 s → rows_inv d0 v0 (process_person now orig ids (i, v) s).2.
Proof.
  intros (Hok & Hd & Hv).
  destruct (decide (person_id_at ids i ∈ logged_person_ids s)) as [Hin|Hnew].
  { by rewrite process_person_repeat. }
  destruct (process_person_stored now orig ids i v s Hnew Hok)
    as (s' & -> & Hc & Hd' & Hv' & _ & Hok').
  cbn [snd]. split; [done|]. rewrite Hd', Hv', !length_app.
  rewrite (pc_total _ _ _ _ Hc), (pc_violations _ _ _ _ Hc).
  destruct (has_violation v); cbn [length]; lia.
Qed.

Lemma rows_inv_update_frame d0 v0 inp s :
  rows_inv d0 v0 s → rows_inv d0 v0 (update_frame inp s).2.
Proof.
  apply update_frame_inv.
  - intros s' Hs'. pose proof Hs' as (Hok & _).
    eapply rows_inv_view; [symmetry; apply stop_detection_view| |exact Hs'].
    destruct (stop_detection_db (now inp) s') as [->|[_ ->]]; [done|].
    rewrite Hok. by apply update_daily_stats_working.
  - intros v s' Hs'. exact Hs'.
  - intros bboxes s' Hs'.
    eapply rows_inv_view; [symmetry; apply assign_person_ids_view| |exact Hs'].
    by destruct (assign_person_ids_alerts bboxes s') as (_ & -> & _).
  - intros f s' Hs'. exact Hs'.
  - intros i v s' _. apply rows_inv_process_person.
  - intros l s' Hs'. exact Hs'.
Qed.

(** X23.  With the storage working from the start of a session on, after
    any number of frames the [detections] table has grown by as many rows as
    the session counts people and the [violations] table by as many as it
    counts violations, and the storage has not been left failing. *)
Theorem rows_match_counters inps s0 :
  storage_faults (db s0) = [] →
  let s := (run_frames inps (start_detection true s0)).2 in
  Z.of_nat (length (detections (db s))) =
    Z.of_nat (length (detections (db s0))) + session_total_people s ∧
  Z.of_nat (length (violations (db s))) =
    Z.of_nat (length (violations (db s0))) + session_violations s ∧
  storage_faults (db s) = [].
Proof.
  intros Hok s.
  assert (Hinv : rows_inv (length (detections (db s0))) (length (violations (db s0))) s).
  { unfold s.
    assert (Hstart : rows_inv (length (detections (db s0))) (length (violations (db s0)))
                       (start_detection true s0)).
    { unfold rows_inv, start_detection. cbn. destruct (person_tracker s0); cbn;
        rewrite Hok; (split; [done|lia]). }
    revert Hstart. generalize (start_detection true s0) as s1.
    induction inps as [|inp inps IH]; intros s1 Hs1; [done|]. cbn [run_frames].
    specialize (IH _ (rows_inv_update_frame _ _ inp s1 Hs1)).
    by destruct (run_frames inps (update_frame inp s1).2). }
  destruct Hinv as (H1 & H2 & H3). done.
Qed.

Lemma counters_ok_view s s' : session_view s = session_view s' → counters_ok s → counters_ok s'.
Proof.
  intros Hview (Hl & Hc & Hv). split; [by eapply ledger_inv_view|].
  unfold session_view in Hview. injection Hview as E1 E2 E3 E4 E5 E6. by rewrite <- E2, <- E3.
Qed.

Lemma counters_ok_process_person now orig ids entry s :
  counters_ok s → counters_ok (process_person now orig ids entry s).2.
Proof.
  intros (Hl & Hc & Hv). split; [by apply process_person_ledger|].
  destruct entry as [i v].
  destruct (decide (person_id_at ids i ∈ logged_person_ids s)) as [Hin|Hnew].
  { by rewrite process_person_repeat. }
  destruct (process_person_outcome now orig ids i v s Hnew) as (r & s' & -> & Hpc & _).
  cbn [snd]. rewrite (pc_compliant _ _ _ _ Hpc), (pc_violations _ _ _ _ Hpc).
  destruct (has_violation v); lia.
Qed.

Lemma process_person_daily now orig ids entry s :
  daily_stats (db (process_person now orig ids entry s).2) = daily_stats (db s).
Proof.
  destruct entry as [i v].
  destruct (decide (person_id_at ids i ∈ logged_person_ids s)) as [Hin|Hnew].
  { by rewrite process_person_repeat. }
  destruct (process_person_outcome now orig ids i v s Hnew) as (r & s' & -> & Hpc & _).
  apply Hpc.
Qed.

Lemma rate_bounds (c t : Z) :
  0 ≤ c ≤ t → 0 < t → (0 <= inject_Z c / inject_Z t * 100 <= 100)%Q.
Proof.
  intros [Hc Hct] Ht.
  assert (H0 : (0 < inject_Z t)%Q) by (change 0%Q with (inject_Z 0); by rewrite <- Zlt_Qlt).
  assert (H1 : (0 <= inject_Z c)%Q) by (change 0%Q with (inject_Z 0); by rewrite <- Zle_Qle).
  assert (H2 : (inject_Z c <= inject_Z t)%Q) by (by rewrite <- Zle_Qle).
  assert (Hlo : (0 <= inject_Z c / inject_Z t)%Q) by (apply Qle_shift_div_l; [done|]; lra).
  assert (Hhi : (inject_Z c / inject_Z t <= 1)%Q) by (apply Qle_shift_div_r; [done|]; lra).
  set (x := (inject_Z c / inject_Z t)%Q) in *. lra.
Qed.

(** The row that a session with consistent counters writes when it stops. *)
Lemma daily_row_of_counters now s r :
  counters_ok s → 0 < session_total_people s →
  r ∈ daily_stats (update_daily_stats now CAMERA_ZONE_NAME (session_total_people s)
                     (session_compliant s) (session_violations s) (db s)).2 →
  r ∈ daily_stats (db s) ∨ daily_row_ok r.
Proof.
  intros ([Hsum _] & Hc & Hv) Hpos. unfold update_daily_stats, db_transaction.
  assert (Hrow : daily_row_ok
    {| s_date := date_of now; s_zone_name := CAMERA_ZONE_NAME;
       s_total_people := session_total_people s;
       s_compliant_people := session_compliant s;
       s_violation_people := session_violations s;
       s_compliance_rate :=
         if 0 <? session_total_people s
         then (inject_Z (session_compliant s) / inject_Z (session_total_people s) * 100)%Q
         else 0%Q |}).
  { unfold daily_row_ok. cbn. apply Z.ltb_lt in Hpos as Hpos'. rewrite Hpos'.
    split; [done|]. split; [done|]. split; [done|]. split; [done|]. split; [done|].
    split; [done|]. apply rate_bounds; lia. }
  destruct (storage_faults (db s)) as [|[|] rest]; cbn [snd daily_stats]; [|by left|];
    intros Hin; apply elem_of_app in Hin as [Hin|Hin];
    try (left; by apply list_elem_of_filter in Hin as [_ Hin]);
    right; apply list_elem_of_singleton in Hin; by subst r.
Qed.

Lemma daily_inv_stop rows0 now s : daily_inv rows0 s → daily_inv rows0 (stop_detection now s).2.
Proof.
  intros [Hc Hrows]. split.
  - eapply counters_ok_view; [symmetry; apply stop_detection_view|done].
  - intros r Hr. destruct (stop_detection_db now s) as [E|[Hpos E]]; rewrite E in Hr.
    + by apply Hrows.
    + destruct (daily_row_of_counters now s r Hc Hpos Hr) as [Hin|Hok]; [by apply Hrows|].
      by right.
Qed.

Lemma daily_inv_update_frame rows0 inp s :
  daily_inv rows0 s → daily_inv rows0 (update_frame inp s).2.
Proof.
  apply update_frame_inv.
  - intros s'. apply daily_inv_stop.
  - intros v s' Hs'. exact Hs'.
  - intros bboxes s' [Hc Hrows]. split.
    + eapply counters_ok_view; [symmetry; apply assign_person_ids_view|done].
    + by destruct (assign_person_ids_alerts bboxes s') as (_ & -> & _).
  - intros f s' Hs'. exact Hs'.
  - intros i v s' _ [Hc Hrows]. split; [by apply counters_ok_process_person|].
    by rewrite process_person_daily.
  - intros l s' Hs'. exact Hs'.
Qed.

Lemma daily_inv_start rows0 opened s :
  daily_inv rows0 s → daily_inv rows0 (start_detection opened s).
Proof.
  intros [Hc Hrows]. destruct opened.
  - assert (Hdb : db (start_detection true s) = db s ∧
                  session_compliant (start_detection true s) = 0 ∧
                  session_violations (start_detection true s) = 0).
    { unfold start_detection. cbn. by destruct (person_tracker s). }
    destruct Hdb as (Hdb & H1 & H2). split.
    + split; [apply (si_ledger _ _ _ _ (start_detection_session s))|]. by rewrite H1, H2.
    + by rewrite Hdb.
  - done.
Qed.

(** X24.  Over any run of the application from its initial state, every
    row of the daily statistics that was not in the table at the start is
    for the camera zone, has a positive total that is the sum of its
    compliant and violation counts, neither negative, and a compliance rate
    that is their ratio in percent, between 0 and 100. *)
Theorem daily_rows_consistent evs storage notifier_enabled audio email_checkbox r :
  r ∈ daily_stats (db (run_app evs (App_init storage notifier_enabled audio email_checkbox))) →
  r ∈ daily_stats storage ∨ daily_row_ok r.
Proof.
  assert (Hinv : daily_inv (daily_stats storage)
                   (run_app evs (App_init storage notifier_enabled audio email_checkbox))).
  { assert (Hinit : daily_inv (daily_stats storage)
                      (App_init storage notifier_enabled audio email_checkbox)).
    { split; [split; [apply App_init_ledger|done]|]. intros r0 Hr0. by left. }
    revert Hinit. generalize (App_init storage notifier_enabled audio email_checkbox) as s.
    induction evs as [|ev evs IH]; intros s Hs; [done|]. cbn [run_app fold_left].
    apply IH. destruct ev as [opened|inp|now]; cbn [app_step].
    - by apply daily_inv_start.
    - destruct (timer_active s); [by apply daily_inv_update_frame|done].
    - by apply daily_inv_stop. }
  intros Hr. by apply Hinv.
Qed.

End FramesMore.

Section FramesMoreInstances.
#[local] Existing Instance numpy_2.

Lemma quiet_frame_witness :
  alert_history (update_frame sample_frame_compliant sample_app).2 =
  alert_history sample_app.
Proof.
  apply quiet_frame. intros i v Hin Hv. exfalso.
  assert (Hall : Forall (fun v => has_violation v = false)
            (check_violations (violation_mode sample_app)
               (detection_data sample_frame_compliant))).
  { vm_compute. repeat constructor. }
  rewrite Forall_forall in Hall. unfold enumerate in Hin. apply elem_of_zip_r in Hin.
  specialize (Hall v Hin). congruence.
Defined.

Lemma frame_without_person_witness :
  let inp := {| ret := true; frame := 3; detection_frame_nonempty := true;
                detection_data := [sample_helmet; sample_no_helmet]; now := 20 |} in
  person_tracker (update_frame inp sample_app).2 = person_tracker sample_app ∧
  alert_history (update_frame inp sample_app).2 = alert_history sample_app.
Proof.
  intros inp.
  assert (Hnone : ∀ d, d ∈ detection_data inp → det_class d ≠ PERSON_CLASS).
  { intros d Hd. cbn in Hd. apply elem_of_cons in Hd as [->|Hd]; [done|].
    apply elem_of_cons in Hd as [->|Hd]; [done|]. by apply elem_of_nil in Hd. }
  destruct (frame_without_person inp sample_app eq_refl Hnone) as (_ & Ht & _ & Ha & _).
  split; [exact Ht|exact Ha].
Defined.

Lemma rows_match_counters_witness :
  let s := (run_frames [sample_frame; sample_frame_compliant; sample_frame]
              (start_detection true sample_app)).2 in
  Z.of_nat (length (detections (db s))) = 0 + session_total_people s ∧
  Z.of_nat (length (violations (db s))) = 0 + session_violations s.
Proof.
  intros s. destruct (rows_match_counters
    [sample_frame; sample_frame_compliant; sample_frame] sample_app eq_refl)
    as (H1 & H2 & _).
  split; [exact H1|exact H2].
Defined.

Lemma daily_rows_consistent_witness :
  let evs := [EvStart true; EvFrame sample_frame; EvFrame sample_frame_compliant; EvStop 30] in
  let r := {| s_date := 0; s_zone_name := "Main Entrance"; s_total_people := 1;
              s_compliant_people := 0; s_violation_people := 1;
              s_compliance_rate := (inject_Z 0 / inject_Z 1 * 100)%Q |} in
  daily_row_ok r.
Proof.
  intros evs r.
  destruct (daily_rows_consistent evs (mkDatabase [] [] [] []) true true true r) as [Hin|Hok].
  - vm_compute. left.
  - by apply elem_of_nil in Hin.
  - exact Hok.
Defined.

End FramesMoreInstances.


(** ** Region of interest *)

Lemma int_of_nonneg (x : Q) : (0 <= x)%Q → int_of x = Qfloor x.
Proof.
  destruct x as [n d]. unfold int_of, Qfloor, Qle. cbn. intros H.
  apply Z.quot_div_nonneg; lia.
Qed.

Lemma int_of_nonpos (x : Q) : (x <= 0)%Q → int_of x = Qceiling x.
Proof.
  destruct x as [n d]. unfold int_of, Qceiling, Qfloor, Qle, Qopp. cbn. intros H.
  rewrite <- (Z.opp_involutive n) at 1. rewrite Z.quot_opp_l by lia.
  f_equal. apply Z.quot_div_nonneg; lia.
Qed.

Lemma int_of_mono (x y : Q) : (x <= y)%Q → int_of x ≤ int_of y.
Proof.
  intros Hxy. destruct (Qlt_le_dec x 0) as [Hx|Hx], (Qlt_le_dec y 0) as [Hy|Hy].
  - rewrite !int_of_nonpos by lra. by apply Qceiling_resp_le.
  - rewrite (int_of_nonpos x), (int_of_nonneg y) by lra.
    assert (Qceiling x ≤ 0).
    { change 0 with (Qceiling 0). apply Qceiling_resp_le. lra. }
    assert (0 ≤ Qfloor y).
    { change 0 with (Qfloor 0). by apply Qfloor_resp_le. }
    lia.
  - lra.
  - rewrite !int_of_nonneg by lra. by apply Qfloor_resp_le.
Qed.

(** X25.  Whatever truth value the binding gives a point, the rectangle
    that [get_roi_coordinates] returns for a frame and a label of sizes that
    are not negative lies within the frame with its corners in order:
    [0 ≤ x1 ≤ x2 ≤ frame_width] and [0 ≤ y1 ≤ y2 ≤ frame_height].  Without
    both points nothing is returned; with a label of width or height zero
    the division raises. *)
Theorem roi_within_frame (QPoint_bool : Z * Z → bool) roi_start roi_end
    label_width label_height frame_width frame_height x1 y1 x2 y2 :
  0 ≤ label_width → 0 ≤ label_height → 0 ≤ frame_width → 0 ≤ frame_height →
  get_roi_coordinates QPoint_bool roi_start roi_end label_width label_height
    frame_width frame_height = inl (Some (x1, y1, x2, y2)) →
  0 ≤ x1 ≤ x2 ∧ x2 ≤ frame_width ∧ 0 ≤ y1 ≤ y2 ∧ y2 ≤ frame_height ∧
  is_Some roi_start ∧ is_Some roi_end ∧ label_width ≠ 0 ∧ label_height ≠ 0.
Proof.
  intros Hlw Hlh Hfw Hfh. unfold get_roi_coordinates.
  destruct (roi_point_truthy QPoint_bool roi_start && roi_point_truthy QPoint_bool roi_end);
    cbn [negb]; [|done].
  destruct roi_start as [[sx sy]|], roi_end as [[ex ey]|]; try done.
  destruct (label_width =? 0) eqn:Ew; [done|].
  destruct (label_height =? 0) eqn:Eh; [done|].
  apply Z.eqb_neq in Ew, Eh. cbn [fst snd]. intros [= <- <- <- <-].
  assert (Hsx : (0 <= inject_Z frame_width / inject_Z label_width)%Q).
  { apply Qle_shift_div_l.
    - change 0%Q with (inject_Z 0). rewrite <- Zlt_Qlt. lia.
    - rewrite Qmult_0_l. change 0%Q with (inject_Z 0). by rewrite <- Zle_Qle. }
  assert (Hsy : (0 <= inject_Z frame_height / inject_Z label_height)%Q).
  { apply Qle_shift_div_l.
    - change 0%Q with (inject_Z 0). rewrite <- Zlt_Qlt. lia.
    - rewrite Qmult_0_l. change 0%Q with (inject_Z 0). by rewrite <- Zle_Qle. }
  assert (Hx : int_of (inject_Z (Z.min sx ex) * (inject_Z frame_width / inject_Z label_width))
               ≤ int_of (inject_Z (Z.max sx ex) * (inject_Z frame_width / inject_Z label_width))).
  { apply int_of_mono. apply Qmult_le_compat_r; [|done]. rewrite <- Zle_Qle. lia. }
  assert (Hy : int_of (inject_Z (Z.min sy ey) * (inject_Z frame_height / inject_Z label_height))
               ≤ int_of (inject_Z (Z.max sy ey) * (inject_Z frame_height / inject_Z label_height))).
  { apply int_of_mono. apply Qmult_le_compat_r; [|done]. rewrite <- Zle_Qle. lia. }
  repeat split; try lia; by eexists.
Qed.

Lemma roi_within_frame_witness :
  get_roi_coordinates (fun _ => true) (Some (300, 20)) (Some (10, 500)) 320 240 640 480 =
    inl (Some (20, 40, 600, 480)) ∧
  0 ≤ 20 ≤ 600 ∧ 600 ≤ 640 ∧ 0 ≤ 40 ≤ 480 ∧ 480 ≤ 480.
Proof.
  assert (Heq : get_roi_coordinates (fun _ => true) (Some (300, 20)) (Some (10, 500))
                  320 240 640 480 = inl (Some (20, 40, 600, 480))) by (by vm_compute).
  split; [exact Heq|].
  destruct (roi_within_frame (fun _ => true) (Some (300, 20)) (Some (10, 500))
              320 240 640 480 20 40 600 480) as (H1 & H2 & H3 & H4 & _);
    [lia|lia|lia|lia|exact Heq|].
  split; [exact H1|]. split; [exact H2|]. split; [exact H3|exact H4].
Defined.
